(** * EvoRAG: ingestion, query orchestration and judging

    A shallow embedding of [ingestion.py], [rag_service.py] and
    [llm_judge.py].  Python strings are lists of code points, Python
    integers are [Z], bytes and machine words are [N] with the wrap-around
    written out.  Calls to the collaborators (vector store, embedding model,
    generative model, document converter, file system) go through a record
    of services that step an abstract world; every call is logged in a
    trace, so that "no call is issued" is a statement about the trace.
    [tasks.py], [api.py] and the set-up of the collection are embedded
    over the same services, in module [App]. *)

From Stdlib Require Import ZArith NArith List Bool Lia.
From Stdlib Require String Ascii DecimalString.
Import ListNotations.
Import String.StringSyntax.

Local Open Scope string_scope.
Local Open Scope list_scope.

Set Implicit Arguments.
Set Warnings "-register-all".

(** ** Python strings *)

Module PyStr.

(** A [str] is a sequence of Unicode code points. *)
Definition char := N.
Definition str := list char.

(** A literal written in ASCII. *)
Definition lit (s : String.string) : str :=
  map Ascii.N_of_ascii (String.list_ascii_of_string s).

Definition LF : char := 10%N.
Definition SP : char := 32%N.
Definition DQ : char := 34%N.

Definition str_eqb (a b : str) : bool :=
  if list_eq_dec N.eq_dec a b then true else false.

(** [str.isspace] on one character: the code points CPython classifies
    as whitespace. *)
Definition isspace (c : char) : bool :=
  (((9 <=? c) && (c <=? 13)) || ((28 <=? c) && (c <=? 32))
   || (c =? 133) || (c =? 160) || (c =? 5760)
   || ((8192 <=? c) && (c <=? 8202))
   || (c =? 8232) || (c =? 8233) || (c =? 8239) || (c =? 8287)
   || (c =? 12288))%N.

(** [s.split()]: the maximal runs of non-whitespace characters.  [word]
    is the run being read. *)
Fixpoint split_scan (s : str) (word : str) : list str :=
  match s with
  | [] => match word with [] => [] | _ => [word] end
  | c :: rest =>
      if isspace c
      then match word with
           | [] => split_scan rest []
           | _ => word :: split_scan rest []
           end
      else split_scan rest (word ++ [c])
  end.

Definition split (s : str) : list str := split_scan s [].

(** [len(s.split())] *)
Definition word_count (s : str) : Z := Z.of_nat (length (split s)).

(** [sep.join(l)] *)
Fixpoint join (sep : str) (l : list str) : str :=
  match l with
  | [] => []
  | [x] => x
  | x :: xs => x ++ sep ++ join sep xs
  end.

Fixpoint dropwhile (p : char -> bool) (s : str) : str :=
  match s with
  | [] => []
  | c :: rest => if p c then dropwhile p rest else s
  end.

(** [s.lstrip()], [s.rstrip()], [s.strip()] *)
Definition lstrip (s : str) : str := dropwhile isspace s.
Definition rstrip (s : str) : str := rev (dropwhile isspace (rev s)).
Definition strip (s : str) : str := rstrip (lstrip s).

(** [s.lstrip(chars)]: drops the leading characters that occur in
    [chars]. *)
Definition lstrip_chars (chars : str) (s : str) : str :=
  dropwhile (fun c => existsb (N.eqb c) chars) s.

(** [s.startswith(p)] *)
Fixpoint startswith (p s : str) : bool :=
  match p, s with
  | [], _ => true
  | _ :: _, [] => false
  | a :: p', b :: s' => (a =? b)%N && startswith p' s'
  end.

(** [sub in s] *)
Fixpoint contains (sub s : str) : bool :=
  startswith sub s ||
  match s with
  | [] => false
  | _ :: rest => contains sub rest
  end.

(** [s.split(sep)] for a non-empty [sep]: left to right, occurrences do
    not overlap.  [skip] counts the characters of a separator still to be
    passed over, [part] is the piece being read. *)
Fixpoint split_sep_scan (sep : str) (s : str) (skip : nat) (part : str)
  : list str :=
  match s with
  | [] => [part]
  | c :: rest =>
      match skip with
      | S k => split_sep_scan sep rest k part
      | O =>
          if startswith sep s
          then part :: split_sep_scan sep rest (length sep - 1) []
          else split_sep_scan sep rest 0 (part ++ [c])
      end
  end.

Definition split_sep (sep : str) (s : str) : list str :=
  split_sep_scan sep s 0 [].

(** [str(n)] for an integer. *)
Definition of_Z (n : Z) : str :=
  lit (DecimalString.NilZero.string_of_int (Z.to_int n)).

(** [c * n] for a one-character string. *)
Definition times (c : str) (n : nat) : str := concat (repeat c n).

(** Lower-case hexadecimal digit. *)
Definition hex_digit (d : N) : char :=
  (if d <? 10 then 48 + d else 87 + d)%N.

(** [width] hexadecimal digits of [n], most significant first. *)
Fixpoint hex_fixed (width : nat) (n : N) : str :=
  match width with
  | O => []
  | S w => hex_fixed w (N.shiftr n 4) ++ [hex_digit (N.land n 15)]
  end.

(** *** UTF-8 *)

Definition is_surrogate (c : char) : bool :=
  ((55296 <=? c) && (c <=? 57343))%N.

(** The encoding of one code point that is not a surrogate. *)
Definition utf8_char (c : char) : list N :=
  (if c <? 128 then [c]
   else if c <? 2048 then
     [N.lor 192 (N.shiftr c 6); N.lor 128 (N.land c 63)]
   else if c <? 65536 then
     [N.lor 224 (N.shiftr c 12);
      N.lor 128 (N.land (N.shiftr c 6) 63);
      N.lor 128 (N.land c 63)]
   else
     [N.lor 240 (N.shiftr c 18);
      N.lor 128 (N.land (N.shiftr c 12) 63);
      N.lor 128 (N.land (N.shiftr c 6) 63);
      N.lor 128 (N.land c 63)])%N.

Fixpoint find_surrogate (s : str) (pos : nat) : option (nat * str) :=
  match s with
  | [] => None
  | c :: rest =>
      if is_surrogate c then Some (pos, s) else find_surrogate rest (S pos)
  end.

Fixpoint surrogate_run (s : str) : nat :=
  match s with
  | [] => O
  | c :: rest => if is_surrogate c then S (surrogate_run rest) else O
  end.

End PyStr.

(** ** Exceptions and results *)

Module Py.
Import PyStr.

(** An exception, that is an instance of [Exception], which
    [except Exception] catches: its class and the text [str(e)] gives.
    What derives from [BaseException] only ([KeyboardInterrupt],
    [SystemExit]) is outside the model. *)
Record exn := mkExn { exn_class : String.string; exn_text : str }.

Inductive result (A : Type) : Type :=
| Ok (a : A)
| Raise (e : exn).
Arguments Ok {A} a.
Arguments Raise {A} e.

Definition rbind {A B} (r : result A) (k : A -> result B) : result B :=
  match r with
  | Ok a => k a
  | Raise e => Raise e
  end.

(** A loop whose body may raise, threading the loop variables. *)
Fixpoint fold_result {A S} (body : S -> A -> result S) (l : list A)
  (acc : S) : result S :=
  match l with
  | [] => Ok acc
  | x :: rest => rbind (body acc x) (fold_result body rest)
  end.

(** The message of the [UnicodeEncodeError] the UTF-8 codec raises on
    the run of surrogates that starts with [c] at [pos] and has [run]
    characters. *)
Definition surrogate_error (c : char) (pos run : nat) : exn :=
  mkExn "UnicodeEncodeError"
    (if Nat.eqb run 1
     then lit "'utf-8' codec can't encode character '\u" ++ hex_fixed 4 c
          ++ lit "' in position " ++ of_Z (Z.of_nat pos)
          ++ lit ": surrogates not allowed"
     else lit "'utf-8' codec can't encode characters in position "
          ++ of_Z (Z.of_nat pos) ++ lit "-"
          ++ of_Z (Z.of_nat (pos + run - 1))
          ++ lit ": surrogates not allowed").

(** [s.encode()] and [bytes(s, "utf-8")]: strict UTF-8. *)
Definition encode (s : str) : result (list N) :=
  match find_surrogate s 0 with
  | Some (pos, c :: rest) =>
      Raise (surrogate_error c pos (surrogate_run (c :: rest)))
  | _ => Ok (flat_map utf8_char s)
  end.

End Py.

(** ** [hashlib.md5], [hashlib.sha1], [uuid.uuid5] *)

Module Hashes.
Import PyStr Py.
Local Open Scope N_scope.

Definition mask32 : N := 4294967295.
Definition add32 (a b : N) : N := N.land (a + b) mask32.
Definition not32 (a : N) : N := N.lxor a mask32.
Definition rotl32 (x : N) (n : N) : N :=
  N.land (N.lor (N.shiftl x n) (N.shiftr x (32 - n))) mask32.

(** [n] as [k] bytes, least significant first, and most significant
    first. *)
Fixpoint le_bytes (k : nat) (n : N) : list N :=
  match k with
  | O => []
  | S k' => N.land n 255 :: le_bytes k' (N.shiftr n 8)
  end.
Definition be_bytes (k : nat) (n : N) : list N := rev (le_bytes k n).

Fixpoint of_le_bytes (l : list N) : N :=
  match l with
  | [] => 0
  | b :: rest => b + 256 * of_le_bytes rest
  end.
Definition of_be_bytes (l : list N) : N := of_le_bytes (rev l).

(** Cuts a list into pieces of [n] elements; [fuel] bounds the number of
    pieces. *)
Fixpoint chunks_of {A} (fuel : nat) (n : nat) (l : list A) : list (list A) :=
  match fuel, l with
  | O, _ => []
  | _, [] => []
  | S f, _ => firstn n l :: chunks_of f n (skipn n l)
  end.

(** Message padding shared by MD5 and SHA-1: a 1 bit, zeros up to 56
    modulo 64, then the bit length in 8 bytes. *)
Definition pad (len_bytes : nat -> N -> list N) (msg : list N) : list N :=
  let n := List.length msg in
  let zeros := ((64 + 55 - Nat.modulo n 64) mod 64)%nat in
  msg ++ [128] ++ repeat 0 zeros
      ++ len_bytes 8%nat (N.land (8 * N.of_nat n) 18446744073709551615).

Definition blocks (padded : list N) : list (list (list N)) :=
  map (chunks_of 16 4) (chunks_of (List.length padded) 64 padded).

(** *** MD5 (RFC 1321) *)

Definition md5_K : list N :=
  [3614090360; 3905402710; 606105819; 3250441966; 4118548399; 1200080426;
   2821735955; 4249261313; 1770035416; 2336552879; 4294925233; 2304563134;
   1804603682; 4254626195; 2792965006; 1236535329; 4129170786; 3225465664;
   643717713; 3921069994; 3593408605; 38016083; 3634488961; 3889429448;
   568446438; 3275163606; 4107603335; 1163531501; 2850285829; 4243563512;
   1735328473; 2368359562; 4294588738; 2272392833; 1839030562; 4259657740;
   2763975236; 1272893353; 4139469664; 3200236656; 681279174; 3936430074;
   3572445317; 76029189; 3654602809; 3873151461; 530742520; 3299628645;
   4096336452; 1126891415; 2878612391; 4237533241; 1700485571; 2399980690;
   4293915773; 2240044497; 1873313359; 4264355552; 2734768916; 1309151649;
   4149444226; 3174756917; 718787259; 3951481745].

Definition md5_S : list N :=
  [7; 12; 17; 22; 7; 12; 17; 22; 7; 12; 17; 22; 7; 12; 17; 22;
   5; 9; 14; 20; 5; 9; 14; 20; 5; 9; 14; 20; 5; 9; 14; 20;
   4; 11; 16; 23; 4; 11; 16; 23; 4; 11; 16; 23; 4; 11; 16; 23;
   6; 10; 15; 21; 6; 10; 15; 21; 6; 10; 15; 21; 6; 10; 15; 21].

Definition md5_round (M : list N) (st : N * N * N * N) (i : nat)
  : N * N * N * N :=
  let '(a, b, c, d) := st in
  let '(f, g) :=
    match Nat.div i 16 with
    | 0%nat => (N.lor (N.land b c) (N.land (not32 b) d), i)
    | 1%nat => (N.lor (N.land d b) (N.land (not32 d) c),
                Nat.modulo (5 * i + 1) 16)
    | 2%nat => (N.lxor b (N.lxor c d), Nat.modulo (3 * i + 5) 16)
    | _ => (N.lxor c (N.lor b (not32 d)), Nat.modulo (7 * i) 16)
    end in
  let sum := add32 (add32 a f) (add32 (nth i md5_K 0) (nth g M 0)) in
  (d, add32 b (rotl32 sum (nth i md5_S 0)), b, c).

Definition md5_block (st : N * N * N * N) (block : list (list N))
  : N * N * N * N :=
  let M := map of_le_bytes block in
  let '(a0, b0, c0, d0) := st in
  let '(a, b, c, d) := fold_left (md5_round M) (seq 0 64) st in
  (add32 a0 a, add32 b0 b, add32 c0 c, add32 d0 d).

Definition md5 (msg : list N) : list N :=
  let '(a, b, c, d) :=
    fold_left md5_block (blocks (pad le_bytes msg))
      (1732584193, 4023233417, 2562383102, 271733878) in
  le_bytes 4 a ++ le_bytes 4 b ++ le_bytes 4 c ++ le_bytes 4 d.

(** *** SHA-1 (FIPS 180) *)

Fixpoint sha1_schedule (fuel : nat) (w : list N) : list N :=
  match fuel with
  | O => w
  | S f =>
      let t := List.length w in
      let x := N.lxor (N.lxor (nth (t - 3) w 0) (nth (t - 8) w 0))
                      (N.lxor (nth (t - 14) w 0) (nth (t - 16) w 0)) in
      sha1_schedule f (w ++ [rotl32 x 1])
  end.

Definition sha1_round (W : list N) (st : N * N * N * N * N) (t : nat)
  : N * N * N * N * N :=
  let '(a, b, c, d, e) := st in
  let '(f, k) :=
    match Nat.div t 20 with
    | 0%nat => (N.lor (N.land b c) (N.land (not32 b) d), 1518500249)
    | 1%nat => (N.lxor b (N.lxor c d), 1859775393)
    | 2%nat => (N.lor (N.lor (N.land b c) (N.land b d)) (N.land c d),
                2400959708)
    | _ => (N.lxor b (N.lxor c d), 3395469782)
    end in
  let tmp := add32 (add32 (rotl32 a 5) f) (add32 (add32 e k) (nth t W 0)) in
  (tmp, a, rotl32 b 30, c, d).

Definition sha1_block (st : N * N * N * N * N) (block : list (list N))
  : N * N * N * N * N :=
  let W := sha1_schedule 64 (map of_be_bytes block) in
  let '(h0, h1, h2, h3, h4) := st in
  let '(a, b, c, d, e) := fold_left (sha1_round W) (seq 0 80) st in
  (add32 h0 a, add32 h1 b, add32 h2 c, add32 h3 d, add32 h4 e).

Definition sha1 (msg : list N) : list N :=
  let '(h0, h1, h2, h3, h4) :=
    fold_left sha1_block (blocks (pad be_bytes msg))
      (1732584193, 4023233417, 2562383102, 271733878, 3285377520) in
  be_bytes 4 h0 ++ be_bytes 4 h1 ++ be_bytes 4 h2 ++ be_bytes 4 h3
    ++ be_bytes 4 h4.

(** [bytes.hex()] / [hexdigest()] *)
Definition hex (bs : list N) : str := flat_map (hex_fixed 2) bs.

(** *** UUIDs *)

(** A UUID is its 128-bit integer. *)
Definition uuid := N.

(** [uuid.NAMESPACE_DNS] = 6ba7b810-9dad-11d1-80b4-00c04fd430c8 *)
Definition NAMESPACE_DNS : uuid := 143098242404177361603877621312831893704.

(** [UUID(bytes=..., version=5)]: the variant bits become 10, the
    version nibble becomes 5. *)
Definition set_version5 (n : N) : uuid :=
  let n := N.land n (N.lxor (N.shiftl 49152 48) (N.ones 128)) in
  let n := N.lor n (N.shiftl 32768 48) in
  let n := N.land n (N.lxor (N.shiftl 61440 64) (N.ones 128)) in
  N.lor n (N.shiftl 5 76).

(** [uuid.uuid5(namespace, name)] *)
Definition uuid5 (namespace : uuid) (name : str) : result uuid :=
  rbind (encode name) (fun name_bytes =>
  let digest := sha1 (be_bytes 16 namespace ++ name_bytes) in
  Ok (set_version5 (of_be_bytes (firstn 16 digest)))).

(** [str(u)] *)
Definition uuid_str (u : uuid) : str :=
  let h := hex_fixed 32 u in
  firstn 8 h ++ lit "-" ++ firstn 4 (skipn 8 h) ++ lit "-"
    ++ firstn 4 (skipn 12 h) ++ lit "-" ++ firstn 4 (skipn 16 h)
    ++ lit "-" ++ skipn 20 h.

End Hashes.

(** ** JSON values, as [json.loads] builds them *)

Module Json.
Import PyStr Py.

(** A [dict] is the sequence of its items; [JFloat] keeps the literal. *)
Inductive json : Type :=
| JNull
| JBool (b : bool)
| JInt (z : Z)
| JFloat (literal : str)
| JStr (s : str)
| JList (l : list json)
| JDict (items : list (str * json)).

(** The value bound to [key]: a later item overrides an earlier one. *)
Fixpoint lookup (key : str) (items : list (str * json)) : option json :=
  match items with
  | [] => None
  | (k, v) :: rest =>
      match lookup key rest with
      | Some v' => Some v'
      | None => if str_eqb k key then Some v else None
      end
  end.

(** [type(v).__name__] *)
Definition type_name (v : json) : str :=
  match v with
  | JNull => lit "NoneType"
  | JBool _ => lit "bool"
  | JInt _ => lit "int"
  | JFloat _ => lit "float"
  | JStr _ => lit "str"
  | JList _ => lit "list"
  | JDict _ => lit "dict"
  end.

(** [v.get(key, default)]: only a [dict] has the method. *)
Definition get (v : json) (key : str) (default : json) : result json :=
  match v with
  | JDict items =>
      Ok (match lookup key items with Some x => x | None => default end)
  | _ =>
      Raise (mkExn "AttributeError"
               (lit "'" ++ type_name v
                  ++ lit "' object has no attribute 'get'"))
  end.

(** [v[key]] for a [dict] that has the key. *)
Definition getitem (v : json) (key : str) : option json :=
  match v with
  | JDict items => lookup key items
  | _ => None
  end.

End Json.

(** ** Prompt templates *)

Module Template.
Import PyStr Py.

(** A format string, parsed: literal text and named replacement fields
    [{name}] without conversion or format specification. *)
Inductive segment : Type :=
| Lit (s : str)
| Field (name : str).

Definition template := list segment.

Fixpoint kwarg (name : str) (kwargs : list (str * str)) : option str :=
  match kwargs with
  | [] => None
  | (k, v) :: rest => if str_eqb k name then Some v else kwarg name rest
  end.

(** [t.format(k1=v1, ...)]: a field that is not among the keyword
    arguments raises [KeyError]. *)
Fixpoint format (t : template) (kwargs : list (str * str)) : result str :=
  match t with
  | [] => Ok []
  | Lit s :: rest => rbind (format rest kwargs) (fun r => Ok (s ++ r))
  | Field name :: rest =>
      match kwarg name kwargs with
      | Some v => rbind (format rest kwargs) (fun r => Ok (v ++ r))
      | None => Raise (mkExn "KeyError" (lit "'" ++ name ++ lit "'"))
      end
  end.

(** Every field of [t] is one of [names]. *)
Definition fields_within (names : list str) (t : template) : bool :=
  forallb (fun seg =>
             match seg with
             | Lit _ => true
             | Field name => existsb (fun n => str_eqb n name) names
             end) t.

End Template.

(** ** The collaborators *)

Module Services.
Import PyStr Py Json.

(** [models.Filter(must=[models.FieldCondition(key=..,
    match=models.MatchValue(value=..))])] *)
Record field_condition := FieldCondition
  { key : str; match_value : str }.
Record qfilter := Filter { must : list field_condition }.

(** What [iterate_items] yields: section headers, text items, list items
    and the items of other kinds (tables, pictures, groups).  [page_ref]
    is what [getattr(element, 'page_ref', None)] gives. *)
Inductive element : Type :=
| SectionHeaderItem (text : str)
| TextItem (text : str) (page_ref : json)
| ListItem (text : str) (page_ref : json)
| OtherItem.

(** A converted document: its items with their levels, and the text
    [str(doc)]. *)
Record document := mkDocument
  { iterate_items : list (element * Z); doc_str : str }.

(** The payload of a stored point: the chunk metadata and the text. *)
Record payload := mkPayload
  { p_source : str; p_page : json; p_heading : str; p_chunk_index : Z;
    p_text : str }.

(** The payload of a search hit, read by key: a key may be missing. *)
Record hit := mkHit
  { hit_source : option str; hit_text : option str }.

(** [collection_info.points_count] and
    [collection_info.config.params.vectors.size] *)
Record collection_info := mkInfo
  { points_count : option Z; vectors_size : Z }.

Section World.
(** The state of everything outside the program, and the embedding
    vectors, whose floats the program never looks into. *)
Variable World : Type.
Variable vector : Type.

Record PointStruct := mkPoint
  { point_id : str; point_vector : vector; point_payload : payload }.

(** One entry of the trace: a call to a collaborator with its
    arguments, or a line printed. *)
Inductive event : Type :=
| EvPrint (line : str)
| EvPathExists (path : str)
| EvConvert (source : str)
| EvWriteFile (path : str) (content : str)
| EvEncode (texts : list str) (batch_size : Z)
| EvEncodeQuery (query : json)
| EvGetCollection (collection_name : str)
| EvSearch (collection_name : str) (query_vector : vector) (limit : Z)
    (with_payload : bool)
| EvScroll (collection_name : str) (scroll_filter : qfilter) (limit : Z)
| EvDelete (collection_name : str) (points_selector : qfilter)
| EvUpsert (collection_name : str) (points : list PointStruct)
    (wait : bool)
| EvGenerateContent (model : str) (contents : str)
    (response_mime_type : option str).

Definition reply (A : Type) : Type := World -> result A * World.

(** The collaborators.  [generate_content] answers with
    [response.text], which is [None] when the response carries no
    text; [scroll] answers with the pair of the points found (their
    ids) and the next page offset; [json_loads] is [json.loads]. *)
Record services := mkServices
  { path_exists : str -> World -> bool * World;
    convert : str -> reply document;
    write_file : str -> str -> reply unit;
    embedding_encode : list str -> Z -> reply (list vector);
    embedding_encode_query : json -> reply vector;
    get_collection : str -> reply collection_info;
    search : str -> vector -> Z -> bool -> reply (list hit);
    scroll : str -> qfilter -> Z -> reply (list str * json);
    delete : str -> qfilter -> reply unit;
    upsert : str -> list PointStruct -> bool -> reply unit;
    generate_content : str -> str -> option str -> reply (option str);
    json_loads : str -> result json }.

(** The program's view: the world and the trace so far. *)
Record machine := mkMachine { world : World; trace : list event }.

Definition M (A : Type) : Type := machine -> result A * machine.

Definition ret {A} (a : A) : M A := fun m => (Ok a, m).

Definition raise {A} (e : exn) : M A := fun m => (Raise e, m).

Definition bind {A B} (c : M A) (k : A -> M B) : M B :=
  fun m =>
    match c m with
    | (Ok a, m') => k a m'
    | (Raise e, m') => (Raise e, m')
    end.

(** [try: c except Exception as e: h e] *)
Definition try_except {A} (c : M A) (h : exn -> M A) : M A :=
  fun m =>
    match c m with
    | (Ok a, m') => (Ok a, m')
    | (Raise e, m') => h e m'
    end.

(** A pure computation that may raise. *)
Definition lift {A} (r : result A) : M A := fun m => (r, m).

(** A call: logged, then answered by the world. *)
Definition call {A} (ev : event) (f : reply A) : M A :=
  fun m =>
    let (r, w) := f (world m) in
    (r, mkMachine w (trace m ++ [ev])).

Definition print (line : str) : M unit :=
  fun m => (Ok tt, mkMachine (world m) (trace m ++ [EvPrint line])).

(** [for x in l: body] threading the loop variables [acc]. *)
Fixpoint for_each {A S} (l : list A) (body : S -> A -> M S) (acc : S)
  : M S :=
  match l with
  | [] => ret acc
  | x :: rest => bind (body acc x) (for_each rest body)
  end.

(** Starts a run in world [w] with an empty trace. *)
Definition run {A} (c : M A) (w : World) : result A * machine :=
  c (mkMachine w []).

(** The calls that change the collection. *)
Definition is_mutation (ev : event) : bool :=
  match ev with
  | EvDelete _ _ | EvUpsert _ _ _ => true
  | _ => false
  end.

(** The calls that compute embeddings. *)
Definition is_encode (ev : event) : bool :=
  match ev with
  | EvEncode _ _ | EvEncodeQuery _ => true
  | _ => false
  end.

End World.

Arguments EvPrint {vector} line.
Arguments EvPathExists {vector} path.
Arguments EvConvert {vector} source.
Arguments EvWriteFile {vector} path content.
Arguments EvEncode {vector} texts batch_size.
Arguments EvEncodeQuery {vector} query.
Arguments EvGetCollection {vector} collection_name.
Arguments EvScroll {vector} collection_name scroll_filter limit.
Arguments EvDelete {vector} collection_name points_selector.
Arguments EvGenerateContent {vector} model contents response_mime_type.
Arguments ret {World vector A} a.
Arguments raise {World vector A} e.
Arguments lift {World vector A} r.
Arguments print {World vector} line.

Declare Scope py_scope.
Delimit Scope py_scope with py.
Notation "x <- c ;; k" := (bind c (fun x => k))
  (at level 61, c at next level, right associativity) : py_scope.
Notation "c ;;; k" := (bind c (fun _ => k))
  (at level 61, right associativity) : py_scope.

End Services.

(** ** [ingestion.py] *)

Module Ingestion.
Import PyStr Py Hashes Json Services.
Local Open Scope Z_scope.
Local Open Scope py_scope.

Definition COLLECTION_NAME : str := lit "my_rag_documents_v2".

(** The module-level settings. *)
Record config := mkConfig
  { BATCH_SIZE : Z;
    MAX_CHUNK_WORDS : Z;
    MIN_CHUNK_WORDS : Z;
    ADD_CONTEXT_PREFIX : bool }.

(** The values the module sets. *)
Definition default_config : config := mkConfig 128 500 5 false.

Record metadata := mkMetadata
  { md_source : str; md_page : json; md_heading : str; md_chunk_index : Z }.

Record chunk := mkChunk
  { chunk_id : str; chunk_text : str; chunk_metadata : metadata }.

(** [_generate_deterministic_id] *)
Definition _generate_deterministic_id (source : str) (chunk_index : Z)
  (text_hash : str) : result str :=
  rbind (uuid5 NAMESPACE_DNS source) (fun namespace =>
  let unique_string := of_Z chunk_index ++ lit "::" ++ text_hash in
  rbind (uuid5 namespace unique_string) (fun u =>
  Ok (uuid_str u))).

(** [hashlib.md5(sub_text.encode()).hexdigest()[:16]] *)
Definition text_hash_of (sub_text : str) : result str :=
  rbind (Py.encode sub_text) (fun b => Ok (firstn 16 (hex (md5 b)))).

(** The two lines that derive the id of a sub-chunk: the hash of its raw
    text, then [_generate_deterministic_id]. *)
Definition chunk_identity (source : str) (chunk_index : Z)
  (content_text : str) : result str :=
  rbind (text_hash_of content_text) (fun text_hash =>
  _generate_deterministic_id source chunk_index text_hash).

(** The body of the loop of [_split_large_chunk] over [words]; the
    loop variables are [chunks] and [current_chunk]. *)
Definition split_step (max_words : Z) (st : list str * list str)
  (word : str) : list str * list str :=
  let '(chunks, current_chunk) := st in
  let current_chunk := current_chunk ++ [word] in
  if Z.of_nat (length current_chunk) >=? max_words
  then (chunks ++ [join [SP] current_chunk], [])
  else (chunks, current_chunk).

(** [_split_large_chunk] *)
Definition _split_large_chunk (text : str) (max_words : Z) : list str :=
  let words := split text in
  if Z.of_nat (length words) <=? max_words then [text]
  else
    let '(chunks, current_chunk) :=
      fold_left (split_step max_words) words ([], []) in
    match current_chunk with
    | [] => chunks
    | _ :: _ => chunks ++ [join [SP] current_chunk]
    end.

(** The loop variables of [create_semantic_chunks_from_docs]. *)
Record chunker := mkChunker
  { chunks_with_metadata : list chunk;
    current_heading : str;
    chunk_index : Z }.

(** The body of the loop over [text_chunks]. *)
Definition sub_text_step (cfg : config) (source_filepath : str)
  (heading : str) (page_ref : json) (st : list chunk * Z)
  (sub_text : str) : result (list chunk * Z) :=
  let '(chunks, index) := st in
  let contextual_text :=
    if ADD_CONTEXT_PREFIX cfg
    then lit "Source: " ++ source_filepath ++ [LF] ++ lit "Section: "
           ++ heading ++ [LF; LF] ++ sub_text
    else sub_text in
  rbind (chunk_identity source_filepath index sub_text) (fun id =>
  let chunk_data :=
    mkChunk id contextual_text
      (mkMetadata source_filepath page_ref heading index) in
  Ok (chunks ++ [chunk_data], index + 1)).

(** A text-bearing element: stripped, dropped when empty or too short,
    split when too long. *)
Definition text_element_step (cfg : config) (source_filepath : str)
  (st : chunker) (element_text : str) (page_ref : json) : result chunker :=
  let text := strip element_text in
  let word_count := word_count text in
  if match text with [] => true | _ :: _ => false end
     || (word_count <? MIN_CHUNK_WORDS cfg)
  then Ok st
  else
    let text_chunks := _split_large_chunk text (MAX_CHUNK_WORDS cfg) in
    rbind (fold_result
             (sub_text_step cfg source_filepath (current_heading st)
                page_ref)
             text_chunks (chunks_with_metadata st, chunk_index st))
      (fun '(chunks, index) =>
         Ok (mkChunker chunks (current_heading st) index)).

(** The body of the loop over [doc.iterate_items()]. *)
Definition element_step (cfg : config) (source_filepath : str)
  (st : chunker) (item : element * Z) : result chunker :=
  let '(element, _level) := item in
  match element with
  | SectionHeaderItem text =>
      Ok (mkChunker (chunks_with_metadata st) (strip text) (chunk_index st))
  | TextItem text page_ref =>
      text_element_step cfg source_filepath st text page_ref
  | ListItem text page_ref =>
      text_element_step cfg source_filepath st text page_ref
  | OtherItem => Ok st
  end.

(** [create_semantic_chunks_from_docs] *)
Definition create_semantic_chunks_from_docs (cfg : config)
  (doc : document) (source_filepath : str) : result (list chunk) :=
  rbind (fold_result (element_step cfg source_filepath)
           (iterate_items doc) (mkChunker [] (lit "Introduction") 0))
    (fun st => Ok (chunks_with_metadata st)).

(** [os.path.basename]: what follows the last slash. *)
Fixpoint basename_scan (p : str) (tail : str) : str :=
  match p with
  | [] => tail
  | c :: rest =>
      if (c =? 47)%N then basename_scan rest []
      else basename_scan rest (tail ++ [c])
  end.
Definition basename (p : str) : str := basename_scan p [].

Definition rule : str := times (lit "=") 60.

Definition source_filter (source_filepath : str) : qfilter :=
  Filter [FieldCondition (lit "source") source_filepath].

Section Pipeline.
Variable World : Type.
Variable vector : Type.
Variable svc : services World vector.
Variable cfg : config.

(** The field of [self] the methods read. *)
Variable debug_mode : bool.

Local Abbreviation M := (M World vector).

(** [_save_raw_doc_to_file] *)
Definition _save_raw_doc_to_file (doc : document) (output_filepath : str)
  : M unit :=
  if negb debug_mode then ret tt
  else
    print (lit "[DEBUG] Saving raw doc object to '" ++ output_filepath
             ++ lit "'") ;;;
    call (EvWriteFile output_filepath (doc_str doc))
      (write_file svc output_filepath (doc_str doc)).

(** [delete_document] *)
Definition delete_document (source_filepath : str) : M unit :=
  print (lit "--- Deleting document: " ++ source_filepath ++ lit " ---") ;;;
  scroll_result <-
    call (EvScroll COLLECTION_NAME (source_filter source_filepath) 1)
      (scroll svc COLLECTION_NAME (source_filter source_filepath) 1) ;;
  match fst scroll_result with
  | [] =>
      print (lit "No points found for source '" ++ source_filepath
               ++ lit "'")
  | _ :: _ =>
      call (EvDelete COLLECTION_NAME (source_filter source_filepath))
        (delete svc COLLECTION_NAME (source_filter source_filepath)) ;;;
      print (lit "--- Successfully deleted points for '"
               ++ source_filepath ++ lit "' ---")
  end.

(** [embeddings[i]] *)
Definition embedding_at (embeddings : list vector) (i : nat) : M vector :=
  match nth_error embeddings i with
  | Some v => ret v
  | None =>
      raise (mkExn "IndexError"
               (lit "index " ++ of_Z (Z.of_nat i)
                  ++ lit " is out of bounds for axis 0 with size "
                  ++ of_Z (Z.of_nat (length embeddings))))
  end.

(** The body of the loop that prepares the points; the loop variables
    are [points] and the index [i] of [enumerate]. *)
Definition point_step (embeddings : list vector)
  (st : list (PointStruct vector) * nat) (c : chunk)
  : M (list (PointStruct vector) * nat) :=
  let '(points, i) := st in
  let md := chunk_metadata c in
  let payload :=
    mkPayload (md_source md) (md_page md) (md_heading md)
      (md_chunk_index md) (chunk_text c) in
  v <- embedding_at embeddings i ;;
  ret (points ++ [mkPoint (chunk_id c) v payload], S i).

Definition str_of_count (n : option Z) : str :=
  match n with
  | Some z => of_Z z
  | None => lit "None"
  end.

(** [process_document] *)
Definition process_document (filepath : str) : M unit :=
  found <- call (EvPathExists filepath)
             (fun w => let (b, w') := path_exists svc filepath w in
                       (Ok b, w')) ;;
  if negb found
  then print (lit "Error: File not found at '" ++ filepath ++ lit "'")
  else
    let filename := basename filepath in
    print ([LF] ++ rule) ;;;
    print (lit "Processing document: " ++ filename) ;;;
    print rule ;;;
    try_except
      (print (lit "1. Converting document...") ;;;
       doc <- call (EvConvert filepath) (convert svc filepath) ;;
       _save_raw_doc_to_file doc (lit "doc_structure.txt") ;;;
       print (lit "2. Creating semantic chunks...") ;;;
       chunks <- lift (create_semantic_chunks_from_docs cfg doc filename) ;;
       match chunks with
       | [] =>
           print (lit "   " ++ [9888%N]
                    ++ lit " No text chunks could be extracted. Aborting.")
       | _ :: _ =>
           print (lit "   " ++ [10003%N] ++ lit " Created "
                    ++ of_Z (Z.of_nat (length chunks)) ++ lit " chunks") ;;;
           print (lit "3. Generating embeddings (batch_size="
                    ++ of_Z (BATCH_SIZE cfg) ++ lit ")...") ;;;
           let texts_to_embed := map chunk_text chunks in
           embeddings <-
             call (EvEncode texts_to_embed (BATCH_SIZE cfg))
               (embedding_encode svc texts_to_embed (BATCH_SIZE cfg)) ;;
           print (lit "4. Preparing Qdrant points...") ;;;
           st <- for_each chunks (point_step embeddings) ([], O) ;;
           let points := fst st in
           print (lit "5. Upserting to Qdrant...") ;;;
           call (EvUpsert COLLECTION_NAME points true)
             (upsert svc COLLECTION_NAME points true) ;;;
           print ([LF] ++ rule) ;;;
           print ([10003%N] ++ lit " Successfully processed '" ++ filename
                    ++ lit "'") ;;;
           collection_info <-
             call (EvGetCollection COLLECTION_NAME)
               (get_collection svc COLLECTION_NAME) ;;
           print (lit "Total points in collection: "
                    ++ str_of_count (points_count collection_info)) ;;;
           print (rule ++ [LF])
       end)
      (fun e =>
         print ([LF; 10060%N] ++ lit " Error processing '" ++ filename
                  ++ lit "': " ++ exn_text e) ;;;
         raise e).

End Pipeline.

End Ingestion.

(** ** [rag_service.py] *)

Module RagService.
Import PyStr Py Json Template Services.
Local Open Scope Z_scope.
Local Open Scope py_scope.

(** The diagnostic lines this module prints are left out of the trace.
    The one line that shows a value of the model, in [rewrite_query], is
    inside the [try] and may fail to be written: that is modelled, see
    [print_rewritten_query].

    The fields of [self] the methods read; the two templates are the
    contents of the prompt files. *)
Record RAGService := mkRAGService
  { collection_name : str;
    generative_model : str;
    query_rewrite_template : template;
    answer_synthesis_template : template }.

(** What [__init__] sets, for the two templates loaded. *)
Definition init (query_rewrite answer_synthesis : template) : RAGService :=
  mkRAGService (lit "my_rag_documents_v2") (lit "models/gemini-flash-latest")
    query_rewrite answer_synthesis.

(** The dictionaries the methods return. *)
Record retrieval := mkRetrieval
  { ret_context : str; ret_sources : list str }.

Record generation := mkGeneration
  { gen_answer : str; gen_cited_docs : list str }.

Record interaction := mkInteraction
  { original_query : str;
    rewritten_query : json;
    context : str;
    answer : str;
    cited_docs : list str;
    referenced_docs : list str }.

Definition REWRITE_MODEL : str := lit "models/gemini-flash-lite-latest".

Definition JSON_MIME : str := lit "application/json".

Definition REWRITE_SUFFIX : str :=
  [LF; LF]
    ++ lit "Output your final rewritten query in a JSON object like this: {"
    ++ [DQ] ++ lit "rewritten_query" ++ [DQ] ++ lit ": " ++ [DQ]
    ++ lit "your rewritten query here" ++ [DQ] ++ lit "}".

Definition NO_INFORMATION : str :=
  lit "I could not find any relevant information in the provided documents "
    ++ lit "to answer your question.".

Definition CITATIONS : str := [LF] ++ lit "Citations:".

(** [json.loads(response.text)] *)
Definition loads_text (loads : str -> result json) (text : option str)
  : result json :=
  match text with
  | Some t => loads t
  | None =>
      Raise (mkExn "TypeError"
               (lit "the JSON object must be str, bytes or bytearray, "
                  ++ lit "not NoneType"))
  end.

(** [retrieved_sources.add(source_file)]; the sources are kept in the
    order they were first seen, [list(retrieved_sources)] may give any
    order of the same elements. *)
Definition set_add (x : str) (l : list str) : list str :=
  if existsb (str_eqb x) l then l else l ++ [x].

(** [parts[i]] *)
Definition index (parts : list str) (i : nat) : result str :=
  match nth_error parts i with
  | Some x => Ok x
  | None => Raise (mkExn "IndexError" (lit "list index out of range"))
  end.

Definition nonempty (s : str) : bool :=
  match s with [] => false | _ :: _ => true end.

(** The parse of the synthesis response. *)
Definition parse_response (full_text : option str) : result generation :=
  match full_text with
  | None =>
      Raise (mkExn "TypeError"
               (lit "argument of type 'NoneType' is not iterable"))
  | Some full_text =>
      if contains CITATIONS full_text
      then
        let parts := split_sep CITATIONS full_text in
        rbind (index parts 0) (fun part0 =>
        let answer_text := strip part0 in
        rbind (index parts 1) (fun part1 =>
        let citations_text := strip part1 in
        let cited_docs :=
          map (fun line => strip (lstrip_chars (lit "- ") (strip line)))
            (List.filter (fun line => nonempty (strip line))
               (split_sep [LF] citations_text)) in
        Ok (mkGeneration answer_text cited_docs)))
      else Ok (mkGeneration (strip full_text) [])
  end.

(** The body of the loop over [search_results]; the loop variables are
    [context] and [retrieved_sources]. *)
Definition hit_step (st : str * list str) (h : hit) : result (str * list str) :=
  let '(context, retrieved_sources) := st in
  match hit_source h with
  | None => Raise (mkExn "KeyError" (lit "'source'"))
  | Some source_file =>
      let retrieved_sources := set_add source_file retrieved_sources in
      let context :=
        context ++ lit "[Source: " ++ source_file ++ lit "]" ++ [LF] in
      match hit_text h with
      | None => Raise (mkExn "KeyError" (lit "'text'"))
      | Some text =>
          Ok (context ++ text ++ [LF] ++ lit "---" ++ [LF], retrieved_sources)
      end
  end.

(** [print(f"   ...Rewritten query: '{rewritten_query}'")].  Standard
    output encodes as UTF-8, strictly: a string that holds a surrogate
    cannot be written, and the print raises the [UnicodeEncodeError] of
    the codec.  A value of another type is shown by its [repr], which
    escapes the surrogates of the strings inside it, so that its line is
    always written. *)
Definition print_rewritten_query (rewritten_query : json) : result unit :=
  match rewritten_query with
  | JStr s =>
      rbind (encode (lit "   ...Rewritten query: '" ++ s ++ lit "'"))
        (fun _ => Ok tt)
  | _ => Ok tt
  end.

Section Methods.
Variable World : Type.
Variable vector : Type.
Variable svc : services World vector.
Variable self : RAGService.

Local Abbreviation M := (M World vector).

(** [rewrite_query] *)
Definition rewrite_query (query : str) : M json :=
  formatted <- lift (format (query_rewrite_template self)
                       [(lit "query", query)]) ;;
  let prompt := formatted ++ REWRITE_SUFFIX in
  try_except
    (text <- call (EvGenerateContent REWRITE_MODEL prompt (Some JSON_MIME))
               (generate_content svc REWRITE_MODEL prompt (Some JSON_MIME)) ;;
     rewritten_query_json <- lift (loads_text (json_loads svc) text) ;;
     rewritten_query <-
       lift (get rewritten_query_json (lit "rewritten_query") (JStr query)) ;;
     lift (print_rewritten_query rewritten_query) ;;;
     ret rewritten_query)
    (fun _ => ret (JStr query)).

(** [retrieve_context] *)
Definition retrieve_context (query : json) (top_k : Z) : M retrieval :=
  query_vector <- call (EvEncodeQuery query)
                    (embedding_encode_query svc query) ;;
  call (EvGetCollection (collection_name self))
    (get_collection svc (collection_name self)) ;;;
  search_results <-
    call (EvSearch (collection_name self) query_vector top_k true)
      (search svc (collection_name self) query_vector top_k true) ;;
  st <- lift (fold_result hit_step search_results ([], [])) ;;
  ret (mkRetrieval (fst st) (snd st)).

(** [generate_answer] *)
Definition generate_answer (query : str) (context : str) : M generation :=
  prompt <- lift (format (answer_synthesis_template self)
                    [(lit "context", context); (lit "query", query)]) ;;
  if negb (nonempty context)
  then ret (mkGeneration NO_INFORMATION [])
  else
    try_except
      (full_text <- call (EvGenerateContent (generative_model self) prompt None)
                      (generate_content svc (generative_model self) prompt
                         None) ;;
       lift (parse_response full_text))
      (fun e =>
         ret (mkGeneration
                (lit "An error occurred while generating the answer: "
                   ++ exn_text e) [])).

(** [ask] *)
Definition ask (query : str) : M interaction :=
  rewritten_query <- rewrite_query query ;;
  retrieval_results <- retrieve_context rewritten_query 7 ;;
  generation_results <- generate_answer query (ret_context retrieval_results) ;;
  ret (mkInteraction query rewritten_query (ret_context retrieval_results)
         (gen_answer generation_results) (gen_cited_docs generation_results)
         (ret_sources retrieval_results)).

End Methods.

End RagService.

(** ** [llm_judge.py] *)

Module LlmJudge.
Import PyStr Py Json Services.
Local Open Scope py_scope.

(** The line the handler of [judge_answer] prints is left out of the
    trace. *)

Definition judge_model : str := lit "models/gemini-2.5-pro".

(** [_create_judge_prompt]: the lines of the prompt. *)
Definition _create_judge_prompt
  (original_query rewritten_query context answer : str) : str :=
  join [LF]
    [
     [];
     lit "        You are a meticulous AI evaluator for a "
       ++ lit "multi-step RAG (Retrieval-Augmented Generation) "
       ++ lit "pipeline. Your task is to assess two distinct stages "
       ++ lit "and output your findings in a single, valid JSON object "
       ++ lit "that strictly adheres to the provided schema.";
     lit "    ";
     lit "        **---------------- PART 1: EVALUATE THE QUERY "
       ++ lit "REWRITE ----------------**";
     lit "    ";
     lit "        **Instructions:**";
     lit "        Analyze the `[ORIGINAL QUERY]` and the "
       ++ lit "`[REWRITTEN QUERY]`. The goal of the rewrite is to "
       ++ lit "improve the query for a vector database search by "
       ++ lit "adding context, keywords, and synonyms without losing "
       ++ lit "the original intent.";
     lit "    ";
     lit "        **---------------- PART 2: EVALUATE THE FINAL "
       ++ lit "ANSWER ----------------**";
     lit "    ";
     lit "        **Instructions:**";
     lit "        Analyze the `[FINAL ANSWER]` based ONLY on the "
       ++ lit "`[RETRIEVED CONTEXT]`. The answer must be fully "
       ++ lit "grounded in the provided context and must directly "
       ++ lit "address the `[ORIGINAL QUERY]`.";
     lit "    ";
     lit "        **---------------- DATA TO EVALUATE "
       ++ lit "----------------**";
     lit "    ";
     lit "        [ORIGINAL QUERY]: " ++ original_query;
     lit "    ";
     lit "        [REWRITTEN QUERY]: " ++ rewritten_query;
     lit "    ";
     lit "        [RETRIEVED CONTEXT]:";
     lit "        " ++ context;
     lit "    ";
     lit "        [FINAL ANSWER]:";
     lit "        " ++ answer;
     lit "    ";
     lit "        **---------------- YOUR JSON EVALUATION "
       ++ lit "----------------**";
     lit "    ";
     lit "        **Instructions for JSON Output:**";
     lit "        Your entire response must be a single JSON "
       ++ lit "object. Do not include any text before or after it. Use "
       ++ lit "the exact keys as specified in the schema below.";
     lit "    ";
     lit "        **JSON Schema:**";
     lit "        ```json";
     lit "        {";
     lit "          " ++ [DQ] ++ lit "query_evaluation" ++ [DQ] ++ lit ": {";
     lit "            " ++ [DQ] ++ lit "reasoning" ++ [DQ] ++ lit ": " ++ [DQ]
       ++ lit "Provide a step-by-step analysis of the query rewrite "
       ++ lit "here. Explain why it was good or bad." ++ [DQ] ++ lit ",";
     lit "            " ++ [DQ] ++ lit "score" ++ [DQ] ++ lit ": " ++ [DQ]
       ++ lit "Integer between 1 and 5. 1=made it worse, 3=no real "
       ++ lit "change, 5=significant improvement." ++ [DQ] ++ lit ",";
     lit "            " ++ [DQ] ++ lit "identified_issue" ++ [DQ] ++ lit ": "
       ++ [DQ] ++ lit "Choose ONE: 'NONE', 'LOST_INTENT', 'TOO_BROAD', "
       ++ lit "'HALLUCINATED_DETAILS'" ++ [DQ];
     lit "          },";
     lit "          " ++ [DQ] ++ lit "answer_evaluation" ++ [DQ] ++ lit ": {";
     lit "            " ++ [DQ] ++ lit "reasoning" ++ [DQ] ++ lit ": " ++ [DQ]
       ++ lit "Provide a step-by-step analysis of the final answer's "
       ++ lit "quality based on the context. Explain its correctness, "
       ++ lit "relevance, and completeness." ++ [DQ] ++ lit ",";
     lit "            " ++ [DQ] ++ lit "relevance_score" ++ [DQ] ++ lit ": "
       ++ [DQ] ++ lit "Integer between 1 and 5." ++ [DQ] ++ lit ",";
     lit "            " ++ [DQ] ++ lit "correctness_score" ++ [DQ] ++ lit ": "
       ++ [DQ] ++ lit "Integer between 1 and 5." ++ [DQ] ++ lit ",";
     lit "            " ++ [DQ] ++ lit "completeness_score" ++ [DQ]
       ++ lit ": " ++ [DQ] ++ lit "Integer between 1 and 5." ++ [DQ]
       ++ lit ",";
     lit "            " ++ [DQ] ++ lit "identified_issue" ++ [DQ] ++ lit ": "
       ++ [DQ] ++ lit "Choose ONE: 'NONE', 'HALLUCINATION', 'INCOMPLETE', "
       ++ lit "'OUT_OF_CONTEXT'" ++ [DQ];
     lit "          }";
     lit "        }";
     lit "        ```";
     lit "        "
    ].

Definition FAILED_REASONING : str :=
  lit "Failed to generate evaluation due to an API error.".

(** The evaluation returned when judging fails with [e]. *)
Definition failure_evaluation (e : exn) : json :=
  JDict
    [(lit "error", JStr (exn_text e));
     (lit "query_evaluation",
      JDict [(lit "reasoning", JStr FAILED_REASONING);
             (lit "score", JInt 0);
             (lit "identified_issue", JStr (lit "JUDGE_FAILURE"))]);
     (lit "answer_evaluation",
      JDict [(lit "reasoning", JStr FAILED_REASONING);
             (lit "relevance_score", JInt 0);
             (lit "correctness_score", JInt 0);
             (lit "completeness_score", JInt 0);
             (lit "identified_issue", JStr (lit "JUDGE_FAILURE"))])].

Section Methods.
Variable World : Type.
Variable vector : Type.
Variable svc : services World vector.

Local Abbreviation M := (M World vector).

(** [judge_answer] *)
Definition judge_answer
  (original_query rewritten_query context answer : str) : M json :=
  let prompt :=
    _create_judge_prompt original_query rewritten_query context answer in
  try_except
    (text <- call (EvGenerateContent judge_model prompt
                     (Some RagService.JSON_MIME))
               (generate_content svc judge_model prompt
                  (Some RagService.JSON_MIME)) ;;
     lift (RagService.loads_text (json_loads svc) text))
    (fun e => ret (failure_evaluation e)).

End Methods.

End LlmJudge.

(** ** The application: [tasks.py], [api.py] and the set-up of the
    collection *)

Module App.
Import PyStr Py Json.

(** [os.path.join(a, b)] of [posixpath] *)
Definition path_join (a b : str) : str :=
  if startswith (lit "/") b then b
  else
    match rev a with
    | [] => a ++ b
    | c :: _ => if (c =? 47)%N then a ++ b else a ++ lit "/" ++ b
    end.

(** The truth value of an optional string: [None] and the empty string
    are false. *)
Definition truthy (x : option str) : bool :=
  match x with
  | Some (_ :: _) => true
  | _ => false
  end.

(** [d[key] = value] on the items of a [dict]. *)
Definition setitem (key : str) (value : json) (items : list (str * json))
  : list (str * json) :=
  if existsb (fun kv => str_eqb (fst kv) key) items
  then map (fun kv => if str_eqb (fst kv) key then (fst kv, value) else kv)
         items
  else items ++ [(key, value)].

(** [d[key]] on the items of a [dict]. *)
Definition getitem_dict (items : list (str * json)) (key : str)
  : result json :=
  match lookup key items with
  | Some v => Ok v
  | None => Raise (mkExn "KeyError" (lit "'" ++ key ++ lit "'"))
  end.

(** [models.Distance] *)
Inductive distance : Type := COSINE | EUCLID | DOT | MANHATTAN.

(** An [LLMJudge] object: the field [__init__] sets. *)
Record LLMJudge := mkLLMJudge { judge_model : str }.

Definition LOG_FILE : str := lit "evaluation_logs.jsonl".

Definition GOOGLE_API_KEY : str := lit "GOOGLE_API_KEY".

Section World.
Variable World : Type.
Variable vector : Type.

(** The calls of the application: those of the services, and the calls
    to the environment, the clock, the files, the task queue, the
    temporary directory, the upload and the set-up of the collection. *)
Inductive op : Type :=
| OpService (ev : Services.event vector)
| OpLoadDotenv
| OpGetenv (name : str)
| OpClient
| OpNow
| OpOpen (path : str) (mode : str)
| OpWrite (path : str) (content : str)
| OpWriteBytes (path : str) (content : list N)
| OpDelay (original_query : str) (rewritten_query : json) (context : str)
    (generation_results : list (str * json))
| OpTemporaryDirectory
| OpCleanup (name : str)
| OpRead
| OpEmbeddingDimension
| OpRecreateCollection (collection_name : str) (size : Z) (d : distance).

Local Abbreviation reply := (Services.reply World).

(** The collaborators beside the services.  [now_isoformat] is
    [datetime.datetime.now().isoformat()]; [delay] is the [delay] of the
    Celery task; [temporary_directory] answers with the name of the
    directory made; [read_upload] is [await file.read()]; [dumps] is
    [get_sentence_embedding_dimension] answers with the dimension of the
    model, which the model knows; [dumps] is [json.dumps], [repr] is
    [str(v)] for a value that is not a string, [lower] is [str.lower]. *)
Record system := mkSystem
  { load_dotenv : reply unit;
    getenv : str -> reply (option str);
    new_client : reply unit;
    now_isoformat : reply str;
    open_file : str -> str -> reply unit;
    write : str -> str -> reply unit;
    write_bytes : str -> list N -> reply unit;
    delay : str -> json -> str -> list (str * json) -> reply unit;
    temporary_directory : reply str;
    cleanup : str -> reply unit;
    read_upload : reply (list N);
    get_sentence_embedding_dimension : reply Z;
    recreate_collection : str -> Z -> distance -> reply unit;
    dumps : json -> str;
    repr : json -> str;
    lower : str -> str }.

(** The process: the world outside, the calls made so far, and the
    global [judge] of [tasks.py]. *)
Record process := mkProcess
  { outside : World; calls : list op; judge : option LLMJudge }.

Definition IO (A : Type) : Type := process -> result A * process.

Definition ret {A} (a : A) : IO A := fun p => (Ok a, p).

Definition raise {A} (e : exn) : IO A := fun p => (Raise e, p).

Definition bind {A B} (c : IO A) (k : A -> IO B) : IO B :=
  fun p =>
    match c p with
    | (Ok a, p') => k a p'
    | (Raise e, p') => (Raise e, p')
    end.

(** [try: c except Exception as e: h e] *)
Definition try_except {A} (c : IO A) (h : exn -> IO A) : IO A :=
  fun p =>
    match c p with
    | (Ok a, p') => (Ok a, p')
    | (Raise e, p') => h e p'
    end.

Definition lift {A} (r : result A) : IO A := fun p => (r, p).

(** A call: logged, then answered by the world. *)
Definition call {A} (o : op) (f : reply A) : IO A :=
  fun p =>
    let (r, w) := f (outside p) in
    (r, mkProcess w (calls p ++ [o]) (judge p)).

Definition print (line : str) : IO unit :=
  fun p =>
    (Ok tt,
     mkProcess (outside p) (calls p ++ [OpService (Services.EvPrint line)])
       (judge p)).

(** A program of the services, run inside the process: its calls are
    logged in their order. *)
Definition base {A} (c : Services.M World vector A) : IO A :=
  fun p =>
    let (r, m) := Services.run c (outside p) in
    (r, mkProcess (Services.world m)
          (calls p ++ map OpService (Services.trace m)) (judge p)).

(** [global judge]: reading and assigning it. *)
Definition read_judge : IO (option LLMJudge) := fun p => (Ok (judge p), p).

Definition assign_judge (j : LLMJudge) : IO unit :=
  fun p => (Ok tt, mkProcess (outside p) (calls p) (Some j)).

End World.

Arguments OpLoadDotenv {vector}.
Arguments OpGetenv {vector} name.
Arguments OpClient {vector}.
Arguments OpNow {vector}.
Arguments OpOpen {vector} path mode.
Arguments OpWrite {vector} path content.
Arguments OpWriteBytes {vector} path content.
Arguments OpDelay {vector} original_query rewritten_query context
  generation_results.
Arguments OpTemporaryDirectory {vector}.
Arguments OpCleanup {vector} name.
Arguments OpRead {vector}.
Arguments OpEmbeddingDimension {vector}.
Arguments OpRecreateCollection {vector} collection_name size d.
Arguments ret {World vector A} a.
Arguments raise {World vector A} e.
Arguments lift {World vector A} r.
Arguments print {World vector} line.
Arguments read_judge {World vector}.
Arguments assign_judge {World vector} j.

Declare Scope app_scope.
Delimit Scope app_scope with app.
Notation "x <- c ;; k" := (bind c (fun x => k))
  (at level 61, c at next level, right associativity) : app_scope.
Notation "c ;;; k" := (bind c (fun _ => k))
  (at level 61, right associativity) : app_scope.

Section Programs.
Local Open Scope app_scope.
Variable World : Type.
Variable vector : Type.
Variable sys : system World.
Variable svc : Services.services World vector.

Local Abbreviation IO := (IO World vector).

(** [with tempfile.TemporaryDirectory() as temp_dir: body]: the
    directory is cleaned up when the body returns and when it raises; an
    exception of the clean-up replaces the outcome of the body. *)
Definition with_temporary_directory {A} (body : str -> IO A) : IO A :=
  temp_dir <- call OpTemporaryDirectory (temporary_directory sys) ;;
  fun p =>
    let (r, p1) := body temp_dir p in
    match call (OpCleanup temp_dir) (cleanup sys temp_dir) p1 with
    | (Ok _, p2) => (r, p2)
    | (Raise e, p2) => (Raise e, p2)
    end.

(** The text an f-string puts for a value. *)
Definition format_value (v : json) : str :=
  match v with
  | JStr s => s
  | _ => repr sys v
  end.

(** *** [llm_judge.py]: the constructor *)

(** [LLMJudge.__init__] *)
Definition LLMJudge_init : IO LLMJudge :=
  call OpLoadDotenv (load_dotenv sys) ;;;
  key <- call (OpGetenv GOOGLE_API_KEY) (getenv sys GOOGLE_API_KEY) ;;
  if negb (truthy key)
  then raise (mkExn "ValueError"
                (lit "GOOGLE_API_KEY not found in .env file."))
  else
    call OpClient (new_client sys) ;;;
    print (lit "LLM Judge initialized.") ;;;
    ret (mkLLMJudge LlmJudge.judge_model).

(** *** [tasks.py] *)

(** [get_judge] *)
Definition get_judge : IO LLMJudge :=
  current <- read_judge ;;
  match current with
  | Some j => ret j
  | None =>
      j <- LLMJudge_init ;;
      assign_judge j ;;;
      ret j
  end.

(** [_log_evaluation]: the file is opened before the entry is
    serialised. *)
Definition _log_evaluation (log_data : list (str * json)) : IO unit :=
  stamp <- call OpNow (now_isoformat sys) ;;
  let log_data := setitem (lit "timestamp") (JStr stamp) log_data in
  call (OpOpen LOG_FILE (lit "a")) (open_file sys LOG_FILE (lit "a")) ;;;
  let line := dumps sys (JDict log_data) ++ [LF] in
  call (OpWrite LOG_FILE line) (write sys LOG_FILE line) ;;;
  print (lit "Successfully logged evaluation for query.").

(** [judge_and_log_task] *)
Definition judge_and_log_task (original_query : str) (rewritten_query : json)
  (context : str) (generation_results : list (str * json)) : IO unit :=
  llm_judge <- get_judge ;;
  answer <- lift (getitem_dict generation_results (lit "answer")) ;;
  evaluation <-
    base (LlmJudge.judge_answer svc original_query
            (format_value rewritten_query) context (format_value answer)) ;;
  let log_entry :=
    [(lit "original_query", JStr original_query);
     (lit "rewritten_query", rewritten_query);
     (lit "retrieved_context", JStr context);
     (lit "generated_answer", JDict generation_results);
     (lit "evaluation", evaluation)] in
  _log_evaluation log_entry.

(** *** [api.py] *)

Variable rag_service : RagService.RAGService.

Definition strings (l : list str) : json := JList (map JStr l).

(** [ask_question] *)
Definition ask_question (query : str) : IO json :=
  result <- base (RagService.ask svc rag_service query) ;;
  let generation_results :=
    [(lit "answer", JStr (RagService.answer result));
     (lit "cited_docs", strings (RagService.cited_docs result))] in
  call (OpDelay (RagService.original_query result)
          (RagService.rewritten_query result) (RagService.context result)
          generation_results)
    (delay sys (RagService.original_query result)
       (RagService.rewritten_query result) (RagService.context result)
       generation_results) ;;;
  ret (JDict
         [(lit "answer", JStr (RagService.answer result));
          (lit "cited_docs", strings (RagService.cited_docs result));
          (lit "referenced_docs",
           strings (RagService.referenced_docs result))]).

(** [ingest_document]; the pipeline of [api.py] is built with the
    defaults: the constants of [ingestion.py], no debug mode. *)
Definition ingest_document (filename : option str) : IO json :=
  if negb (truthy filename)
  then ret (JDict [(lit "error", JStr (lit "No file name provided"))])
  else
    let filename := match filename with Some name => name | None => [] end in
    try_except
      (with_temporary_directory
         (fun temp_dir =>
            let temp_filepath := path_join temp_dir filename in
            call (OpOpen temp_filepath (lit "wb"))
              (open_file sys temp_filepath (lit "wb")) ;;;
            content <- call OpRead (read_upload sys) ;;
            call (OpWriteBytes temp_filepath content)
              (write_bytes sys temp_filepath content) ;;;
            print (lit "API: Ingesting document: " ++ filename) ;;;
            base (Ingestion.process_document svc Ingestion.default_config
                    false temp_filepath)) ;;;
       print (lit "API: Successfully ingested " ++ filename) ;;;
       ret (JDict
              [(lit "message",
                JStr (lit "Successfully ingested and processed "
                        ++ filename))]))
      (fun e =>
         print (lit "API Error during ingestion: " ++ exn_text e) ;;;
         ret (JDict
                [(lit "error",
                  JStr (lit "Failed to ingest document. Error: "
                          ++ exn_text e))])).

(** [read_root] *)
Definition read_root : json :=
  JDict
    [(lit "message",
      JStr (lit "Welcome to the EvoRAG API. Please use the /docs endpoint "
              ++ lit "to see the API documentation."))].

(** *** [ingestion.py]: the set-up of the collection *)

(** [setup_qdrant_collection] *)
Definition setup_qdrant_collection : IO unit :=
  try_except
    (base (Services.call (Services.EvGetCollection Ingestion.COLLECTION_NAME)
             (Services.get_collection svc Ingestion.COLLECTION_NAME)) ;;;
     print (lit "Collection '" ++ Ingestion.COLLECTION_NAME
              ++ lit "' already exists."))
    (fun e =>
       if contains (lit "Not found") (exn_text e)
          || contains (lit "doesn't exist") (lower sys (exn_text e))
       then
         print (lit "Collection '" ++ Ingestion.COLLECTION_NAME
                  ++ lit "' not found. Creating it...") ;;;
         embedding_size <-
           call OpEmbeddingDimension (get_sentence_embedding_dimension sys) ;;
         call (OpRecreateCollection Ingestion.COLLECTION_NAME embedding_size
                 COSINE)
           (recreate_collection sys Ingestion.COLLECTION_NAME embedding_size
              COSINE) ;;;
         print (lit "Collection '" ++ Ingestion.COLLECTION_NAME
                  ++ lit "' created.")
       else raise e).

End Programs.

End App.

(** * A world to run the programs in *)

(** An in-memory collection and scripted models: the world is the list of
    the points stored, vectors carry no data. *)
Module Fixture.
Import PyStr Py Json Services.
Local Open Scope Z_scope.

Definition store := list (PointStruct unit).

Definition matches (f : qfilter) (p : PointStruct unit) : bool :=
  forallb (fun cond =>
             str_eqb (key cond) (lit "source")
             && str_eqb (match_value cond) (p_source (point_payload p)))
    (must f).

Fixpoint upsert_point (p : PointStruct unit) (w : store) : store :=
  match w with
  | [] => [p]
  | q :: rest =>
      if str_eqb (point_id q) (point_id p) then p :: rest
      else q :: upsert_point p rest
  end.

Record script := mkScript
  { file_found : bool;
    converted : result document;
    model_reply : str -> result (option str);
    loads : str -> result json;
    query_embedding : result unit }.

Definition services_of (sc : script) : services store unit :=
  {| path_exists := fun _ w => (file_found sc, w);
     convert := fun _ w => (converted sc, w);
     write_file := fun _ _ w => (Ok tt, w);
     embedding_encode := fun texts _ w => (Ok (map (fun _ => tt) texts), w);
     embedding_encode_query := fun _ w => (query_embedding sc, w);
     get_collection :=
       fun _ w => (Ok (mkInfo (Some (Z.of_nat (length w))) 768), w);
     search :=
       fun _ _ limit _ w =>
         (Ok (map (fun p => mkHit (Some (p_source (point_payload p)))
                              (Some (p_text (point_payload p))))
                (firstn (Z.to_nat limit) w)), w);
     scroll :=
       fun _ f limit w =>
         (Ok (map (@point_id unit)
                (firstn (Z.to_nat limit) (List.filter (matches f) w)),
              JNull), w);
     delete :=
       fun _ f w => (Ok tt, List.filter (fun p => negb (matches f p)) w);
     upsert :=
       fun _ points _ w =>
         (Ok tt, fold_left (fun acc p => upsert_point p acc) points w);
     generate_content := fun model _ _ w => (model_reply sc model, w);
     json_loads := loads sc |}.

(** A heading, a paragraph of six words, a fragment of two words, a list
    item of seven words. *)
Definition small_doc : document :=
  mkDocument
    [(SectionHeaderItem (lit " Results "), 1);
     (TextItem (lit "  the pump starts when pressure drops  ") JNull, 2);
     (TextItem (lit "see below") JNull, 2);
     (ListItem (lit "open the valve before the pump starts") (JInt 4), 3);
     (OtherItem, 2)]
    (lit "small").

(** One paragraph of 501 words. *)
Definition long_doc : document :=
  mkDocument [(TextItem (join [SP] (repeat (lit "w") 501)) JNull, 1)]
    (lit "long").

Definition question : str := lit "when does the pump start".

Definition unavailable : exn :=
  mkExn "ConnectionError" (lit "service unavailable").

Definition bad_json : exn :=
  mkExn "JSONDecodeError" (lit "Expecting value: line 1 column 1 (char 0)").

(** The reply of the rewriting model, and a parser that knows this one
    text. *)
Definition rewritten_reply : str :=
  lit "{" ++ [DQ] ++ lit "rewritten_query" ++ [DQ] ++ lit ": " ++ [DQ]
    ++ lit "pump start pressure threshold" ++ [DQ] ++ lit "}".

Definition loads_one (s : str) : result json :=
  if str_eqb s rewritten_reply
  then Ok (JDict [(lit "rewritten_query",
                   JStr (lit "pump start pressure threshold"))])
  else Raise bad_json.

Definition rewrite_template : Template.template :=
  [Template.Lit (lit "Rewrite for retrieval: "); Template.Field (lit "query")].

Definition synthesis_template : Template.template :=
  [Template.Lit (lit "Context:" ++ [LF]); Template.Field (lit "context");
   Template.Lit (lit "Question: "); Template.Field (lit "query")].

Definition service : RagService.RAGService :=
  RagService.init rewrite_template synthesis_template.

Definition cited_answer : str :=
  lit "The pump starts at 2 bar." ++ [LF] ++ lit "Citations:" ++ [LF]
    ++ lit "- doc_a.pdf" ++ [LF] ++ lit "- doc_b.pdf".

(** Both models answer. *)
Definition healthy : script :=
  mkScript true (Ok small_doc)
    (fun model =>
       if str_eqb model RagService.REWRITE_MODEL
       then Ok (Some rewritten_reply)
       else Ok (Some cited_answer))
    loads_one (Ok tt).

(** The rewriting model answers with the object that binds the key to
    [null]. *)
Definition null_reply : str :=
  lit "{" ++ [DQ] ++ lit "rewritten_query" ++ [DQ] ++ lit ": null}".

Definition loads_null (s : str) : result json :=
  if str_eqb s null_reply
  then Ok (JDict [(lit "rewritten_query", JNull)])
  else Raise bad_json.

Definition null_rewrite : script :=
  mkScript true (Ok small_doc)
    (fun model =>
       if str_eqb model RagService.REWRITE_MODEL
       then Ok (Some null_reply)
       else Ok (Some cited_answer))
    loads_null (Ok tt).

(** No model answers. *)
Definition models_down : script :=
  mkScript true (Ok small_doc) (fun _ => Raise unavailable) loads_one (Ok tt).

(** The embedding model fails on the query. *)
Definition embedding_down : script :=
  mkScript true (Ok small_doc) (model_reply healthy) loads_one
    (Raise unavailable).

(** The converter yields a document without qualifying text. *)
Definition empty_doc : document :=
  mkDocument [(SectionHeaderItem (lit "Title"), 1);
              (TextItem (lit "too short") JNull, 2)] (lit "empty").

Definition nothing_to_chunk : script :=
  mkScript true (Ok empty_doc) (model_reply healthy) loads_one (Ok tt).

Definition stored_point (id source text : String.string) : PointStruct unit :=
  mkPoint (lit id) tt (mkPayload (lit source) JNull (lit "Introduction") 0
                         (lit text)).

Definition seeded : store :=
  [stored_point "id-1" "pump.pdf" "the pump starts when pressure drops";
   stored_point "id-2" "valve.pdf" "open the valve before the pump starts"].

End Fixture.

(** ** A world for the application *)

Module AppFixture.
Import PyStr Py Json App.
Local Open Scope Z_scope.

(** The escape [json.dumps] writes for a character, with its default
    [ensure_ascii]: the quote, the backslash and the control characters
    by their short escapes, every other character outside the printable
    ASCII range by its UTF-16 code units. *)
Definition escape (c : char) : str :=
  let u x := [92; 117]%N ++ hex_fixed 4 x in
  (if c =? 34 then [92; 34]
   else if c =? 92 then [92; 92]
   else if c =? 8 then [92; 98]
   else if c =? 9 then [92; 116]
   else if c =? 10 then [92; 110]
   else if c =? 12 then [92; 102]
   else if c =? 13 then [92; 114]
   else if (32 <=? c) && (c <=? 126) then [c]
   else if c <? 65536 then u c
   else u (55296 + N.shiftr (c - 65536) 10)
          ++ u (56320 + N.land (c - 65536) 1023))%N.

Definition quoted (s : str) : str := [DQ] ++ flat_map escape s ++ [DQ].

(** [json.dumps] with its defaults.  A float is written as the literal it
    was read from, where [json.dumps] writes its shortest representation. *)
Fixpoint dumps (v : json) : str :=
  match v with
  | JNull => lit "null"
  | JBool true => lit "true"
  | JBool false => lit "false"
  | JInt z => of_Z z
  | JFloat literal => literal
  | JStr s => quoted s
  | JList l => lit "[" ++ join (lit ", ") (map dumps l) ++ lit "]"
  | JDict items =>
      lit "{"
        ++ join (lit ", ")
             (map (fun kv : str * json =>
                     let (k, x) := kv in quoted k ++ lit ": " ++ dumps x)
                items)
        ++ lit "}"
  end.

(** [repr(s)] for a string of ASCII characters: in single quotes, or in
    double quotes when it holds a single quote and no double quote; the
    backslash, the quote used, and the control characters are escaped.
    Characters beyond ASCII are kept, where [repr] escapes those that are
    not printable. *)
Definition repr_char (q c : char) : str :=
  (if c =? 92 then [92; 92]
   else if c =? q then [92; q]
   else if c =? 9 then [92; 116]
   else if c =? 10 then [92; 110]
   else if c =? 13 then [92; 114]
   else if (c <? 32) || (c =? 127) then [92; 120] ++ hex_fixed 2 c
   else [c])%N.

Definition repr_str (s : str) : str :=
  let q :=
    if existsb (N.eqb 39) s && negb (existsb (N.eqb 34) s)
    then 34%N else 39%N in
  [q] ++ flat_map (repr_char q) s ++ [q].

(** [str(v)] for a value that is not a string: the Python notation, with
    floats as their literals. *)
Fixpoint repr (v : json) : str :=
  match v with
  | JNull => lit "None"
  | JBool true => lit "True"
  | JBool false => lit "False"
  | JInt z => of_Z z
  | JFloat literal => literal
  | JStr s => repr_str s
  | JList l => lit "[" ++ join (lit ", ") (map repr l) ++ lit "]"
  | JDict items =>
      lit "{"
        ++ join (lit ", ")
             (map (fun kv : str * json =>
                     let (k, x) := kv in repr_str k ++ lit ": " ++ repr x)
                items)
        ++ lit "}"
  end.

(** [str.lower] on ASCII text. *)
Definition lower (s : str) : str :=
  map (fun c => if ((65 <=? c) && (c <=? 90))%N then (c + 32)%N else c) s.

Definition STAMP : str := lit "2025-01-01T00:00:00".

Definition TEMP_DIR : str := lit "/tmp/tmpk3x9".

(** Everything outside the services works; the API key is set. *)
Definition system_of : system Fixture.store :=
  {| load_dotenv := fun w => (Ok tt, w);
     getenv := fun _ w => (Ok (Some (lit "key")), w);
     new_client := fun w => (Ok tt, w);
     now_isoformat := fun w => (Ok STAMP, w);
     open_file := fun _ _ w => (Ok tt, w);
     write := fun _ _ w => (Ok tt, w);
     write_bytes := fun _ _ w => (Ok tt, w);
     delay := fun _ _ _ _ w => (Ok tt, w);
     temporary_directory := fun w => (Ok TEMP_DIR, w);
     cleanup := fun _ w => (Ok tt, w);
     read_upload := fun w => (Ok [37; 80; 68; 70]%N, w);
     get_sentence_embedding_dimension := fun w => (Ok 768, w);
     recreate_collection := fun _ _ _ w => (Ok tt, w);
     App.dumps := dumps;
     App.repr := repr;
     App.lower := lower |}.

(** The services of [Fixture.healthy], with an embedding model that
    returns no embedding. *)
Definition short_embedder : Services.services Fixture.store unit :=
  let s := Fixture.services_of Fixture.healthy in
  {| Services.path_exists := Services.path_exists s;
     Services.convert := Services.convert s;
     Services.write_file := Services.write_file s;
     Services.embedding_encode := fun _ _ w => (Ok [], w);
     Services.embedding_encode_query := Services.embedding_encode_query s;
     Services.get_collection := Services.get_collection s;
     Services.search := Services.search s;
     Services.scroll := Services.scroll s;
     Services.delete := Services.delete s;
     Services.upsert := Services.upsert s;
     Services.generate_content := Services.generate_content s;
     Services.json_loads := Services.json_loads s |}.

(** The converter fails. *)
Definition converter_down : Fixture.script :=
  Fixture.mkScript true (Raise Fixture.unavailable)
    (Fixture.model_reply Fixture.healthy) Fixture.loads_one (Ok tt).

End AppFixture.

(** * Facts about the string operations *)

Section StringFacts.
Import PyStr.

(** A word: non-empty and free of whitespace. *)
Definition is_word (w : str) : Prop :=
  w <> [] /\ Forall (fun c => isspace c = false) w.

Lemma split_scan_app (w : str) :
  Forall (fun c => isspace c = false) w ->
  forall s acc, split_scan (w ++ s) acc = split_scan s (acc ++ w).
Proof.
  induction 1 as [|c w Hc _ IH]; intros s acc; simpl.
  - now rewrite app_nil_r.
  - rewrite Hc, IH, <- app_assoc. reflexivity.
Qed.

Lemma split_scan_words (s : str) :
  forall acc, Forall (fun c => isspace c = false) acc ->
              Forall is_word (split_scan s acc).
Proof.
  induction s as [|c s IH]; intros acc Hacc; simpl.
  - destruct acc; constructor; [|constructor].
    split; [discriminate | assumption].
  - destruct (isspace c) eqn:Hc.
    + destruct acc as [|a acc'].
      * apply IH. constructor.
      * constructor; [split; [discriminate | assumption]|].
        apply IH. constructor.
    + apply IH. apply Forall_app. split; [assumption|].
      constructor; [assumption | constructor].
Qed.

Lemma split_words (s : str) : Forall is_word (split s).
Proof. apply split_scan_words. constructor. Qed.

Lemma split_word (w : str) : is_word w -> split w = [w].
Proof.
  intros [Hne Hns]. unfold split.
  rewrite <- (app_nil_r w) at 1. rewrite split_scan_app by assumption.
  simpl. destruct w; [contradiction | reflexivity].
Qed.

Lemma split_scan_space (c : char) (s : str) (a : char) (w : str) :
  isspace c = true ->
  split_scan (c :: s) (a :: w) = (a :: w) :: split_scan s [].
Proof. intros H. simpl. now rewrite H. Qed.

Lemma split_join (ws : list str) :
  Forall is_word ws -> split (join [SP] ws) = ws.
Proof.
  induction 1 as [|w ws Hw Hws IH]; [reflexivity|].
  destruct ws as [|w' ws'].
  - simpl. now apply split_word.
  - change (join [SP] (w :: w' :: ws'))
      with (w ++ SP :: join [SP] (w' :: ws')).
    unfold split in *. destruct Hw as [Hne Hns].
    rewrite split_scan_app by assumption.
    destruct w as [|a w]; [contradiction|].
    rewrite app_nil_l, split_scan_space by reflexivity.
    now rewrite IH.
Qed.

Lemma split_scan_nil (s : str) :
  forall acc, split_scan s acc = [] ->
              acc = [] /\ Forall (fun c => isspace c = true) s.
Proof.
  induction s as [|c s IH]; intros acc H; simpl in H.
  - destruct acc; [auto | discriminate].
  - destruct (isspace c) eqn:Hc.
    + destruct acc; [|discriminate].
      destruct (IH _ H) as [_ Hs]. auto.
    + destruct (IH _ H) as [Hacc _]. now destruct acc.
Qed.

Lemma dropwhile_head (p : char -> bool) (s : str) (c : char) (r : str) :
  dropwhile p s = c :: r -> p c = false.
Proof.
  induction s as [|a s IH]; simpl; [discriminate|].
  destruct (p a) eqn:Ha; [assumption|].
  intros H. injection H as <- _. assumption.
Qed.

(** A stripped text that is not empty has a word. *)
Lemma strip_nonempty_word_count (t : str) :
  strip t <> [] -> (1 <= word_count (strip t))%Z.
Proof.
  intros Hne. unfold word_count.
  destruct (split (strip t)) as [|w ws] eqn:Hsplit;
    [|simpl length; lia].
  exfalso. apply split_scan_nil in Hsplit as [_ Hall].
  unfold strip, rstrip in *.
  destruct (dropwhile isspace (rev (lstrip t))) as [|c r] eqn:Hd;
    [now apply Hne|].
  apply dropwhile_head in Hd.
  rewrite Forall_forall in Hall.
  rewrite (Hall c) in Hd; [discriminate|].
  simpl. apply in_or_app. right. now left.
Qed.

Lemma word_count_join (ws : list str) :
  Forall is_word ws -> word_count (join [SP] ws) = Z.of_nat (length ws).
Proof. intros H. unfold word_count. now rewrite split_join. Qed.

End StringFacts.

(** * The chunker *)

Section SplitLargeChunk.
Import PyStr Ingestion.
Local Open Scope Z_scope.

(** A piece packed with exactly [max_words] words. *)
Definition full_piece (max_words : Z) (p : str) : Prop :=
  exists ws, Forall is_word ws /\ Z.of_nat (length ws) = max_words
             /\ p = join [SP] ws.

Lemma full_piece_word_count (max_words : Z) (p : str) :
  full_piece max_words p -> word_count p = max_words.
Proof.
  intros (ws & Hws & Hlen & ->). now rewrite word_count_join.
Qed.

Lemma split_loop_invariant (max_words : Z) (words : list str) :
  Forall is_word words ->
  forall chunks current_chunk,
    Forall (full_piece max_words) chunks ->
    Forall is_word current_chunk ->
    Z.of_nat (length current_chunk) < max_words ->
    let st := fold_left (split_step max_words) words (chunks, current_chunk) in
    Forall (full_piece max_words) (fst st)
    /\ Forall is_word (snd st)
    /\ Z.of_nat (length (snd st)) < max_words.
Proof.
  induction 1 as [|w words Hw _ IH]; intros chunks cur Hch Hcur Hlen.
  - simpl. auto.
  - cbn [fold_left].
    replace (split_step max_words (chunks, cur) w)
      with (if Z.of_nat (length (cur ++ [w])) >=? max_words
            then (chunks ++ [join [SP] (cur ++ [w])], [])
            else (chunks, cur ++ [w])) by reflexivity.
    assert (Hcur' : Forall is_word (cur ++ [w])).
    { apply Forall_app. split; [assumption|]. now constructor. }
    assert (Hl : Z.of_nat (length (cur ++ [w])) = Z.of_nat (length cur) + 1).
    { rewrite length_app. simpl. lia. }
    destruct (Z.of_nat (length (cur ++ [w])) >=? max_words) eqn:Hge.
    + apply IH; [|constructor|simpl; lia].
      apply Forall_app. split; [assumption|]. constructor; [|constructor].
      exists (cur ++ [w]). repeat split; [assumption|lia].
    + apply IH; [assumption|assumption|lia].
Qed.

Lemma Forall_removelast {A} (P : A -> Prop) (l : list A) :
  Forall P l -> Forall P (removelast l).
Proof.
  induction 1 as [|x l Hx Hl IH]; [constructor|].
  simpl. destruct l; [constructor|]. now constructor.
Qed.

(** What [_split_large_chunk] returns: the text itself when it is within
    the bound, otherwise pieces of one to [max_words] words of which all
    but the last have exactly [max_words] words. *)
Lemma split_large_chunk_cases (text : str) (max_words : Z) :
  1 <= max_words ->
  (word_count text <= max_words /\ _split_large_chunk text max_words = [text])
  \/ (max_words < word_count text
      /\ Forall (fun p => 1 <= word_count p <= max_words)
           (_split_large_chunk text max_words)
      /\ Forall (fun p => word_count p = max_words)
           (removelast (_split_large_chunk text max_words))).
Proof.
  intros Hmax. unfold _split_large_chunk, word_count at 1 2.
  destruct (Z.of_nat (length (split text)) <=? max_words) eqn:Hle.
  - left. split; [lia | reflexivity].
  - right. split; [lia|].
    destruct (@split_loop_invariant max_words (split text)
                (split_words text) [] [])
      as (Hfull & Hcur & Hlen); [constructor | constructor | simpl; lia |].
    destruct (fold_left (split_step max_words) (split text) ([], []))
      as [chunks cur]. simpl in Hfull, Hcur, Hlen.
    assert (Hbound : Forall (fun p => 1 <= word_count p <= max_words) chunks).
    { eapply Forall_impl; [|exact Hfull].
      intros p Hp. rewrite (full_piece_word_count Hp). lia. }
    assert (Heq : Forall (fun p => word_count p = max_words) chunks).
    { eapply Forall_impl; [|exact Hfull].
      intros p Hp. now apply full_piece_word_count. }
    destruct cur as [|w cur].
    + split; [assumption | now apply Forall_removelast].
    + split.
      * apply Forall_app. split; [assumption|].
        constructor; [|constructor].
        rewrite word_count_join by assumption.
        change (length (w :: cur)) with (S (length cur)) in *. lia.
      * now rewrite removelast_last.
Qed.

End SplitLargeChunk.

Section Chunker.
Import PyStr Py Json Services Ingestion.
Local Open Scope Z_scope.

(** The text of a text-bearing element. *)
Definition element_text (e : element) : option str :=
  match e with
  | TextItem t _ | ListItem t _ => Some t
  | SectionHeaderItem _ | OtherItem => None
  end.

(** [p] is the last piece of an element of [doc] that was split because
    it has more than the maximum of words. *)
Definition remainder_of (cfg : config) (doc : document) (p : str) : Prop :=
  exists item t,
    In item (iterate_items doc)
    /\ element_text (fst item) = Some t
    /\ MAX_CHUNK_WORDS cfg < word_count (strip t)
    /\ p = last (_split_large_chunk (strip t) (MAX_CHUNK_WORDS cfg)) [].

Lemma rbind_Ok {A B} (r : result A) (k : A -> result B) (b : B) :
  rbind r k = Ok b -> exists a, r = Ok a /\ k a = Ok b.
Proof. destruct r as [a|e]; simpl; [eauto | discriminate]. Qed.

Lemma sub_text_fold (cfg : config) (source heading : str) (page : json)
  (pieces : list str) :
  forall chunks index chunks' index',
    fold_result (sub_text_step cfg source heading page) pieces (chunks, index)
    = Ok (chunks', index') ->
    exists new,
      chunks' = chunks ++ new
      /\ index' = index + Z.of_nat (length pieces)
      /\ (ADD_CONTEXT_PREFIX cfg = false -> map chunk_text new = pieces).
Proof.
  induction pieces as [|p pieces IH]; intros chunks index chunks' index' H.
  - injection H as <- <-. exists []. rewrite app_nil_r. simpl.
    repeat split; lia.
  - simpl in H. apply rbind_Ok in H as ([chunks1 index1] & Hstep & Hrest).
    unfold sub_text_step in Hstep.
    apply rbind_Ok in Hstep as (id & _ & Hstep). injection Hstep as <- <-.
    apply IH in Hrest as (new & -> & -> & Htexts).
    eexists (_ :: new). rewrite <- app_assoc. split; [reflexivity|].
    split; [simpl length; lia|].
    intros Hflag. simpl. rewrite Hflag, (Htexts Hflag). reflexivity.
Qed.

Lemma In_removelast_or_last {A} (x d : A) (l : list A) :
  In x l -> In x (removelast l) \/ x = last l d.
Proof.
  induction l as [|y l IH]; [contradiction|].
  intros [->|Hin].
  - destruct l; [now right | left; now left].
  - destruct l as [|z l]; [contradiction|].
    destruct (IH Hin) as [H|H]; [left; now right | now right].
Qed.

(** The bound on one chunk: between one word and the maximum, and at
    least the minimum unless it is the remainder of a split. *)
Definition within_bounds (cfg : config) (doc : document) (c : chunk) : Prop :=
  1 <= word_count (chunk_text c) <= MAX_CHUNK_WORDS cfg
  /\ (MIN_CHUNK_WORDS cfg <= word_count (chunk_text c)
      \/ remainder_of cfg doc (chunk_text c)).

Section Bounds.
Variable cfg : config.
Variable doc : document.
Variable source : str.
Hypothesis max_positive : 1 <= MAX_CHUNK_WORDS cfg.
Hypothesis min_le_max : MIN_CHUNK_WORDS cfg <= MAX_CHUNK_WORDS cfg.
Hypothesis no_prefix : ADD_CONTEXT_PREFIX cfg = false.

Lemma text_element_step_bounds (st st' : chunker) (item : element * Z)
  (t : str) (page : json) :
  In item (iterate_items doc) ->
  element_text (fst item) = Some t ->
  text_element_step cfg source st t page = Ok st' ->
  Forall (within_bounds cfg doc) (chunks_with_metadata st) ->
  Forall (within_bounds cfg doc) (chunks_with_metadata st').
Proof.
  intros Hin Ht Hstep Hst. unfold text_element_step in Hstep.
  destruct (strip t) as [|c0 s0] eqn:Hstrip; [now injection Hstep as <-|].
  rewrite <- Hstrip in Hstep. cbn [orb] in Hstep.
  destruct (word_count (strip t) <? MIN_CHUNK_WORDS cfg) eqn:Hmin;
    [now injection Hstep as <-|].
  apply rbind_Ok in Hstep as ([chunks' index'] & Hfold & Hret).
  injection Hret as <-. cbn [chunks_with_metadata].
  apply sub_text_fold in Hfold as (new & -> & _ & Htexts).
  specialize (Htexts no_prefix).
  apply Forall_app. split; [assumption|].
  apply Forall_forall. intros c Hc.
  assert (Hpiece : In (chunk_text c)
                     (_split_large_chunk (strip t) (MAX_CHUNK_WORDS cfg))).
  { rewrite <- Htexts. now apply in_map. }
  assert (Hpos : 1 <= word_count (strip t)).
  { apply strip_nonempty_word_count. rewrite Hstrip. discriminate. }
  destruct (split_large_chunk_cases (strip t) max_positive)
    as [[Hle Heq] | (Hgt & Hall & Hfull)].
  - rewrite Heq in Hpiece. destruct Hpiece as [Hp|[]].
    unfold within_bounds. rewrite <- Hp. split; [lia | left; lia].
  - unfold within_bounds. split.
    + now apply (proj1 (Forall_forall _ _) Hall).
    + destruct (In_removelast_or_last (chunk_text c) [] _ Hpiece) as [Hi|Hl].
      * left. rewrite (proj1 (Forall_forall _ _) Hfull _ Hi). lia.
      * right. exists item, t. auto.
Qed.

Lemma element_step_bounds (st st' : chunker) (item : element * Z) :
  In item (iterate_items doc) ->
  element_step cfg source st item = Ok st' ->
  Forall (within_bounds cfg doc) (chunks_with_metadata st) ->
  Forall (within_bounds cfg doc) (chunks_with_metadata st').
Proof.
  intros Hin Hstep Hst. destruct item as [e level].
  destruct e as [t|t page|t page|]; simpl in Hstep.
  - now injection Hstep as <-.
  - eapply text_element_step_bounds;
      [exact Hin | reflexivity | exact Hstep | exact Hst].
  - eapply text_element_step_bounds;
      [exact Hin | reflexivity | exact Hstep | exact Hst].
  - now injection Hstep as <-.
Qed.

Lemma chunker_loop_bounds (items : list (element * Z)) :
  incl items (iterate_items doc) ->
  forall st st',
    fold_result (element_step cfg source) items st = Ok st' ->
    Forall (within_bounds cfg doc) (chunks_with_metadata st) ->
    Forall (within_bounds cfg doc) (chunks_with_metadata st').
Proof.
  induction items as [|item items IH]; intros Hincl st st' Hfold Hst.
  - now injection Hfold as <-.
  - simpl in Hfold. apply rbind_Ok in Hfold as (st1 & Hstep & Hrest).
    apply (IH (fun x Hx => Hincl x (or_intror Hx)) st1 st' Hrest).
    apply (element_step_bounds st item (Hincl item (or_introl eq_refl)) Hstep).
    assumption.
Qed.

End Bounds.

End Chunker.

(** * The claims about the chunker *)

Section ChunkerClaims.
Import PyStr Py Json Services Ingestion.
Local Open Scope Z_scope.

(** C3 (amended).  With the context prefix off, a maximum of at least one
    word and a minimum not above it, every chunk emitted by
    [create_semantic_chunks_from_docs] has between one word and the
    maximum, and has at least the minimum unless it is the last piece of an
    element that was split for exceeding the maximum. *)
Theorem chunk_word_count_bounds (cfg : config) (doc : document)
  (source : str) (chunks : list chunk) :
  1 <= MAX_CHUNK_WORDS cfg ->
  MIN_CHUNK_WORDS cfg <= MAX_CHUNK_WORDS cfg ->
  ADD_CONTEXT_PREFIX cfg = false ->
  create_semantic_chunks_from_docs cfg doc source = Ok chunks ->
  Forall (within_bounds cfg doc) chunks.
Proof.
  intros Hmax Hmin Hflag Hrun. unfold create_semantic_chunks_from_docs in Hrun.
  apply rbind_Ok in Hrun as (st & Hfold & Hret). injection Hret as <-.
  apply (@chunker_loop_bounds cfg doc source Hmax Hmin Hflag _
           (incl_refl _) _ _ Hfold).
  constructor.
Qed.

(** The small document under the module's settings: two chunks, both
    within the bounds. *)
Lemma chunk_word_count_bounds_witness :
  exists chunks,
    create_semantic_chunks_from_docs default_config Fixture.small_doc
      (lit "pump.pdf") = Ok chunks
    /\ length chunks = 2%nat
    /\ Forall (within_bounds default_config Fixture.small_doc) chunks.
Proof.
  eexists. split; [vm_compute; reflexivity|]. split; [reflexivity|].
  apply (@chunk_word_count_bounds default_config Fixture.small_doc
           (lit "pump.pdf"));
    [vm_compute; discriminate | vm_compute; discriminate | reflexivity
    | vm_compute; reflexivity].
Defined.

(** C3, as stated, fails: with the module's settings the paragraph of 501
    words is emitted as a chunk of 500 words and a chunk of one word, which
    is below the minimum of five. *)
Lemma remainder_chunk_below_minimum :
  exists chunks,
    create_semantic_chunks_from_docs default_config Fixture.long_doc
      (lit "long.pdf") = Ok chunks
    /\ map (fun c => word_count (chunk_text c)) chunks = [500; 1]
    /\ Exists (fun c => word_count (chunk_text c)
                        < MIN_CHUNK_WORDS default_config) chunks.
Proof.
  destruct (create_semantic_chunks_from_docs default_config Fixture.long_doc
              (lit "long.pdf")) as [chunks|e] eqn:Hrun;
    vm_compute in Hrun; [|discriminate].
  exists chunks. split; [reflexivity|].
  injection Hrun as <-. split; [vm_compute; reflexivity|].
  apply Exists_cons_tl, Exists_cons_hd. vm_compute. reflexivity.
Qed.

(** ** Identifiers *)

(** Two results agree: both raise the same exception, or both return and
    the values are related. *)
Definition agree {A B} (R : A -> B -> Prop) (r1 : result A) (r2 : result B)
  : Prop :=
  match r1, r2 with
  | Ok a, Ok b => R a b
  | Raise e1, Raise e2 => e1 = e2
  | _, _ => False
  end.

Lemma fold_result_agree {X A B} (R : A -> B -> Prop)
  (f : A -> X -> result A) (g : B -> X -> result B) :
  (forall a b x, R a b -> agree R (f a x) (g b x)) ->
  forall l a b, R a b -> agree R (fold_result f l a) (fold_result g l b).
Proof.
  intros Hstep l. induction l as [|x l IH]; intros a b Hab; simpl.
  - exact Hab.
  - specialize (Hstep a b x Hab).
    destruct (f a x) as [a'|e1], (g b x) as [b'|e2]; simpl in *;
      try contradiction; auto.
Qed.

(** The settings [cfg] with the prefix switched to [b]. *)
Definition with_prefix (b : bool) (cfg : config) : config :=
  mkConfig (BATCH_SIZE cfg) (MAX_CHUNK_WORDS cfg) (MIN_CHUNK_WORDS cfg) b.

(** The identifiers of the chunks of a document, in order. *)
Definition chunk_ids (cfg : config) (doc : document) (source : str)
  : result (list str) :=
  rbind (create_semantic_chunks_from_docs cfg doc source)
    (fun chunks => Ok (map chunk_id chunks)).

(** Two runs of the chunker are in step: same ids and metadata so far,
    same heading, same index. *)
Definition same_identity (c1 c2 : chunk) : Prop :=
  chunk_id c1 = chunk_id c2 /\ chunk_metadata c1 = chunk_metadata c2.

Definition in_step (s1 s2 : chunker) : Prop :=
  Forall2 same_identity (chunks_with_metadata s1) (chunks_with_metadata s2)
  /\ current_heading s1 = current_heading s2
  /\ chunk_index s1 = chunk_index s2.

Definition pieces_in_step (p1 p2 : list chunk * Z) : Prop :=
  Forall2 same_identity (fst p1) (fst p2) /\ snd p1 = snd p2.

Lemma sub_text_step_in_step (cfg : config) (b1 b2 : bool)
  (source heading : str) (page : json) (p1 p2 : list chunk * Z)
  (sub_text : str) :
  pieces_in_step p1 p2 ->
  agree pieces_in_step
    (sub_text_step (with_prefix b1 cfg) source heading page p1 sub_text)
    (sub_text_step (with_prefix b2 cfg) source heading page p2 sub_text).
Proof.
  destruct p1 as [chunks1 index1], p2 as [chunks2 index2].
  intros [H Hidx]. simpl in H, Hidx. subst index2. unfold sub_text_step.
  destruct (chunk_identity source index1 sub_text) as [id|e]; simpl;
    [|reflexivity].
  split; [|reflexivity]. simpl.
  apply Forall2_app; [assumption|]. constructor; [|constructor].
  split; reflexivity.
Qed.

Lemma text_element_step_in_step (cfg : config) (b1 b2 : bool) (source : str)
  (s1 s2 : chunker) (t : str) (page : json) :
  in_step s1 s2 ->
  agree in_step (text_element_step (with_prefix b1 cfg) source s1 t page)
    (text_element_step (with_prefix b2 cfg) source s2 t page).
Proof.
  intros (Hch & Hhead & Hidx). unfold text_element_step.
  cbn [MIN_CHUNK_WORDS MAX_CHUNK_WORDS with_prefix].
  destruct (_ || _); [repeat split; assumption|].
  rewrite Hhead, Hidx.
  pose proof (fold_result_agree pieces_in_step
                (sub_text_step (with_prefix b1 cfg) source
                   (current_heading s2) page)
                (sub_text_step (with_prefix b2 cfg) source
                   (current_heading s2) page)
                (fun p1 p2 x =>
                   @sub_text_step_in_step cfg b1 b2 source _ page p1 p2 x)
                (_split_large_chunk (strip t) (MAX_CHUNK_WORDS cfg))
                (chunks_with_metadata s1, chunk_index s2)
                (chunks_with_metadata s2, chunk_index s2)
                (conj Hch eq_refl)) as Hfold.
  destruct (fold_result _ _ (chunks_with_metadata s1, _)) as [[c1 i1]|e1],
           (fold_result _ _ (chunks_with_metadata s2, _)) as [[c2 i2]|e2];
    simpl in *; try contradiction; [|assumption].
  destruct Hfold as [Hc Hi]. repeat split; assumption.
Qed.

Lemma element_step_in_step (cfg : config) (b1 b2 : bool) (source : str)
  (s1 s2 : chunker) (item : element * Z) :
  in_step s1 s2 ->
  agree in_step (element_step (with_prefix b1 cfg) source s1 item)
    (element_step (with_prefix b2 cfg) source s2 item).
Proof.
  intros H. destruct item as [[t|t page|t page|] level]; simpl.
  - destruct H as (Hch & Hhead & Hidx). repeat split; assumption.
  - now apply text_element_step_in_step.
  - now apply text_element_step_in_step.
  - exact H.
Qed.

Lemma same_identity_ids (l1 l2 : list chunk) :
  Forall2 same_identity l1 l2 -> map chunk_id l1 = map chunk_id l2.
Proof.
  induction 1 as [|c1 c2 l1 l2 [Hid _] _ IH]; simpl; congruence.
Qed.

(** C10.  The identifiers that [create_semantic_chunks_from_docs] assigns
    are the same with the context prefix on and off: the run raises the
    same exception in both settings or returns the same sequence of ids. *)
Theorem chunk_ids_independent_of_prefix (cfg : config) (doc : document)
  (source : str) :
  chunk_ids (with_prefix true cfg) doc source
  = chunk_ids (with_prefix false cfg) doc source.
Proof.
  unfold chunk_ids, create_semantic_chunks_from_docs.
  pose proof (fold_result_agree in_step
                (element_step (with_prefix true cfg) source)
                (element_step (with_prefix false cfg) source)
                (fun a b x => @element_step_in_step cfg true false source a b x)
                (iterate_items doc)
                (mkChunker [] (lit "Introduction") 0)
                (mkChunker [] (lit "Introduction") 0)) as H.
  assert (Hinit : in_step (mkChunker [] (lit "Introduction") 0)
                    (mkChunker [] (lit "Introduction") 0))
    by (repeat split; constructor).
  specialize (H Hinit).
  destruct (fold_result (element_step (with_prefix true cfg) source) _ _)
    as [s1|e1],
    (fold_result (element_step (with_prefix false cfg) source) _ _)
    as [s2|e2]; simpl in *; try contradiction.
  - destruct H as (Hch & _ & _). f_equal. now apply same_identity_ids.
  - now subst.
Qed.

(** C1.  The derivation of a chunk identifier is a function of the source
    name, the chunk index and the content text alone: equal inputs give the
    same identifier (or the same exception). *)
Theorem chunk_identity_deterministic (source1 source2 : str)
  (index1 index2 : Z) (text1 text2 : str) :
  source1 = source2 -> index1 = index2 -> text1 = text2 ->
  chunk_identity source1 index1 text1 = chunk_identity source2 index2 text2.
Proof.
  intros Hsource Hindex Htext.
  unfold chunk_identity, text_hash_of, _generate_deterministic_id.
  rewrite Hsource, Hindex, Htext. reflexivity.
Qed.

(** The same three inputs, written in two ways, and the identifier the
    interpreter gives for them. *)
Lemma chunk_identity_deterministic_witness :
  chunk_identity (lit "f.pdf") 0 (lit "one two three four")
  = chunk_identity (basename (lit "/tmp/f.pdf")) (1 - 1)
      (strip (lit "  one two three four "))
  /\ chunk_identity (lit "f.pdf") 0 (lit "one two three four")
     = Ok (lit "1f7f1373-c7fd-5c03-8074-33f6c268a486").
Proof.
  split.
  - apply chunk_identity_deterministic; reflexivity.
  - vm_compute. reflexivity.
Defined.

End ChunkerClaims.

(** * Running programs step by step *)

Section Steps.
Import Py Services.
Variable World : Type.
Variable vector : Type.

Local Abbreviation M := (M World vector).
Local Abbreviation machine := (machine World vector).

Lemma bind_ret {A B} (a : A) (k : A -> M B) (m : machine) :
  bind (ret a) k m = k a m.
Proof. reflexivity. Qed.

Lemma bind_step {A B} (c : M A) (k : A -> M B) (m : machine) :
  bind c k m
  = match c m with
    | (Ok a, m') => k a m'
    | (Raise e, m') => (Raise e, m')
    end.
Proof. reflexivity. Qed.

Lemma bind_print {B} (line : PyStr.str) (k : unit -> M B) (m : machine) :
  bind (print line) k m
  = k tt (mkMachine (world m) (trace m ++ [EvPrint line])).
Proof. reflexivity. Qed.

Lemma bind_lift {A B} (r : result A) (k : A -> M B) (m : machine) :
  bind (lift r) k m
  = match r with Ok a => k a m | Raise e => (Raise e, m) end.
Proof. unfold bind, lift. now destruct r. Qed.

Lemma bind_call {A B} (ev : event vector) (f : reply World A)
  (k : A -> M B) (m : machine) :
  bind (call ev f) k m
  = match fst (f (world m)) with
    | Ok a => k a (mkMachine (snd (f (world m))) (trace m ++ [ev]))
    | Raise e => (Raise e, mkMachine (snd (f (world m))) (trace m ++ [ev]))
    end.
Proof. unfold bind, call. now destruct (f (world m)) as [[a|e] w]. Qed.

Lemma bind_bind {A B C} (c : M A) (k : A -> M B) (h : B -> M C) (m : machine) :
  bind (bind c k) h m = bind c (fun a => bind (k a) h) m.
Proof. unfold bind. now destruct (c m) as [[a|e] m']. Qed.

Lemma call_run {A} (ev : event vector) (f : reply World A) (m : machine) :
  call ev f m
  = (fst (f (world m)), mkMachine (snd (f (world m))) (trace m ++ [ev])).
Proof. unfold call. now destruct (f (world m)). Qed.

End Steps.

(** * The claims about the ingestion pipeline *)

Section PipelineClaims.
Import PyStr Py Json Services Ingestion.
Local Open Scope Z_scope.

Variable World : Type.
Variable vector : Type.
Variable svc : services World vector.

(** The calls of a trace that change the collection. *)
Definition mutations (t : list (event vector)) : list (event vector) :=
  List.filter (@is_mutation vector) t.

(** C8.  [delete_document] first probes with a scroll filtered on the
    source, limit 1.  When the probe finds no point, it reports that and
    returns: the probe is its only call, no delete is issued and the world
    is as the probe left it.  When the probe finds a point, it issues one
    delete, whose filter is the condition on the source field alone. *)
Theorem delete_document_probe_then_delete (source : str) (w w1 : World)
  (points : list str) (next_offset : json) :
  scroll svc COLLECTION_NAME (source_filter source) 1 w
  = (Ok (points, next_offset), w1) ->
  let probe := EvScroll COLLECTION_NAME (source_filter source) 1 in
  let announce := EvPrint (lit "--- Deleting document: " ++ source
                             ++ lit " ---") in
  source_filter source = Filter [FieldCondition (lit "source") source]
  /\ (points = [] ->
      run (delete_document svc source) w
      = (Ok tt,
         mkMachine w1
           [announce; probe;
            EvPrint (lit "No points found for source '" ++ source
                       ++ lit "'")]))
  /\ (points <> [] ->
      let removal := EvDelete COLLECTION_NAME (source_filter source) in
      let t := trace (snd (run (delete_document svc source) w)) in
      world (snd (run (delete_document svc source) w))
      = snd (delete svc COLLECTION_NAME (source_filter source) w1)
      /\ fst (run (delete_document svc source) w)
         = fst (delete svc COLLECTION_NAME (source_filter source) w1)
      /\ mutations t = [removal]
      /\ firstn 3 t = [announce; probe; removal]).
Proof.
  intros Hprobe probe announce. split; [reflexivity|].
  unfold run, delete_document.
  rewrite bind_print, bind_call. cbn [world trace]. rewrite Hprobe.
  cbn [fst snd app]. split.
  - intros ->. reflexivity.
  - intros Hne. destruct points as [|p points]; [contradiction|].
    rewrite bind_call. cbn [world trace].
    destruct (delete svc COLLECTION_NAME (source_filter source) w1)
      as [[[]|e] w2]; repeat split; reflexivity.
Qed.

Variable cfg : config.
Variable debug_mode : bool.

(** The calls of a trace that compute embeddings or change the
    collection. *)
Definition embeds_or_mutates (ev : event vector) : bool :=
  is_encode ev || is_mutation ev.

Definition NO_CHUNKS : str :=
  lit "   " ++ [9888%N] ++ lit " No text chunks could be extracted. Aborting.".

Lemma save_raw_doc_quiet (doc : document) (path : str)
  (m : machine World vector) :
  List.filter embeds_or_mutates
    (trace (snd (_save_raw_doc_to_file svc debug_mode doc path m)))
  = List.filter embeds_or_mutates (trace m).
Proof.
  unfold _save_raw_doc_to_file. destruct debug_mode; cbn [negb]; [|reflexivity].
  rewrite bind_print, call_run. cbn [snd trace world].
  rewrite !filter_app. cbn. now rewrite !app_nil_r.
Qed.

(** C7.  When the file exists, the converter returns a document, the
    debug dump (if enabled) succeeds and the chunker returns no chunk,
    [process_document] returns without an exception after printing the
    warning, and its trace holds no embedding call and no upsert or
    delete. *)
Theorem process_document_no_chunks (filepath : str) (w w1 w2 : World)
  (doc : document) :
  path_exists svc filepath w = (true, w1) ->
  convert svc filepath w1 = (Ok doc, w2) ->
  (debug_mode = true ->
   fst (write_file svc (lit "doc_structure.txt") (doc_str doc) w2) = Ok tt) ->
  create_semantic_chunks_from_docs cfg doc (basename filepath) = Ok [] ->
  let outcome := run (process_document svc cfg debug_mode filepath) w in
  fst outcome = Ok tt
  /\ List.filter embeds_or_mutates (trace (snd outcome)) = []
  /\ last (trace (snd outcome)) (EvPrint []) = EvPrint NO_CHUNKS.
Proof.
  intros Hfound Hconvert Hsave Hchunks outcome. subst outcome.
  unfold run, process_document.
  rewrite bind_call. cbn [world trace]. rewrite Hfound. cbn [fst snd negb app].
  rewrite !bind_print. cbn [world trace app].
  unfold try_except.
  rewrite bind_print, bind_call. cbn [world trace app].
  rewrite Hconvert. cbn [fst snd].
  set (m2 := mkMachine w2 _).
  pose proof (save_raw_doc_quiet doc (lit "doc_structure.txt") m2) as Hquiet.
  rewrite bind_step.
  assert (Hok : fst (_save_raw_doc_to_file svc debug_mode doc
                       (lit "doc_structure.txt") m2) = Ok tt).
  { unfold _save_raw_doc_to_file. destruct debug_mode; cbn [negb];
      [|reflexivity].
    rewrite bind_print, call_run. cbn [fst world]. now apply Hsave. }
  destruct (_save_raw_doc_to_file svc debug_mode doc _ m2) as [r m3].
  cbn [fst snd] in Hok, Hquiet. subst r.
  rewrite bind_print, bind_lift, Hchunks.
  unfold print. cbn [fst snd trace world].
  split; [reflexivity|]. split.
  - rewrite !filter_app, Hquiet. reflexivity.
  - now rewrite last_last.
Qed.

End PipelineClaims.

(** Deleting a source without points leaves the seeded collection as it
    is. *)
Lemma delete_document_probe_then_delete_witness :
  Services.run
    (Ingestion.delete_document (Fixture.services_of Fixture.healthy)
       (PyStr.lit "absent.pdf")) Fixture.seeded
  = (Py.Ok tt,
     Services.mkMachine Fixture.seeded
       [Services.EvPrint (PyStr.lit "--- Deleting document: absent.pdf ---");
        Services.EvScroll Ingestion.COLLECTION_NAME
          (Services.Filter
             [Services.FieldCondition (PyStr.lit "source")
                (PyStr.lit "absent.pdf")]) 1;
        Services.EvPrint
          (PyStr.lit "No points found for source 'absent.pdf'")]).
Proof.
  refine (proj1 (proj2 (@delete_document_probe_then_delete _ _
                          (Fixture.services_of Fixture.healthy)
                          (PyStr.lit "absent.pdf") Fixture.seeded
                          Fixture.seeded [] Json.JNull _)) eq_refl).
  reflexivity.
Defined.

(** A document whose only paragraph has two words. *)
Lemma process_document_no_chunks_witness :
  fst (Services.run
         (Ingestion.process_document
            (Fixture.services_of Fixture.nothing_to_chunk)
            Ingestion.default_config false (PyStr.lit "/data/empty.pdf"))
         Fixture.seeded) = Py.Ok tt
  /\ List.filter (@embeds_or_mutates unit)
       (Services.trace
          (snd (Services.run
                  (Ingestion.process_document
                     (Fixture.services_of Fixture.nothing_to_chunk)
                     Ingestion.default_config false
                     (PyStr.lit "/data/empty.pdf"))
                  Fixture.seeded))) = []
  /\ last (Services.trace
             (snd (Services.run
                     (Ingestion.process_document
                        (Fixture.services_of Fixture.nothing_to_chunk)
                        Ingestion.default_config false
                        (PyStr.lit "/data/empty.pdf"))
                     Fixture.seeded))) (Services.EvPrint [])
     = Services.EvPrint NO_CHUNKS.
Proof.
  apply (@process_document_no_chunks _ _
           (Fixture.services_of Fixture.nothing_to_chunk)
           Ingestion.default_config false (PyStr.lit "/data/empty.pdf")
           Fixture.seeded Fixture.seeded Fixture.seeded Fixture.empty_doc).
  - reflexivity.
  - reflexivity.
  - discriminate.
  - vm_compute. reflexivity.
Defined.

(** * The claims about the judge *)

Section JudgeClaims.
Import PyStr Py Json Services LlmJudge.

(** The value found in nested dictionaries along [keys]. *)
Fixpoint path (v : json) (keys : list str) : option json :=
  match keys with
  | [] => Some v
  | k :: rest =>
      match getitem v k with
      | Some x => path x rest
      | None => None
      end
  end.

Variable World : Type.
Variable vector : Type.
Variable svc : services World vector.

(** Judging fails with [e] in world [w]: the call raises [e], or
    [json.loads] raises [e] on the text of the response. *)
Definition judging_fails (prompt : str) (w : World) (e : exn) : Prop :=
  match generate_content svc judge_model prompt (Some RagService.JSON_MIME) w
  with
  | (Raise e', _) => e' = e
  | (Ok text, _) => RagService.loads_text (json_loads svc) text = Raise e
  end.

(** C9.  When the judge-model call raises or its response does not parse
    as JSON, [judge_answer] returns the failure evaluation: the score of
    the query rewrite and the three answer scores are zero and both issue
    tags are JUDGE_FAILURE. *)
Theorem judge_failure_sentinel
  (original_query rewritten_query context answer : str)
  (m : machine World vector) (e : exn) :
  judging_fails
    (_create_judge_prompt original_query rewritten_query context answer)
    (world m) e ->
  let verdict := failure_evaluation e in
  fst (judge_answer svc original_query rewritten_query context answer m)
  = Ok verdict
  /\ path verdict [lit "query_evaluation"; lit "score"] = Some (JInt 0)
  /\ path verdict [lit "answer_evaluation"; lit "relevance_score"]
     = Some (JInt 0)
  /\ path verdict [lit "answer_evaluation"; lit "correctness_score"]
     = Some (JInt 0)
  /\ path verdict [lit "answer_evaluation"; lit "completeness_score"]
     = Some (JInt 0)
  /\ path verdict [lit "query_evaluation"; lit "identified_issue"]
     = Some (JStr (lit "JUDGE_FAILURE"))
  /\ path verdict [lit "answer_evaluation"; lit "identified_issue"]
     = Some (JStr (lit "JUDGE_FAILURE")).
Proof.
  intros Hfail verdict. split; [|repeat split; reflexivity].
  unfold judging_fails in Hfail.
  unfold judge_answer, try_except, bind, call, lift.
  destruct (generate_content svc judge_model _ _ (world m)) as [[text|e'] w].
  - cbn. rewrite Hfail. reflexivity.
  - cbn. now subst.
Qed.

End JudgeClaims.

(** The judge model is down. *)
Lemma judge_failure_sentinel_witness :
  fst (LlmJudge.judge_answer (Fixture.services_of Fixture.models_down)
         (PyStr.lit "when does the pump start")
         (PyStr.lit "pump start pressure threshold") (PyStr.lit "context")
         (PyStr.lit "answer") (Services.mkMachine Fixture.seeded []))
  = Py.Ok (LlmJudge.failure_evaluation Fixture.unavailable).
Proof.
  apply (@judge_failure_sentinel _ _ (Fixture.services_of Fixture.models_down)
           _ _ _ _ (Services.mkMachine Fixture.seeded []) Fixture.unavailable).
  reflexivity.
Defined.

(** * Splitting at the citations delimiter *)

Section Delimiter.
Import PyStr Py RagService.

Lemma startswith_app (p s : str) : startswith p (p ++ s) = true.
Proof.
  induction p as [|a p IH]; simpl; [reflexivity|].
  now rewrite N.eqb_refl.
Qed.

Lemma startswith_app_r (p x y : str) :
  startswith p x = true -> startswith p (x ++ y) = true.
Proof.
  revert x. induction p as [|a p IH]; intros x H; [reflexivity|].
  destruct x as [|b x]; [discriminate|]. simpl in *.
  apply andb_true_iff in H as [-> H]. now apply IH.
Qed.

Lemma contains_app_l (sub x y : str) :
  contains sub y = true -> contains sub (x ++ y) = true.
Proof.
  intros H. induction x as [|a x IH]; [assumption|].
  simpl. rewrite IH. apply orb_true_r.
Qed.

Lemma contains_app_r (sub x y : str) :
  contains sub x = true -> contains sub (x ++ y) = true.
Proof.
  induction x as [|a x IH]; intros H.
  - simpl in H. rewrite orb_false_r in H.
    destruct sub; [|discriminate]. now destruct y.
  - simpl in *. apply orb_true_iff in H as [H|H].
    + apply (startswith_app_r _ _ y) in H. simpl in H. now rewrite H.
    + rewrite (IH H). apply orb_true_r.
Qed.

Lemma dropwhile_suffix (p : char -> bool) (s : str) :
  exists pre, s = pre ++ dropwhile p s.
Proof.
  induction s as [|c s [pre IH]]; [now exists []|].
  simpl. destruct (p c).
  - exists (c :: pre). simpl. now f_equal.
  - now exists [].
Qed.

(** What [strip] keeps is a piece of the text. *)
Lemma contains_strip (sub s : str) :
  contains sub (strip s) = true -> contains sub s = true.
Proof.
  unfold strip, rstrip, lstrip. intros H.
  destruct (dropwhile_suffix isspace s) as [pre Hs].
  destruct (dropwhile_suffix isspace (rev (dropwhile isspace s)))
    as [post Hr].
  rewrite Hs. apply contains_app_l.
  rewrite <- (rev_involutive (dropwhile isspace s)), Hr, rev_app_distr.
  now apply contains_app_r.
Qed.

(** Passing over the rest of a separator. *)
Lemma split_sep_scan_skip (sep x rest part : str) :
  split_sep_scan sep (x ++ rest) (length x) part
  = split_sep_scan sep rest 0 part.
Proof.
  induction x as [|c x IH]; simpl; [|assumption].
  destruct rest; reflexivity.
Qed.

(** The delimiter begins with the only line feed it has, so an occurrence
    cannot begin inside a text and run into a delimiter that follows
    it. *)
Lemma delimiter_unbordered (a : char) (x rest : str) :
  startswith CITATIONS ((a :: x) ++ CITATIONS ++ rest) = true ->
  startswith CITATIONS (a :: x) = true.
Proof.
  intros H.
  do 10 (destruct x as [|? x];
         [ exfalso; cbn in H;
           repeat match type of H with
                  | (?c && _) = true =>
                      destruct c; cbn in H; [|discriminate]
                  | false = true => discriminate
                  end; discriminate
         | ]).
  cbn in H |- *.
  repeat match type of H with
         | (?c && _) = true =>
             destruct c eqn:?; cbn in H |- *; [|discriminate]
         end.
  reflexivity.
Qed.

Lemma split_at_first_delimiter (A rest : str) :
  contains CITATIONS A = false ->
  forall part,
    split_sep_scan CITATIONS (A ++ CITATIONS ++ rest) 0 part
    = (part ++ A) :: split_sep_scan CITATIONS rest 0 [].
Proof.
  induction A as [|a A IH]; intros Hfree part.
  - rewrite app_nil_r.
    change ([] ++ CITATIONS ++ rest)
      with (LF :: lit "Citations:" ++ rest).
    cbn [split_sep_scan].
    replace (startswith CITATIONS (LF :: lit "Citations:" ++ rest))
      with true by (symmetry; apply (startswith_app CITATIONS rest)).
    exact (f_equal (cons part)
             (split_sep_scan_skip CITATIONS (lit "Citations:") rest [])).
  - cbn [contains] in Hfree. apply orb_false_iff in Hfree as [Hhere Hlater].
    change ((a :: A) ++ CITATIONS ++ rest)
      with (a :: (A ++ CITATIONS ++ rest)).
    cbn [split_sep_scan].
    destruct (startswith CITATIONS (a :: A ++ CITATIONS ++ rest)) eqn:Hs.
    + apply (delimiter_unbordered a A rest) in Hs. congruence.
    + rewrite (IH Hlater). now rewrite <- app_assoc.
Qed.

End Delimiter.

(** * The claims about the query path *)

Section TemplateFacts.
Import PyStr Py Template.


Lemma kwarg_found (name : str) (kwargs : list (str * str)) :
  existsb (fun n => str_eqb n name) (map fst kwargs) = true ->
  exists v, kwarg name kwargs = Some v.
Proof.
  induction kwargs as [|[k v] kwargs IH]; simpl; [discriminate|].
  destruct (str_eqb k name); simpl; eauto.
Qed.

(** A template whose fields are all supplied formats without error. *)
Lemma format_total (t : template) (kwargs : list (str * str)) :
  fields_within (map fst kwargs) t = true ->
  exists s, format t kwargs = Ok s.
Proof.
  unfold fields_within.
  induction t as [|[s|name] t IH]; simpl; intros H.
  - eauto.
  - destruct (IH H) as [r ->]. simpl. eauto.
  - apply andb_true_iff in H as [Hname Hrest].
    destruct (kwarg_found name kwargs Hname) as [v ->].
    destruct (IH Hrest) as [r ->]. simpl. eauto.
Qed.

End TemplateFacts.

Section QueryClaims.
Import PyStr Py Json Template Services RagService.
Local Open Scope Z_scope.

Variable World : Type.
Variable vector : Type.
Variable svc : services World vector.
Variable self : RAGService.

Local Abbreviation machine := (machine World vector).

(** The templates of [self] use only the fields their call sites
    supply. *)
Definition templates_fit : Prop :=
  fields_within [lit "query"] (query_rewrite_template self) = true
  /\ fields_within [lit "context"; lit "query"]
       (answer_synthesis_template self) = true.

Lemma try_except_returns {A} (c : M World vector A)
  (h : exn -> M World vector A) (m : machine) :
  (forall e m', exists a, h e m' = (Ok a, m')) ->
  exists a m', try_except c h m = (Ok a, m').
Proof.
  intros Hh. unfold try_except. destruct (c m) as [[a|e] m'].
  - eauto.
  - destruct (Hh e m') as [a ->]. eauto.
Qed.

(** [rewrite_query] returns for every reply of the model. *)
Lemma rewrite_query_returns (query : str) (m : machine) :
  fields_within [lit "query"] (query_rewrite_template self) = true ->
  exists rq m', rewrite_query svc self query m = (Ok rq, m').
Proof.
  intros Hfit. unfold rewrite_query.
  destruct (format_total (query_rewrite_template self)
              [(lit "query", query)] Hfit) as [s Hs].
  rewrite bind_lift, Hs. apply try_except_returns.
  intros e m'. eexists. reflexivity.
Qed.

(** [generate_answer] returns for every reply of the model. *)
Lemma generate_answer_returns (query context : str) (m : machine) :
  fields_within [lit "context"; lit "query"]
    (answer_synthesis_template self) = true ->
  exists g m', generate_answer svc self query context m = (Ok g, m').
Proof.
  intros Hfit. unfold generate_answer.
  destruct (format_total (answer_synthesis_template self)
              [(lit "context", context); (lit "query", query)] Hfit)
    as [s Hs].
  rewrite bind_lift, Hs. destruct (negb (nonempty context)).
  - eexists _, _. reflexivity.
  - apply try_except_returns. intros e m'. eexists. reflexivity.
Qed.

(** C2 (amended).  With templates that fit, the rewrite step always
    returns, and [ask] returns the six-field result exactly when the
    retrieval step returns: failures of the rewrite call and of the
    synthesis call are absorbed, an exception of the retrieval step
    reaches the caller. *)
Theorem ask_returns_unless_retrieval_raises (query : str) (m : machine) :
  templates_fit ->
  exists rq m1,
    rewrite_query svc self query m = (Ok rq, m1)
    /\ match fst (retrieve_context svc self rq 7 m1) with
       | Ok r =>
           exists g,
             fst (ask svc self query m)
             = Ok (mkInteraction query rq (ret_context r) (gen_answer g)
                     (gen_cited_docs g) (ret_sources r))
       | Raise e => fst (ask svc self query m) = Raise e
       end.
Proof.
  intros [Hrw Hsyn].
  destruct (rewrite_query_returns query m Hrw) as (rq & m1 & Hrq).
  exists rq, m1. split; [assumption|].
  unfold ask. rewrite bind_step, Hrq, bind_step.
  destruct (retrieve_context svc self rq 7 m1) as [[r|e] m2]; cbn [fst].
  - destruct (generate_answer_returns query (ret_context r) m2 Hsyn)
      as (g & m3 & Hg).
    exists g. rewrite bind_step, Hg. reflexivity.
  - reflexivity.
Qed.

(** On an empty context [generate_answer] makes no call, whatever the
    template: the machine is left as it was. *)
Lemma generate_answer_empty_context_calls_nothing (query : str)
  (m : machine) :
  snd (generate_answer svc self query [] m) = m.
Proof.
  unfold generate_answer. rewrite bind_lift.
  now destruct (format _ _).
Qed.

(** C4.  On an empty context [generate_answer] returns the fixed answer
    with no citation and leaves the machine as it was: no call is made.
    Hence, when the retrieval of [ask] gives an empty context, [ask]
    returns that answer and ends in the machine the retrieval left. *)
Theorem empty_context_short_circuit (query : str) (m : machine) :
  fields_within [lit "context"; lit "query"]
    (answer_synthesis_template self) = true ->
  generate_answer svc self query [] m = (Ok (mkGeneration NO_INFORMATION []), m)
  /\ forall rq m1 r m2,
      rewrite_query svc self query m = (Ok rq, m1) ->
      retrieve_context svc self rq 7 m1 = (Ok r, m2) ->
      ret_context r = [] ->
      ask svc self query m
      = (Ok (mkInteraction query rq [] NO_INFORMATION [] (ret_sources r)), m2).
Proof.
  intros Hfit.
  assert (Hgen : forall m',
             generate_answer svc self query [] m'
             = (Ok (mkGeneration NO_INFORMATION []), m')).
  { intros m'. unfold generate_answer. rewrite bind_lift.
    match goal with
    | |- context [format ?t ?k] =>
        destruct (format_total t k Hfit) as [s Hs]; rewrite Hs
    end.
    reflexivity. }
  split; [apply Hgen|].
  intros rq m1 r m2 Hrq Hret Hempty.
  unfold ask. rewrite bind_step, Hrq, bind_step, Hret, bind_step, Hempty, Hgen.
  reflexivity.
Qed.

(** The replies on which the code falls back: the response carries no
    text, or the text does not parse, or it parses to something other than
    an object with the key [rewritten_query]. *)
Definition no_rewritten_query (text : option str) : Prop :=
  match loads_text (json_loads svc) text with
  | Raise _ => True
  | Ok (JDict items) => lookup (lit "rewritten_query") items = None
  | Ok _ => True
  end.

(** The fallback where the code has it.  When the rewrite call raises,
    or its response carries no text, does not parse, or parses to
    something other than an object with the key [rewritten_query],
    [rewrite_query] returns the original query, [ask] goes on to retrieve
    with the original query, and the result of [ask] has the original
    query in its [rewritten_query] field.  An object that binds the key
    to a value that is no query is not among these replies. *)
Theorem rewrite_fallback (query formatted : str) (m : machine)
  (reply : result (option str)) (w1 : World) :
  format (query_rewrite_template self) [(lit "query", query)] = Ok formatted ->
  let prompt := formatted ++ REWRITE_SUFFIX in
  generate_content svc REWRITE_MODEL prompt (Some JSON_MIME) (world m)
  = (reply, w1) ->
  match reply with
  | Raise _ => True
  | Ok text => no_rewritten_query text
  end ->
  let m1 :=
    mkMachine w1
      (trace m ++ [EvGenerateContent REWRITE_MODEL prompt (Some JSON_MIME)]) in
  rewrite_query svc self query m = (Ok (JStr query), m1)
  /\ ask svc self query m
     = bind (retrieve_context svc self (JStr query) 7)
         (fun r =>
            bind (generate_answer svc self query (ret_context r))
              (fun g =>
                 ret (mkInteraction query (JStr query) (ret_context r)
                        (gen_answer g) (gen_cited_docs g) (ret_sources r))))
         m1
  /\ forall i m', ask svc self query m = (Ok i, m') ->
                  rewritten_query i = JStr query.
Proof.
  intros Hformat prompt Hcall Hreply m1.
  assert (Hrq : rewrite_query svc self query m = (Ok (JStr query), m1)).
  { unfold rewrite_query. rewrite bind_lift, Hformat.
    unfold try_except. fold prompt. rewrite bind_call, Hcall. cbn [fst snd].
    destruct reply as [text|e]; [|reflexivity].
    rewrite bind_lift. unfold no_rewritten_query in Hreply.
    destruct (loads_text (json_loads svc) text) as [v|e]; [|reflexivity].
    destruct v; try reflexivity.
    cbn [get]. rewrite Hreply, !bind_lift.
    now destruct (print_rewritten_query (JStr query)). }
  split; [assumption|].
  assert (Hask : ask svc self query m
                 = bind (retrieve_context svc self (JStr query) 7)
                     (fun r =>
                        bind (generate_answer svc self query (ret_context r))
                          (fun g =>
                             ret (mkInteraction query (JStr query)
                                    (ret_context r) (gen_answer g)
                                    (gen_cited_docs g) (ret_sources r))))
                     m1).
  { unfold ask. now rewrite bind_step, Hrq. }
  split; [assumption|].
  intros i m' Hi. rewrite Hask in Hi. rewrite bind_step in Hi.
  destruct (retrieve_context svc self (JStr query) 7 m1) as [[r|e] m2];
    [|discriminate].
  rewrite bind_step in Hi.
  destruct (generate_answer svc self query (ret_context r) m2)
    as [[g|e] m3]; [|discriminate].
  injection Hi as <- _. reflexivity.
Qed.

(** The block of the two citations, after the delimiter. *)
Definition TWO_BULLETS : str :=
  [LF] ++ lit "- doc_a.pdf" ++ [LF] ++ lit "- doc_b.pdf".

Lemma parse_response_cited (A : str) :
  contains CITATIONS A = false ->
  parse_response (Some (A ++ CITATIONS ++ TWO_BULLETS))
  = Ok (mkGeneration (strip A) [lit "doc_a.pdf"; lit "doc_b.pdf"]).
Proof.
  intros Hfree. unfold parse_response.
  rewrite (contains_app_l CITATIONS A (CITATIONS ++ TWO_BULLETS))
    by reflexivity.
  unfold split_sep. rewrite (split_at_first_delimiter A TWO_BULLETS Hfree).
  reflexivity.
Qed.

Lemma parse_response_plain (text : str) :
  contains CITATIONS text = false ->
  parse_response (Some text) = Ok (mkGeneration (strip text) []).
Proof. intros Hfree. unfold parse_response. now rewrite Hfree. Qed.

(** What the handler of [generate_answer] makes of the parse. *)
Definition absorbed (r : result generation) : result generation :=
  match r with
  | Ok g => Ok g
  | Raise e =>
      Ok (mkGeneration
            (lit "An error occurred while generating the answer: "
               ++ exn_text e) [])
  end.

(** C6.  For a context that is not empty and a response [text] of the
    synthesis model: when [text] is an answer part [A] free of the
    delimiter, followed by the delimiter and the bullets of doc_a.pdf and
    doc_b.pdf, the answer is [A] stripped, which holds no delimiter, and
    the cited documents are the two names; when [text] holds no delimiter,
    the answer is the whole text stripped and no document is cited. *)
Theorem citations_split_from_answer (query context prompt text A : str)
  (m : machine) (w1 : World) :
  context <> [] ->
  format (answer_synthesis_template self)
    [(lit "context", context); (lit "query", query)] = Ok prompt ->
  generate_content svc (generative_model self) prompt None (world m)
  = (Ok (Some text), w1) ->
  contains CITATIONS A = false ->
  (text = A ++ CITATIONS ++ TWO_BULLETS ->
   fst (generate_answer svc self query context m)
   = Ok (mkGeneration (strip A) [lit "doc_a.pdf"; lit "doc_b.pdf"])
   /\ contains CITATIONS (strip A) = false)
  /\ (text = A ->
      fst (generate_answer svc self query context m)
      = Ok (mkGeneration (strip A) [])).
Proof.
  intros Hctx Hformat Hcall Hfree.
  assert (Hrun : fst (generate_answer svc self query context m)
                 = absorbed (parse_response (Some text))).
  { unfold generate_answer. rewrite bind_lift, Hformat.
    destruct context as [|c context']; [contradiction|]. cbn [nonempty negb].
    unfold try_except. rewrite bind_call, Hcall. cbn [fst snd]. unfold lift.
    now destruct (parse_response (Some text)). }
  rewrite Hrun. split; intros ->.
  - split; [exact (f_equal absorbed (@parse_response_cited A Hfree))|].
    destruct (contains CITATIONS (strip A)) eqn:Hs; [|reflexivity].
    apply contains_strip in Hs. congruence.
  - exact (f_equal absorbed (@parse_response_plain A Hfree)).
Qed.

End QueryClaims.

(** ** The query path on the fixture *)

Section QueryRuns.
Import PyStr Py Json Services RagService Fixture.

(** C2, as stated, fails: with both templates fitting and both models
    answering, an embedding model that fails on the query makes [ask]
    raise. *)
Lemma ask_raises_when_embedding_fails :
  templates_fit service
  /\ fst (run (ask (services_of embedding_down) service question) seeded)
     = Raise unavailable.
Proof. split; [split; reflexivity | vm_compute; reflexivity]. Qed.

(** With both models down and the collection seeded, the rewrite step
    returns and [ask] follows the retrieval step. *)
Lemma ask_returns_unless_retrieval_raises_witness :
  exists rq m1,
    rewrite_query (services_of models_down) service question
      (mkMachine seeded []) = (Ok rq, m1)
    /\ match fst (retrieve_context (services_of models_down) service rq 7 m1)
       with
       | Ok r =>
           exists g,
             fst (ask (services_of models_down) service question
                    (mkMachine seeded []))
             = Ok (mkInteraction question rq (ret_context r) (gen_answer g)
                     (gen_cited_docs g) (ret_sources r))
       | Raise e =>
           fst (ask (services_of models_down) service question
                  (mkMachine seeded [])) = Raise e
       end.
Proof.
  apply ask_returns_unless_retrieval_raises. split; reflexivity.
Defined.

(** On an empty collection the retrieval finds nothing and [ask] gives the
    fixed answer. *)
Lemma empty_context_short_circuit_witness :
  generate_answer (services_of healthy) service question []
    (mkMachine [] [])
  = (Ok (mkGeneration NO_INFORMATION []), mkMachine [] [])
  /\ fst (run (ask (services_of healthy) service question) [])
     = Ok (mkInteraction question
             (JStr (lit "pump start pressure threshold")) []
             NO_INFORMATION [] []).
Proof.
  destruct (@empty_context_short_circuit _ _ (services_of healthy) service
              question (mkMachine [] []) eq_refl) as [Hgen Hask].
  split; [exact Hgen|].
  refine (f_equal fst (Hask _ _ (mkRetrieval [] []) _ _ _ eq_refl));
    vm_compute; reflexivity.
Defined.

(** With the rewriting model down, the query is passed through after the
    one call that failed. *)
Lemma rewrite_fallback_witness :
  rewrite_query (services_of models_down) service question
    (mkMachine seeded [])
  = (Ok (JStr question),
     mkMachine seeded
       [EvGenerateContent REWRITE_MODEL
          (lit "Rewrite for retrieval: when does the pump start"
             ++ REWRITE_SUFFIX) (Some JSON_MIME)]).
Proof.
  apply (@rewrite_fallback _ _ (services_of models_down) service question
           (lit "Rewrite for retrieval: when does the pump start")
           (mkMachine seeded []) (Raise unavailable) seeded);
    [reflexivity | reflexivity | exact I].
Defined.

(** C5.  The code at the failing input.  The rewriting model answers
    with the object that binds [rewritten_query] to [null], from which no
    rewritten query can be parsed.  [rewrite_query] then returns [None]
    and not the query; [ask] goes on to embed [None] for the retrieval,
    and its result has [None], not the original query, in the
    [rewritten_query] field. *)
Theorem rewrite_passes_null_to_retrieval :
  json_loads (services_of null_rewrite) null_reply
  = Ok (JDict [(lit "rewritten_query", JNull)])
  /\ rewrite_query (services_of null_rewrite) service question
       (mkMachine seeded [])
     = (Ok JNull,
        mkMachine seeded
          [EvGenerateContent REWRITE_MODEL
             (lit "Rewrite for retrieval: when does the pump start"
                ++ REWRITE_SUFFIX) (Some JSON_MIME)])
  /\ nth_error
       (trace (snd (run (ask (services_of null_rewrite) service question)
                      seeded))) 1
     = Some (EvEncodeQuery JNull)
  /\ exists i,
       fst (run (ask (services_of null_rewrite) service question) seeded)
       = Ok i
       /\ original_query i = question
       /\ rewritten_query i = JNull
       /\ rewritten_query i <> JStr (original_query i).
Proof.
  split; [vm_compute; reflexivity|].
  split; [vm_compute; reflexivity|].
  split; [vm_compute; reflexivity|].
  eexists. split; [vm_compute; reflexivity|].
  split; [reflexivity|]. split; [reflexivity|discriminate].
Qed.

(** The scripted synthesis reply: an answer, the delimiter, two
    bullets. *)
Lemma citations_split_from_answer_witness :
  fst (generate_answer (services_of healthy) service question
         (lit "[Source: pump.pdf]") (mkMachine seeded []))
  = Ok (mkGeneration (lit "The pump starts at 2 bar.")
          [lit "doc_a.pdf"; lit "doc_b.pdf"]).
Proof.
  apply (@citations_split_from_answer _ _ (services_of healthy) service
           question (lit "[Source: pump.pdf]")
           (lit "Context:" ++ [LF] ++ lit "[Source: pump.pdf]"
              ++ lit "Question: when does the pump start")
           cited_answer (lit "The pump starts at 2 bar.")
           (mkMachine seeded []) seeded);
    [discriminate | reflexivity | reflexivity | reflexivity | reflexivity].
Defined.

End QueryRuns.

(** * Checks of the embedding on known values *)

Section KnownValues.
Import PyStr Py Hashes Json Services.

(** The digest of a text, in hexadecimal. *)
Definition md5_hex (s : str) : result str :=
  rbind (encode s) (fun b => Ok (hex (md5 b))).

Definition sha1_hex (s : str) : result str :=
  rbind (encode s) (fun b => Ok (hex (sha1 b))).

Example md5_of_empty :
  md5_hex [] = Ok (lit "d41d8cd98f00b204e9800998ecf8427e").
Proof. vm_compute. reflexivity. Qed.

Example md5_of_abc :
  md5_hex (lit "abc") = Ok (lit "900150983cd24fb0d6963f7d28e17f72").
Proof. vm_compute. reflexivity. Qed.

(** 55 and 56 bytes: the padding fits the block, or takes one more. *)
Example md5_at_the_padding_boundary :
  md5_hex (repeat 97%N 55) = Ok (lit "ef1772b6dff9a122358552954ad0df65")
  /\ md5_hex (repeat 97%N 56) = Ok (lit "3b0c8ac703f828b04c6c197006d17218")
  /\ md5_hex (repeat 97%N 64) = Ok (lit "014842d480b571495a4a0363793f7367").
Proof. repeat split; vm_compute; reflexivity. Qed.

(** Code points of two and three bytes. *)
Example md5_of_accented_text :
  md5_hex [110; 97; 239; 118; 101; 32; 99; 97; 102; 233; 32; 8212; 32;
           10003]%N
  = Ok (lit "ee04220f9b1efe7f95359cd5296defce").
Proof. vm_compute. reflexivity. Qed.

Example sha1_of_known_texts :
  sha1_hex [] = Ok (lit "da39a3ee5e6b4b0d3255bfef95601890afd80709")
  /\ sha1_hex (lit "abc") = Ok (lit "a9993e364706816aba3e25717850c26c9cd0d89d")
  /\ sha1_hex (repeat 97%N 64)
     = Ok (lit "0098ba824b5c16427bd7a1122a5a442a25ec644d").
Proof. repeat split; vm_compute; reflexivity. Qed.

(** The example of the [uuid] documentation, and a name of four bytes. *)
Example uuid5_of_known_names :
  rbind (uuid5 NAMESPACE_DNS (lit "python.org")) (fun u => Ok (uuid_str u))
  = Ok (lit "886313e1-3b8a-5372-9b90-0c9aee199e5d")
  /\ rbind (uuid5 NAMESPACE_DNS (119987%N :: lit ".pdf"))
       (fun u => Ok (uuid_str u))
     = Ok (lit "c972053b-45f9-535f-9192-ecb38ebd591f").
Proof. split; vm_compute; reflexivity. Qed.

Example encode_rejects_surrogates :
  encode (lit "ab" ++ [55296%N])
  = Raise (mkExn "UnicodeEncodeError"
             (lit "'utf-8' codec can't encode character '\ud800' in "
                ++ lit "position 2: surrogates not allowed")).
Proof. vm_compute. reflexivity. Qed.

(** U+200B is no whitespace, U+3000 and U+001F are. *)
Example split_and_strip_on_unicode_space :
  split [32; 9; 32; 97; 32; 98; 32; 99; 8203; 100; 32; 10]%N
  = [lit "a"; lit "b"; [99; 8203; 100]%N]
  /\ strip [12288; 32; 120; 32; 121; 32; 31]%N = lit "x y".
Proof. split; vm_compute; reflexivity. Qed.

Example split_sep_does_not_overlap :
  split_sep (lit "ab") (lit "xabababyab")
  = [lit "x"; []; []; lit "y"; []]
  /\ split_sep (lit "aa") (lit "aaa") = [[]; lit "a"].
Proof. split; vm_compute; reflexivity. Qed.

Example basename_of_paths :
  Ingestion.basename (lit "/a/b/") = []
  /\ Ingestion.basename (lit "c.pdf") = lit "c.pdf"
  /\ Ingestion.basename (lit "/a//b.txt") = lit "b.txt".
Proof. repeat split; vm_compute; reflexivity. Qed.

(** The judge prompt for the four one-letter arguments has 2348
    characters and the digest the interpreter gives. *)
Example judge_prompt_digest :
  length (LlmJudge._create_judge_prompt (lit "O") (lit "R") (lit "C")
            (lit "A")) = 2348%nat
  /\ md5_hex (LlmJudge._create_judge_prompt (lit "O") (lit "R") (lit "C")
               (lit "A"))
     = Ok (lit "1a20f32385c67384510a9680697346ea").
Proof. split; vm_compute; reflexivity. Qed.

(** The chunks of the small document: ids, headings and indices. *)
Example chunks_of_small_doc :
  rbind (Ingestion.create_semantic_chunks_from_docs Ingestion.default_config
           Fixture.small_doc (lit "pump.pdf"))
    (fun cs =>
       Ok (map (fun c =>
                  (Ingestion.chunk_id c, Ingestion.chunk_text c,
                   Ingestion.md_heading (Ingestion.chunk_metadata c),
                   Ingestion.md_chunk_index (Ingestion.chunk_metadata c)))
             cs))
  = Ok [(lit "bee414d7-1ea3-5627-8198-d1cbc8336ca5",
         lit "the pump starts when pressure drops", lit "Results", 0%Z);
        (lit "12197ee6-4fbf-5b84-83fc-ecd259607f20",
         lit "open the valve before the pump starts", lit "Results", 1%Z)].
Proof. vm_compute. reflexivity. Qed.

End KnownValues.

(** * Runs on the fixture *)

Section FixtureRuns.
Import PyStr Py Json Services Fixture.

Definition ingest (w : store) : result unit * machine store unit :=
  run (Ingestion.process_document (services_of healthy)
         Ingestion.default_config false (lit "/data/pump.pdf")) w.

(** Ingesting the small document stores its two chunks under their ids;
    ingesting it again leaves the collection as it is. *)
Example ingest_twice :
  fst (ingest []) = Ok tt
  /\ map (@point_id unit) (world (snd (ingest [])))
     = [lit "bee414d7-1ea3-5627-8198-d1cbc8336ca5";
        lit "12197ee6-4fbf-5b84-83fc-ecd259607f20"]
  /\ world (snd (ingest (world (snd (ingest []))))) = world (snd (ingest [])).
Proof. repeat split; vm_compute; reflexivity. Qed.

(** Deleting a source that has points removes them and only them. *)
Example delete_stored_source :
  run (Ingestion.delete_document (services_of healthy) (lit "pump.pdf"))
    seeded
  = (Ok tt,
     mkMachine
       [stored_point "id-2" "valve.pdf"
          "open the valve before the pump starts"]
       [EvPrint (lit "--- Deleting document: pump.pdf ---");
        EvScroll Ingestion.COLLECTION_NAME
          (Ingestion.source_filter (lit "pump.pdf")) 1;
        EvDelete Ingestion.COLLECTION_NAME
          (Ingestion.source_filter (lit "pump.pdf"));
        EvPrint (lit "--- Successfully deleted points for 'pump.pdf' ---")]).
Proof. vm_compute. reflexivity. Qed.

(** With both models down [ask] still answers: the query is passed
    through and the answer is the inline error message.  The referenced
    documents are the two sources, in no particular order. *)
Example ask_with_models_down :
  exists i,
    fst (run (RagService.ask (services_of models_down) service question)
           seeded) = Ok i
    /\ RagService.original_query i = question
    /\ RagService.rewritten_query i = JStr question
    /\ RagService.context i
       = lit "[Source: pump.pdf]" ++ [LF]
           ++ lit "the pump starts when pressure drops" ++ [LF]
           ++ lit "---" ++ [LF] ++ lit "[Source: valve.pdf]" ++ [LF]
           ++ lit "open the valve before the pump starts" ++ [LF]
           ++ lit "---" ++ [LF]
    /\ RagService.answer i
       = lit "An error occurred while generating the answer: "
           ++ lit "service unavailable"
    /\ RagService.cited_docs i = []
    /\ length (RagService.referenced_docs i) = 2%nat
    /\ In (lit "pump.pdf") (RagService.referenced_docs i)
    /\ In (lit "valve.pdf") (RagService.referenced_docs i).
Proof.
  eexists. split; [vm_compute; reflexivity|].
  repeat split; vm_compute; auto.
Qed.

(** An object that binds the key to [null] is no failure for
    [rewrite_query]: the value is returned as it is. *)
Example rewrite_passes_null_on :
  fst (RagService.rewrite_query
         (services_of
            (mkScript true (Ok small_doc) (fun _ => Ok (Some (lit "null?")))
               (fun _ => Ok (JDict [(lit "rewritten_query", JNull)]))
               (Ok tt)))
         service question (mkMachine seeded []))
  = Ok JNull.
Proof. vm_compute. reflexivity. Qed.

(** The split is at the first delimiter and the citations are read from
    what lies between the first and the second. *)
Example citations_after_an_earlier_delimiter :
  RagService.parse_response
    (Some (lit "Intro" ++ RagService.CITATIONS ++ lit " see below" ++ [LF]
             ++ lit "Body" ++ RagService.CITATIONS ++ TWO_BULLETS))
  = Ok (RagService.mkGeneration (lit "Intro") [lit "see below"; lit "Body"]).
Proof. vm_compute. reflexivity. Qed.

(** A response that parses is returned by the judge as it is. *)
Example judge_returns_the_parsed_evaluation :
  fst (LlmJudge.judge_answer
         (services_of
            (mkScript true (Ok small_doc)
               (fun _ => Ok (Some rewritten_reply)) loads_one (Ok tt)))
         question question (lit "context") (lit "answer")
         (mkMachine seeded []))
  = Ok (JDict [(lit "rewritten_query",
                JStr (lit "pump start pressure threshold"))]).
Proof. vm_compute. reflexivity. Qed.

End FixtureRuns.

(** * Further properties of the code *)

(** * More about [_split_large_chunk] *)

Section SplitWords.
Import PyStr Ingestion.
Local Open Scope Z_scope.

(** The words of a list of pieces, in order. *)
Definition words_of (pieces : list str) : list str := flat_map split pieces.

Lemma words_of_app (a b : list str) :
  words_of (a ++ b) = words_of a ++ words_of b.
Proof. apply flat_map_app. Qed.

Lemma words_of_one (p : str) : words_of [p] = split p.
Proof. unfold words_of. simpl. apply app_nil_r. Qed.

Lemma split_loop_words (max_words : Z) (words : list str) :
  Forall is_word words ->
  forall chunks current_chunk,
    Forall is_word current_chunk ->
    let st := fold_left (split_step max_words) words (chunks, current_chunk) in
    Forall is_word (snd st)
    /\ words_of (fst st) ++ snd st
       = words_of chunks ++ current_chunk ++ words.
Proof.
  induction 1 as [|w words Hw _ IH]; intros chunks cur Hcur.
  - simpl. split; [assumption|]. now rewrite app_nil_r.
  - cbn [fold_left].
    replace (split_step max_words (chunks, cur) w)
      with (if Z.of_nat (length (cur ++ [w])) >=? max_words
            then (chunks ++ [join [SP] (cur ++ [w])], [])
            else (chunks, cur ++ [w])) by reflexivity.
    assert (Hcur' : Forall is_word (cur ++ [w])).
    { apply Forall_app. split; [assumption|]. now constructor. }
    destruct (Z.of_nat (length (cur ++ [w])) >=? max_words).
    + destruct (IH (chunks ++ [join [SP] (cur ++ [w])]) [] (Forall_nil _))
        as [Hsnd Heq].
      split; [exact Hsnd|].
      rewrite Heq, words_of_app, words_of_one, (split_join Hcur').
      rewrite <- !app_assoc. reflexivity.
    + destruct (IH chunks (cur ++ [w]) Hcur') as [Hsnd Heq].
      split; [exact Hsnd|]. rewrite Heq, <- !app_assoc. reflexivity.
Qed.

Lemma split_loop_pieces (max_words : Z) (words : list str) :
  Forall is_word words ->
  forall chunks current_chunk,
    Forall (fun piece => split piece <> []) chunks ->
    Forall is_word current_chunk ->
    let st := fold_left (split_step max_words) words (chunks, current_chunk) in
    Forall (fun piece => split piece <> []) (fst st)
    /\ Forall is_word (snd st).
Proof.
  induction 1 as [|w words Hw _ IH]; intros chunks cur Hch Hcur.
  - simpl. auto.
  - cbn [fold_left].
    replace (split_step max_words (chunks, cur) w)
      with (if Z.of_nat (length (cur ++ [w])) >=? max_words
            then (chunks ++ [join [SP] (cur ++ [w])], [])
            else (chunks, cur ++ [w])) by reflexivity.
    assert (Hcur' : Forall is_word (cur ++ [w])).
    { apply Forall_app. split; [assumption|]. now constructor. }
    destruct (Z.of_nat (length (cur ++ [w])) >=? max_words).
    + apply IH; [|constructor].
      apply Forall_app. split; [assumption|]. constructor; [|constructor].
      rewrite (split_join Hcur'). now destruct cur.
    + now apply IH.
Qed.

Lemma words_of_pieces (text : str) (max_words : Z) :
  words_of (_split_large_chunk text max_words) = split text.
Proof.
  unfold _split_large_chunk.
  destruct (Z.of_nat (length (split text)) <=? max_words).
  - apply words_of_one.
  - destruct (@split_loop_words max_words (split text) (split_words text)
                [] [] (Forall_nil _)) as [Hcur Heq].
    destruct (fold_left (split_step max_words) (split text) ([], []))
      as [chunks cur]. simpl in Hcur, Heq.
    destruct cur as [|w cur].
    + now rewrite app_nil_r in Heq.
    + rewrite words_of_app, words_of_one, (split_join Hcur).
      exact Heq.
Qed.

(** X1.  [_split_large_chunk] loses no word, repeats none and keeps their
    order, for every text and every bound: the words of the pieces, one
    piece after the other, are the words of the text, and no piece is
    without a word unless the text itself is. *)
Theorem split_large_chunk_keeps_words (text : str) (max_words : Z) :
  flat_map split (_split_large_chunk text max_words) = split text
  /\ (split text <> [] ->
      Forall (fun piece => split piece <> [])
        (_split_large_chunk text max_words)).
Proof.
  split; [apply words_of_pieces|].
  intros Hne. unfold _split_large_chunk.
  destruct (Z.of_nat (length (split text)) <=? max_words);
    [now repeat constructor|].
  destruct (@split_loop_pieces max_words (split text) (split_words text)
              [] [] (Forall_nil _) (Forall_nil _)) as [Hch Hcur].
  destruct (fold_left (split_step max_words) (split text) ([], []))
    as [chunks cur]. simpl in Hch, Hcur.
  destruct cur as [|w cur]; [assumption|].
  apply Forall_app. split; [assumption|]. constructor; [|constructor].
  rewrite (split_join Hcur). discriminate.
Qed.

Lemma split_loop_count (max_words : Z) (words : list str) :
  1 <= max_words ->
  forall chunks current_chunk,
    Z.of_nat (length current_chunk) < max_words ->
    let st := fold_left (split_step max_words) words (chunks, current_chunk) in
    Z.of_nat (length (snd st)) < max_words
    /\ Z.of_nat (length (fst st)) * max_words + Z.of_nat (length (snd st))
       = Z.of_nat (length chunks) * max_words
         + Z.of_nat (length current_chunk) + Z.of_nat (length words).
Proof.
  intros Hmax. induction words as [|w words IH]; intros chunks cur Hlen.
  - simpl. lia.
  - cbn [fold_left].
    replace (split_step max_words (chunks, cur) w)
      with (if Z.of_nat (length (cur ++ [w])) >=? max_words
            then (chunks ++ [join [SP] (cur ++ [w])], [])
            else (chunks, cur ++ [w])) by reflexivity.
    assert (Hl : Z.of_nat (length (cur ++ [w])) = Z.of_nat (length cur) + 1).
    { rewrite length_app. simpl. lia. }
    destruct (Z.of_nat (length (cur ++ [w])) >=? max_words) eqn:Hge.
    + destruct (IH (chunks ++ [join [SP] (cur ++ [w])]) [])
        as [H1 H2]; [simpl; lia|].
      split; [exact H1|]. rewrite H2, length_app. simpl length. nia.
    + destruct (IH chunks (cur ++ [w])) as [H1 H2]; [lia|].
      split; [exact H1|]. rewrite H2. simpl length. lia.
Qed.

(** X2.  A text of more than [max_words] words is cut into the least
    number of pieces that the bound allows: the word count divided by the
    bound, rounded up. *)
Theorem split_large_chunk_piece_count (text : str) (max_words : Z) :
  1 <= max_words ->
  max_words < word_count text ->
  Z.of_nat (length (_split_large_chunk text max_words))
  = (word_count text + max_words - 1) / max_words.
Proof.
  intros Hmax Hlong. unfold _split_large_chunk, word_count in *.
  destruct (Z.of_nat (length (split text)) <=? max_words) eqn:Hle; [lia|].
  destruct (@split_loop_count max_words (split text) Hmax [] [])
    as [Hlt Hsum]; [simpl; lia|].
  destruct (fold_left (split_step max_words) (split text) ([], []))
    as [chunks cur]. cbn [fst snd] in Hlt, Hsum. simpl length in Hsum.
  set (n := Z.of_nat (length (split text))) in *.
  set (q := Z.of_nat (length chunks)) in *.
  destruct cur as [|w cur].
  - simpl length in Hsum.
    apply Z.div_unique_pos with (r := max_words - 1); lia.
  - rewrite length_app. simpl length in *.
    set (r := Z.of_nat (S (length cur))) in *.
    assert (0 < r) by (unfold r; lia).
    replace (Z.of_nat (length chunks + 1)) with (q + 1) by (unfold q; lia).
    apply Z.div_unique_pos with (r := r - 1); lia.
Qed.

End SplitWords.

Lemma split_large_chunk_piece_count_witness :
  Z.of_nat (length (Ingestion._split_large_chunk
                      (PyStr.lit "open the valve before the pump starts") 3))
  = 3%Z.
Proof.
  apply (@split_large_chunk_piece_count
           (PyStr.lit "open the valve before the pump starts") 3);
    [lia | vm_compute; reflexivity].
Defined.

(** * The layout of the chunks of a document *)

Section Layout.
Import PyStr Py Json Services Ingestion.
Local Open Scope Z_scope.

(** An element text that yields chunks: not empty once stripped, and of
    at least the minimum of words. *)
Definition qualifies (cfg : config) (t : str) : bool :=
  RagService.nonempty (strip t)
  && negb (word_count (strip t) <? MIN_CHUNK_WORDS cfg).

(** The sub-chunks a document is cut into, each with the heading and the
    page reference it goes under: headings switch the heading, a text
    element that qualifies gives its pieces, everything else gives
    nothing. *)
Fixpoint plan (cfg : config) (heading : str) (items : list (element * Z))
  : list (str * json * str) :=
  let pieces t page :=
    if qualifies cfg t
    then map (fun piece => (heading, page, piece))
           (_split_large_chunk (strip t) (MAX_CHUNK_WORDS cfg))
    else [] in
  match items with
  | [] => []
  | (SectionHeaderItem t, _) :: rest => plan cfg (strip t) rest
  | (TextItem t page, _) :: rest => pieces t page ++ plan cfg heading rest
  | (ListItem t page, _) :: rest => pieces t page ++ plan cfg heading rest
  | (OtherItem, _) :: rest => plan cfg heading rest
  end.

(** The heading in force after [items]. *)
Fixpoint heading_after (heading : str) (items : list (element * Z)) : str :=
  match items with
  | [] => heading
  | (SectionHeaderItem t, _) :: rest => heading_after (strip t) rest
  | _ :: rest => heading_after heading rest
  end.

(** The text stored for a sub-chunk. *)
Definition stored_text (cfg : config) (source heading sub_text : str) : str :=
  if ADD_CONTEXT_PREFIX cfg
  then lit "Source: " ++ source ++ [LF] ++ lit "Section: " ++ heading
         ++ [LF; LF] ++ sub_text
  else sub_text.

(** Chunk [c] is the sub-chunk [entry] emitted at index [i]. *)
Definition lays_out (cfg : config) (source : str) (i : Z)
  (entry : str * json * str) (c : chunk) : Prop :=
  let '(heading, page, piece) := entry in
  chunk_identity source i piece = Ok (chunk_id c)
  /\ chunk_text c = stored_text cfg source heading piece
  /\ chunk_metadata c = mkMetadata source page heading i.

(** The chunks [cs] are the sub-chunks [entries], at the indices from [i]
    on. *)
Inductive laid_out (cfg : config) (source : str)
  : Z -> list (str * json * str) -> list chunk -> Prop :=
| laid_out_nil (i : Z) : laid_out cfg source i [] []
| laid_out_cons (i : Z) (entry : str * json * str) (entries : list _)
    (c : chunk) (cs : list chunk) :
    lays_out cfg source i entry c ->
    laid_out cfg source (i + 1) entries cs ->
    laid_out cfg source i (entry :: entries) (c :: cs).

Lemma laid_out_length (cfg : config) (source : str) (i : Z)
  (entries : list (str * json * str)) (cs : list chunk) :
  laid_out cfg source i entries cs -> length cs = length entries.
Proof. induction 1; simpl; congruence. Qed.

Lemma laid_out_app (cfg : config) (source : str) (i : Z)
  (e1 e2 : list (str * json * str)) (c1 c2 : list chunk) :
  laid_out cfg source i e1 c1 ->
  laid_out cfg source (i + Z.of_nat (length e1)) e2 c2 ->
  laid_out cfg source i (e1 ++ e2) (c1 ++ c2).
Proof.
  induction 1 as [i|i entry entries c cs Hc _ IH]; intros H2.
  - simpl in *. now rewrite Z.add_0_r in H2.
  - simpl. constructor; [assumption|]. apply IH.
    replace (i + 1 + Z.of_nat (length entries))
      with (i + Z.of_nat (length (entry :: entries))); [assumption|].
    simpl length. lia.
Qed.

Lemma sub_text_fold_laid_out (cfg : config) (source heading : str)
  (page : json) (pieces : list str) :
  forall chunks index chunks' index',
    fold_result (sub_text_step cfg source heading page) pieces (chunks, index)
    = Ok (chunks', index') ->
    exists new,
      chunks' = chunks ++ new
      /\ index' = index + Z.of_nat (length pieces)
      /\ laid_out cfg source index
           (map (fun piece => (heading, page, piece)) pieces) new.
Proof.
  induction pieces as [|p pieces IH]; intros chunks index chunks' index' H.
  - injection H as <- <-. exists []. rewrite app_nil_r. simpl.
    repeat split; [lia | constructor].
  - simpl in H. apply rbind_Ok in H as ([chunks1 index1] & Hstep & Hrest).
    unfold sub_text_step in Hstep.
    apply rbind_Ok in Hstep as (id & Hid & Hstep). injection Hstep as <- <-.
    apply IH in Hrest as (new & -> & -> & Hnew).
    eexists (_ :: new). rewrite <- app_assoc. split; [reflexivity|].
    split; [simpl length; lia|].
    simpl. constructor; [|assumption].
    repeat split. exact Hid.
Qed.

Lemma text_element_step_laid_out (cfg : config) (source : str)
  (st st' : chunker) (t : str) (page : json) :
  text_element_step cfg source st t page = Ok st' ->
  let entries :=
    if qualifies cfg t
    then map (fun piece => (current_heading st, page, piece))
           (_split_large_chunk (strip t) (MAX_CHUNK_WORDS cfg))
    else [] in
  exists new,
    chunks_with_metadata st' = chunks_with_metadata st ++ new
    /\ chunk_index st' = chunk_index st + Z.of_nat (length new)
    /\ current_heading st' = current_heading st
    /\ laid_out cfg source (chunk_index st) entries new.
Proof.
  intros Hstep entries. subst entries.
  unfold text_element_step in Hstep. unfold qualifies.
  destruct (strip t) as [|c0 s0] eqn:Hstrip.
  - injection Hstep as <-. exists []. rewrite app_nil_r. simpl.
    repeat split; [lia | constructor].
  - rewrite <- Hstrip in *. cbn [orb] in Hstep.
    replace (RagService.nonempty (strip t)) with true
      by (now rewrite Hstrip).
    destruct (word_count (strip t) <? MIN_CHUNK_WORDS cfg).
    + injection Hstep as <-. exists []. rewrite app_nil_r. simpl.
      repeat split; [lia | constructor].
    + apply rbind_Ok in Hstep as ([chunks' index'] & Hfold & Hret).
      injection Hret as <-. cbn [chunks_with_metadata chunk_index
        current_heading andb negb].
      apply sub_text_fold_laid_out in Hfold as (new & -> & -> & Hnew).
      exists new. repeat split; [|assumption].
      rewrite (laid_out_length Hnew), length_map. reflexivity.
Qed.

(** The loop of the chunker, from any state: the chunks it adds are the
    planned sub-chunks, at consecutive indices. *)
Lemma chunker_loop_laid_out (cfg : config) (source : str)
  (items : list (element * Z)) :
  forall st st',
    fold_result (element_step cfg source) items st = Ok st' ->
    exists new,
      chunks_with_metadata st' = chunks_with_metadata st ++ new
      /\ chunk_index st' = chunk_index st + Z.of_nat (length new)
      /\ current_heading st' = heading_after (current_heading st) items
      /\ laid_out cfg source (chunk_index st)
           (plan cfg (current_heading st) items) new.
Proof.
  induction items as [|[e level] items IH]; intros st st' Hfold.
  - injection Hfold as <-. exists []. rewrite app_nil_r. simpl.
    repeat split; [lia | constructor].
  - simpl in Hfold. apply rbind_Ok in Hfold as (st1 & Hstep & Hrest).
    apply IH in Hrest as (new2 & Hc2 & Hi2 & Hh2 & Hl2).
    assert (Htext : forall t page,
               text_element_step cfg source st t page = Ok st1 ->
               exists new,
                 chunks_with_metadata st' = chunks_with_metadata st ++ new
                 /\ chunk_index st' = chunk_index st + Z.of_nat (length new)
                 /\ current_heading st'
                    = heading_after (current_heading st) items
                 /\ laid_out cfg source (chunk_index st)
                      ((if qualifies cfg t
                        then map (fun piece => (current_heading st, page, piece))
                               (_split_large_chunk (strip t)
                                  (MAX_CHUNK_WORDS cfg))
                        else []) ++ plan cfg (current_heading st) items)
                      new).
    { intros t page Ht.
      apply text_element_step_laid_out in Ht as (new1 & Hc1 & Hi1 & Hh1 & Hl1).
      exists (new1 ++ new2). rewrite Hc2, Hc1, Hi2, Hi1, Hh2, Hh1.
      rewrite <- app_assoc, length_app. repeat split; [lia|].
      apply laid_out_app; [assumption|].
      rewrite <- (laid_out_length Hl1), <- Hi1, <- Hh1. assumption. }
    destruct e as [t|t page|t page|]; simpl in Hstep |- *.
    + injection Hstep as <-. exists new2. auto.
    + now apply Htext.
    + now apply Htext.
    + injection Hstep as <-. exists new2. auto.
Qed.

(** The chunks of a document are its planned sub-chunks, from index 0 and
    the heading Introduction. *)
Lemma chunks_laid_out (cfg : config) (doc : document) (source : str)
  (chunks : list chunk) :
  create_semantic_chunks_from_docs cfg doc source = Ok chunks ->
  laid_out cfg source 0 (plan cfg (lit "Introduction") (iterate_items doc))
    chunks.
Proof.
  unfold create_semantic_chunks_from_docs. intros H.
  apply rbind_Ok in H as (st & Hfold & Hret). injection Hret as <-.
  apply chunker_loop_laid_out in Hfold as (new & Hc & _ & _ & Hl).
  simpl in Hc, Hl. now rewrite Hc.
Qed.

End Layout.

Section LayoutFacts.
Import PyStr Py Json Services Ingestion.
Local Open Scope Z_scope.

Lemma laid_out_nth (cfg : config) (source : str) (i : Z)
  (entries : list (str * json * str)) (cs : list chunk) :
  laid_out cfg source i entries cs ->
  forall k c,
    nth_error cs k = Some c ->
    exists entry,
      nth_error entries k = Some entry
      /\ lays_out cfg source (i + Z.of_nat k) entry c.
Proof.
  induction 1 as [i|i entry entries c cs Hc _ IH]; intros k c' Hk.
  - destruct k; discriminate.
  - destruct k as [|k]; simpl in Hk.
    + injection Hk as <-. exists entry. split; [reflexivity|].
      now rewrite Z.add_0_r.
    + destruct (IH k c' Hk) as (entry' & Hentry & Hlay).
      exists entry'. split; [assumption|].
      replace (i + Z.of_nat (S k)) with (i + 1 + Z.of_nat k) by lia.
      assumption.
Qed.

(** X3.  The chunks of a document are numbered from 0 in the order they
    are emitted, and each carries the source name it was chunked under:
    the chunk at position [k] of the result has [chunk_index] [k]. *)
Theorem chunk_indices_count_up (cfg : config) (doc : document)
  (source : str) (chunks : list chunk) (k : nat) (c : chunk) :
  create_semantic_chunks_from_docs cfg doc source = Ok chunks ->
  nth_error chunks k = Some c ->
  md_chunk_index (chunk_metadata c) = Z.of_nat k
  /\ md_source (chunk_metadata c) = source.
Proof.
  intros Hrun Hk. apply chunks_laid_out in Hrun.
  destruct (laid_out_nth Hrun k Hk) as ([[heading page] piece] & _ & Hlay).
  destruct Hlay as (_ & _ & ->). simpl. split; reflexivity.
Qed.

(** X4.  With the context prefix off, the identifier of every chunk can
    be derived again from what is stored with it: the source name, the
    chunk index and the text. *)
Theorem chunk_id_rederivable (cfg : config) (doc : document)
  (source : str) (chunks : list chunk) :
  ADD_CONTEXT_PREFIX cfg = false ->
  create_semantic_chunks_from_docs cfg doc source = Ok chunks ->
  Forall (fun c =>
            chunk_identity (md_source (chunk_metadata c))
              (md_chunk_index (chunk_metadata c)) (chunk_text c)
            = Ok (chunk_id c)) chunks.
Proof.
  intros Hflag Hrun. apply chunks_laid_out in Hrun.
  revert Hrun. generalize 0 (plan cfg (lit "Introduction") (iterate_items doc)).
  intros i entries H. induction H as [i|i [[heading page] piece] entries c cs
                                        (Hid & Htext & Hmeta) _ IH];
    constructor; [|assumption].
  rewrite Hmeta, Htext. unfold stored_text. rewrite Hflag. exact Hid.
Qed.

Lemma fold_result_app {A S} (f : S -> A -> result S) (a b : list A) (s : S) :
  fold_result f (a ++ b) s = rbind (fold_result f a s) (fold_result f b).
Proof.
  revert s. induction a as [|x a IH]; intros s; simpl; [reflexivity|].
  destruct (f s x); simpl; [apply IH | reflexivity].
Qed.

Definition is_header (item : element * Z) : bool :=
  match fst item with
  | SectionHeaderItem _ => true
  | _ => false
  end.

Lemma plan_headings (cfg : config) (heading : str)
  (items : list (element * Z)) :
  forallb (fun item => negb (is_header item)) items = true ->
  Forall (fun entry => fst (fst entry) = heading) (plan cfg heading items).
Proof.
  induction items as [|[e level] items IH]; intros H; [constructor|].
  simpl in H. apply andb_true_iff in H as [He H]. specialize (IH H).
  assert (Hp : forall t page,
             Forall (fun entry : str * json * str => fst (fst entry) = heading)
               ((if qualifies cfg t
                 then map (fun piece => (heading, page, piece))
                        (_split_large_chunk (strip t) (MAX_CHUNK_WORDS cfg))
                 else []) ++ plan cfg heading items)).
  { intros t page. apply Forall_app. split; [|assumption].
    destruct (qualifies cfg t); [|constructor].
    apply Forall_forall. intros entry Hin.
    apply in_map_iff in Hin as (piece & <- & _). reflexivity. }
  destruct e as [t|t page|t page|]; simpl;
    [discriminate | apply Hp | apply Hp | assumption].
Qed.

Lemma laid_out_headings (cfg : config) (source heading : str) (i : Z)
  (entries : list (str * json * str)) (cs : list chunk) :
  laid_out cfg source i entries cs ->
  Forall (fun entry => fst (fst entry) = heading) entries ->
  Forall (fun c => md_heading (chunk_metadata c) = heading) cs.
Proof.
  induction 1 as [i|i [[h page] piece] entries c cs (_ & _ & Hmeta) _ IH];
    intros Hall; constructor.
  - rewrite Hmeta. simpl. now inversion Hall.
  - apply IH. now inversion Hall.
Qed.

(** X5.  Chunking is stable under appending: the chunks of the first
    part of a document are the first chunks of the whole document, with
    the same identifiers, texts and metadata. *)
Theorem chunks_of_a_prefix (cfg : config) (source : str)
  (first whole : document) (rest : list (element * Z))
  (chunks : list chunk) :
  iterate_items whole = iterate_items first ++ rest ->
  create_semantic_chunks_from_docs cfg whole source = Ok chunks ->
  exists a b,
    create_semantic_chunks_from_docs cfg first source = Ok a
    /\ chunks = a ++ b.
Proof.
  unfold create_semantic_chunks_from_docs. intros ->.
  rewrite fold_result_app. intros H.
  apply rbind_Ok in H as (st' & H & Hret). injection Hret as <-.
  apply rbind_Ok in H as (st1 & Hfirst & Hrest).
  rewrite Hfirst. apply chunker_loop_laid_out in Hrest as (b & Hb & _).
  exists (chunks_with_metadata st1), b. split; [reflexivity | assumption].
Qed.

(** X6.  A chunk goes under the heading of the last section header seen
    before its element, stripped, or under Introduction when no header
    came before: the chunks of the elements that follow the first part of a
    document, up to the next header, all carry the heading in force after
    that first part. *)
Theorem chunks_carry_the_last_heading (cfg : config) (source : str)
  (first whole : document) (rest : list (element * Z))
  (chunks : list chunk) :
  iterate_items whole = iterate_items first ++ rest ->
  forallb (fun item => negb (is_header item)) rest = true ->
  create_semantic_chunks_from_docs cfg whole source = Ok chunks ->
  exists a b,
    create_semantic_chunks_from_docs cfg first source = Ok a
    /\ chunks = a ++ b
    /\ Forall (fun c => md_heading (chunk_metadata c)
                        = heading_after (lit "Introduction")
                            (iterate_items first)) b.
Proof.
  unfold create_semantic_chunks_from_docs. intros -> Hrest.
  rewrite fold_result_app. intros H.
  apply rbind_Ok in H as (st' & H & Hret). injection Hret as <-.
  apply rbind_Ok in H as (st1 & Hfirst & Hloop).
  rewrite Hfirst.
  apply chunker_loop_laid_out in Hfirst as (a & _ & _ & Hhead & _).
  apply chunker_loop_laid_out in Hloop as (b & Hb & _ & _ & Hlaid).
  exists (chunks_with_metadata st1), b.
  split; [reflexivity|]. split; [assumption|].
  cbn [current_heading] in Hhead. rewrite <- Hhead.
  apply (laid_out_headings Hlaid). now apply plan_headings.
Qed.

End LayoutFacts.

Section LayoutMore.
Import PyStr Py Json Services Ingestion.
Local Open Scope Z_scope.

Lemma split_large_chunk_nonempty (t : str) (max_words : Z) :
  strip t <> [] -> _split_large_chunk (strip t) max_words <> [].
Proof.
  intros Hne Hnil.
  pose proof (words_of_pieces (strip t) max_words) as Hw.
  rewrite Hnil in Hw. simpl in Hw.
  pose proof (strip_nonempty_word_count t Hne) as Hpos.
  unfold word_count in Hpos. rewrite <- Hw in Hpos. simpl in Hpos. lia.
Qed.

Lemma qualifies_strip_nonempty (cfg : config) (t : str) :
  qualifies cfg t = true -> strip t <> [].
Proof.
  unfold qualifies. intros H Hnil. rewrite Hnil in H. discriminate.
Qed.

(** The text elements of [items] none of which qualifies. *)
Definition none_qualifies (cfg : config) (items : list (element * Z)) : Prop :=
  Forall (fun item =>
            match element_text (fst item) with
            | Some t => qualifies cfg t = false
            | None => True
            end) items.

Lemma plan_nil_iff (cfg : config) (items : list (element * Z)) :
  forall heading, plan cfg heading items = [] <-> none_qualifies cfg items.
Proof.
  unfold none_qualifies.
  induction items as [|[e level] items IH]; intros heading.
  - split; [constructor | reflexivity].
  - assert (Ht : forall t page,
               (if qualifies cfg t
                then map (fun piece : str => (heading, page, piece))
                       (_split_large_chunk (strip t) (MAX_CHUNK_WORDS cfg))
                else []) ++ plan cfg heading items = []
               <-> qualifies cfg t = false
                   /\ plan cfg heading items = []).
    { intros t page. destruct (qualifies cfg t) eqn:Hq.
      - split; [|intros [? _]; discriminate].
        intros H. apply app_eq_nil in H as [H _].
        apply map_eq_nil in H. exfalso.
        exact (@split_large_chunk_nonempty t (MAX_CHUNK_WORDS cfg)
                 (@qualifies_strip_nonempty cfg t Hq) H).
      - simpl. tauto. }
    destruct e as [t|t page|t page|]; simpl.
    + rewrite IH. split; [now constructor | now inversion 1].
    + rewrite Ht, IH. split; [intros []; now constructor | now inversion 1].
    + rewrite Ht, IH. split; [intros []; now constructor | now inversion 1].
    + rewrite IH. split; [now constructor | now inversion 1].
Qed.

(** X7.  The chunker returns the empty list exactly when no text or list
    element of the document qualifies, that is when each of them is empty
    once stripped or has fewer words than the minimum. *)
Theorem no_chunks_iff_nothing_qualifies (cfg : config) (doc : document)
  (source : str) (chunks : list chunk) :
  create_semantic_chunks_from_docs cfg doc source = Ok chunks ->
  chunks = [] <-> none_qualifies cfg (iterate_items doc).
Proof.
  intros Hrun. apply chunks_laid_out in Hrun.
  rewrite <- (plan_nil_iff cfg (iterate_items doc) (lit "Introduction")).
  pose proof (laid_out_length Hrun) as Hlen.
  split; intros H; rewrite H in Hlen; simpl in Hlen.
  - destruct (plan _ _ _); [reflexivity | discriminate].
  - destruct chunks; [reflexivity | discriminate].
Qed.

Lemma plan_with_prefix (cfg : config) (b : bool) (heading : str)
  (items : list (element * Z)) :
  plan (with_prefix b cfg) heading items = plan cfg heading items.
Proof.
  revert heading. induction items as [|[[t|t page|t page|] level] items IH];
    intros heading; simpl; rewrite ?IH; reflexivity.
Qed.

(** The stored text of a chunk with the Source/Section header that the
    context prefix puts before it. *)
Definition with_header (c : chunk) : str :=
  lit "Source: " ++ md_source (chunk_metadata c) ++ [LF] ++ lit "Section: "
    ++ md_heading (chunk_metadata c) ++ [LF; LF] ++ chunk_text c.

Lemma laid_out_texts (cfg : config) (source : str) (i : Z)
  (entries : list (str * json * str)) (on off : list chunk) :
  laid_out (with_prefix true cfg) source i entries on ->
  laid_out (with_prefix false cfg) source i entries off ->
  map chunk_text on = map with_header off
  /\ map chunk_metadata on = map chunk_metadata off.
Proof.
  intros Hon. revert off.
  induction Hon as [i|i [[heading page] piece] entries c cs
                      (_ & Htext & Hmeta) _ IH]; intros off Hoff.
  - inversion Hoff. split; reflexivity.
  - inversion Hoff as [|i' e' es' c' cs' Hlay Hrest]; subst.
    destruct Hlay as (_ & Htext' & Hmeta').
    destruct (IH _ Hrest) as [IH1 IH2].
    simpl. rewrite IH1, IH2, Hmeta, Hmeta'. split; [|reflexivity].
    f_equal. unfold with_header. rewrite Htext, Htext', Hmeta'. reflexivity.
Qed.

(** X8.  Switching the context prefix on changes the stored text of each
    chunk by putting the header made of its source and heading before the
    text stored with the prefix off, and changes nothing in the
    metadata. *)
Theorem prefix_only_adds_the_header (cfg : config) (doc : document)
  (source : str) (on off : list chunk) :
  create_semantic_chunks_from_docs (with_prefix true cfg) doc source = Ok on ->
  create_semantic_chunks_from_docs (with_prefix false cfg) doc source
  = Ok off ->
  map chunk_text on = map with_header off
  /\ map chunk_metadata on = map chunk_metadata off.
Proof.
  intros Hon Hoff. apply chunks_laid_out in Hon, Hoff.
  rewrite plan_with_prefix in Hon, Hoff.
  exact (laid_out_texts Hon Hoff).
Qed.

End LayoutMore.

(** * Texts that encode *)

Section Encodable.
Import PyStr Py Hashes Json Services Ingestion.

(** A text without surrogate code points. *)
Definition encodable (s : str) : bool :=
  forallb (fun c => negb (is_surrogate c)) s.

Lemma encodable_app (a b : str) :
  encodable (a ++ b) = encodable a && encodable b.
Proof. apply forallb_app. Qed.

Lemma find_surrogate_none (s : str) :
  encodable s = true -> forall pos, find_surrogate s pos = None.
Proof.
  induction s as [|c s IH]; intros H pos; [reflexivity|].
  simpl in *. apply andb_true_iff in H as [Hc Hs].
  apply negb_true_iff in Hc. rewrite Hc. now apply IH.
Qed.

Lemma find_surrogate_some (s : str) :
  encodable s = false ->
  forall pos, exists p c rest, find_surrogate s pos = Some (p, c :: rest).
Proof.
  induction s as [|c s IH]; intros H pos; [discriminate|].
  simpl in *. destruct (is_surrogate c) eqn:Hc.
  - eauto.
  - simpl in H. apply IH. assumption.
Qed.

Lemma encode_encodable (s : str) :
  encodable s = true -> encode s = Ok (flat_map utf8_char s).
Proof.
  intros H. unfold encode. now rewrite (find_surrogate_none s H).
Qed.

Lemma encode_not_encodable (s : str) :
  encodable s = false ->
  exists e, encode s = Raise e /\ exn_class e = "UnicodeEncodeError".
Proof.
  intros H. unfold encode.
  destruct (find_surrogate_some s H 0) as (p & c & rest & ->).
  eexists. split; reflexivity.
Qed.

Lemma encodable_lit (x : String.string) : encodable (lit x) = true.
Proof.
  unfold lit, encodable. rewrite forallb_forall. intros c Hc.
  apply in_map_iff in Hc as (a & <- & _).
  pose proof (Ascii.N_ascii_bounded a) as Hb.
  unfold is_surrogate. apply negb_true_iff, andb_false_iff. left.
  apply N.leb_gt. lia.
Qed.

Lemma encodable_hex_fixed (w : nat) (n : N) : encodable (hex_fixed w n) = true.
Proof.
  revert n. induction w as [|w IH]; intros n; [reflexivity|].
  cbn [hex_fixed]. rewrite encodable_app, IH.
  cbn [encodable forallb andb]. rewrite andb_true_r.
  assert (Hd : (N.land n 15 < 16)%N).
  { change 15%N with (N.ones 4). rewrite N.land_ones.
    apply N.mod_lt. discriminate. }
  unfold hex_digit, is_surrogate.
  apply negb_true_iff, andb_false_iff. left. apply N.leb_gt.
  destruct (N.land n 15 <? 10)%N; lia.
Qed.

Lemma encodable_hex (bs : list N) : encodable (hex bs) = true.
Proof.
  unfold hex. induction bs as [|b bs IH]; [reflexivity|].
  cbn [flat_map]. now rewrite encodable_app, encodable_hex_fixed, IH.
Qed.

Lemma encodable_firstn (k : nat) (s : str) :
  encodable s = true -> encodable (firstn k s) = true.
Proof.
  revert k. induction s as [|c s IH]; intros [|k] H; try reflexivity.
  simpl in *. apply andb_true_iff in H as [-> H]. now apply IH.
Qed.

Lemma uuid5_encodable (namespace : uuid) (name : str) :
  encodable name = true -> exists u, uuid5 namespace name = Ok u.
Proof.
  intros H. unfold uuid5. rewrite (encode_encodable name H).
  cbn [rbind]. eauto.
Qed.

Lemma uuid5_not_encodable (namespace : uuid) (name : str) :
  encodable name = false ->
  exists e, uuid5 namespace name = Raise e
            /\ exn_class e = "UnicodeEncodeError".
Proof.
  intros H. unfold uuid5.
  destruct (encode_not_encodable name H) as (e & -> & He).
  cbn [rbind]. eauto.
Qed.

Lemma unique_string_encodable (index : Z) (text_hash : str) :
  encodable text_hash = true ->
  encodable (of_Z index ++ lit "::" ++ text_hash) = true.
Proof.
  intros H. unfold of_Z. now rewrite !encodable_app, !encodable_lit, H.
Qed.

Lemma chunk_identity_returns (source : str) (index : Z) (text : str) :
  encodable source = true -> encodable text = true ->
  exists id, chunk_identity source index text = Ok id.
Proof.
  intros Hsource Htext.
  unfold chunk_identity, text_hash_of, _generate_deterministic_id.
  rewrite (encode_encodable text Htext). cbn [rbind].
  destruct (uuid5_encodable NAMESPACE_DNS source Hsource) as [ns ->].
  cbn [rbind].
  match goal with
  | |- context [uuid5 ns ?name] =>
      destruct (uuid5_encodable ns name) as [u ->]
  end.
  - apply unique_string_encodable, encodable_firstn, encodable_hex.
  - cbn [rbind]. eauto.
Qed.

Lemma chunk_identity_raises (source : str) (index : Z) (text : str) :
  encodable source && encodable text = false ->
  exists e, chunk_identity source index text = Raise e
            /\ exn_class e = "UnicodeEncodeError".
Proof.
  intros H. unfold chunk_identity, text_hash_of, _generate_deterministic_id.
  destruct (encodable text) eqn:Htext.
  - rewrite andb_true_r in H. rewrite (encode_encodable text Htext).
    cbn [rbind].
    destruct (uuid5_not_encodable NAMESPACE_DNS source H) as (e & -> & He).
    cbn [rbind]. eauto.
  - destruct (encode_not_encodable text Htext) as (e & -> & He).
    cbn [rbind]. eauto.
Qed.

(** X9.  Deriving a chunk identifier succeeds exactly when neither the
    source name nor the content text holds a surrogate code point; when it
    fails, what it raises is a [UnicodeEncodeError]. *)
Theorem chunk_identity_fails_only_on_surrogates (source : str) (index : Z)
  (text : str) :
  ((exists id, chunk_identity source index text = Ok id)
   <-> encodable source = true /\ encodable text = true)
  /\ forall e, chunk_identity source index text = Raise e ->
               exn_class e = "UnicodeEncodeError".
Proof.
  destruct (encodable source && encodable text) eqn:Hboth.
  - apply andb_true_iff in Hboth as [Hsource Htext].
    destruct (@chunk_identity_returns source index text Hsource Htext)
      as [id Hid].
    rewrite Hid. split; [split; eauto | discriminate].
  - destruct (@chunk_identity_raises source index text Hboth)
      as (e & Hraise & He).
    rewrite Hraise. split.
    + split; [intros [id H]; discriminate|].
      intros [Hs Ht]. rewrite Hs, Ht in Hboth. discriminate.
    + intros e' H. now injection H as <-.
Qed.

End Encodable.

Section EncodableChunks.
Import PyStr Py Hashes Json Services Ingestion.
Local Open Scope Z_scope.

Lemma encodable_dropwhile (p : char -> bool) (s : str) :
  encodable s = true -> encodable (dropwhile p s) = true.
Proof.
  induction s as [|c s IH]; intros H; [reflexivity|].
  simpl. destruct (p c); [|assumption].
  simpl in H. apply andb_true_iff in H as [_ H]. now apply IH.
Qed.

Lemma encodable_rev (s : str) : encodable (rev s) = encodable s.
Proof.
  induction s as [|c s IH]; [reflexivity|].
  simpl. rewrite encodable_app, IH. simpl. rewrite andb_true_r.
  apply andb_comm.
Qed.

Lemma encodable_strip (s : str) :
  encodable s = true -> encodable (strip s) = true.
Proof.
  intros H. unfold strip, rstrip, lstrip.
  rewrite encodable_rev. apply encodable_dropwhile.
  rewrite encodable_rev. now apply encodable_dropwhile.
Qed.

Lemma encodable_split_scan (s : str) :
  forall acc,
    encodable s = true -> encodable acc = true ->
    forallb encodable (split_scan s acc) = true.
Proof.
  induction s as [|c s IH]; intros acc Hs Hacc; simpl.
  - destruct acc; [reflexivity|]. cbn [forallb]. now rewrite Hacc.
  - simpl in Hs. apply andb_true_iff in Hs as [Hc Hs].
    destruct (isspace c).
    + destruct acc as [|a acc']; [now apply IH|].
      cbn [forallb]. rewrite Hacc. now apply IH.
    + apply IH; [assumption|]. rewrite encodable_app, Hacc.
      cbn [encodable forallb]. now rewrite Hc.
Qed.

Lemma encodable_join (ws : list str) :
  forallb encodable ws = true -> encodable (join [SP] ws) = true.
Proof.
  induction ws as [|w ws IH]; intros H; [reflexivity|].
  simpl in H. apply andb_true_iff in H as [Hw Hws].
  destruct ws as [|w' ws']; [exact Hw|].
  change (join [SP] (w :: w' :: ws'))
    with (w ++ [SP] ++ join [SP] (w' :: ws')).
  rewrite !encodable_app, Hw, (IH Hws). reflexivity.
Qed.

Lemma encodable_split_loop (max_words : Z) (words : list str) :
  forall chunks current_chunk,
    forallb encodable words = true ->
    forallb encodable chunks = true ->
    forallb encodable current_chunk = true ->
    let st := fold_left (split_step max_words) words (chunks, current_chunk) in
    forallb encodable (fst st) = true /\ forallb encodable (snd st) = true.
Proof.
  induction words as [|w words IH]; intros chunks cur Hw Hch Hcur.
  - simpl. auto.
  - cbn [fold_left]. simpl in Hw. apply andb_true_iff in Hw as [Hw Hws].
    replace (split_step max_words (chunks, cur) w)
      with (if Z.of_nat (length (cur ++ [w])) >=? max_words
            then (chunks ++ [join [SP] (cur ++ [w])], [])
            else (chunks, cur ++ [w])) by reflexivity.
    assert (Hcur' : forallb encodable (cur ++ [w]) = true).
    { rewrite forallb_app, Hcur. cbn [forallb]. now rewrite Hw. }
    destruct (_ >=? _).
    + apply IH; [assumption| |reflexivity].
      rewrite forallb_app, Hch. cbn [forallb].
      now rewrite encodable_join.
    + now apply IH.
Qed.

Lemma encodable_pieces (text : str) (max_words : Z) :
  encodable text = true ->
  forallb encodable (_split_large_chunk text max_words) = true.
Proof.
  intros H. unfold _split_large_chunk.
  destruct (_ <=? _); [cbn [forallb]; now rewrite H|].
  destruct (@encodable_split_loop max_words (split text) [] [])
    as [Hch Hcur]; [now apply encodable_split_scan | reflexivity
                   | reflexivity |].
  destruct (fold_left _ _ _) as [chunks cur]. simpl in Hch, Hcur.
  destruct cur as [|w cur]; [assumption|].
  rewrite forallb_app, Hch. cbn [forallb]. now rewrite encodable_join.
Qed.

Lemma sub_text_fold_returns (cfg : config) (source heading : str)
  (page : json) (pieces : list str) :
  encodable source = true ->
  forallb encodable pieces = true ->
  forall st, exists st',
    fold_result (sub_text_step cfg source heading page) pieces st = Ok st'.
Proof.
  intros Hsource. induction pieces as [|p pieces IH]; intros Hp st.
  - simpl. eauto.
  - simpl in Hp. apply andb_true_iff in Hp as [Hp Hps].
    destruct st as [chunks index]. cbn [fold_result].
    unfold sub_text_step at 1.
    destruct (@chunk_identity_returns source index p Hsource Hp) as [id ->].
    cbn [rbind]. apply IH. assumption.
Qed.

(** The text elements of [items] are all encodable. *)
Definition texts_encodable (items : list (element * Z)) : Prop :=
  Forall (fun item =>
            match element_text (fst item) with
            | Some t => encodable t = true
            | None => True
            end) items.

(** X10.  The chunker returns for every document whose text and list
    elements hold no surrogate code point, chunked under a source name that
    holds none: its only failure is the encoding of such a text. *)
Theorem chunker_returns_on_encodable_text (cfg : config) (doc : document)
  (source : str) :
  encodable source = true ->
  texts_encodable (iterate_items doc) ->
  exists chunks, create_semantic_chunks_from_docs cfg doc source = Ok chunks.
Proof.
  intros Hsource Htexts. unfold create_semantic_chunks_from_docs.
  assert (Hloop : forall st, exists st',
             fold_result (element_step cfg source) (iterate_items doc) st
             = Ok st').
  { induction Htexts as [|[e level] items He _ IH]; intros st;
      [simpl; eauto|].
    cbn [fold_result].
    assert (Hstep : exists st1, element_step cfg source st (e, level) = Ok st1).
    { destruct e as [t|t page|t page|]; simpl in He |- *; eauto;
        unfold text_element_step;
        (destruct (_ || _); [eauto|]);
        (destruct (@sub_text_fold_returns cfg source (current_heading st)
                     page
                     (_split_large_chunk (strip t) (MAX_CHUNK_WORDS cfg))
                     Hsource
                     (@encodable_pieces (strip t) (MAX_CHUNK_WORDS cfg)
                        (@encodable_strip t He))
                     (chunks_with_metadata st, chunk_index st))
           as [[chunks' index'] ->]);
        cbn [rbind]; eauto. }
    destruct Hstep as [st1 ->]. cbn [rbind]. apply IH. }
  destruct (Hloop (mkChunker [] (lit "Introduction") 0)) as [st' ->].
  cbn [rbind]. eauto.
Qed.

End EncodableChunks.

Lemma chunker_returns_on_encodable_text_witness :
  exists chunks,
    Ingestion.create_semantic_chunks_from_docs Ingestion.default_config
      Fixture.small_doc (PyStr.lit "pump.pdf") = Py.Ok chunks.
Proof.
  apply chunker_returns_on_encodable_text.
  - reflexivity.
  - repeat constructor.
Defined.

(** * The shape of an identifier *)

Section UuidShape.
Import PyStr Py Hashes Ingestion.
Local Open Scope N_scope.

Lemma hex_fixed_length (w : nat) (n : N) : length (hex_fixed w n) = w.
Proof.
  revert n. induction w as [|w IH]; intros n; [reflexivity|].
  cbn [hex_fixed]. rewrite length_app, IH. simpl. lia.
Qed.

(** The digit at position [k] of [w] digits is the nibble [w - 1 - k]. *)
Lemma hex_fixed_nth (w : nat) :
  forall (n : N) (k : nat),
    (k < w)%nat ->
    nth k (hex_fixed w n) 0
    = hex_digit (N.land (N.shiftr n (4 * N.of_nat (w - 1 - k))) 15).
Proof.
  induction w as [|w IH]; intros n k Hk; [lia|].
  cbn [hex_fixed].
  destruct (Nat.eq_dec k w) as [->|Hne].
  - rewrite app_nth2 by (rewrite hex_fixed_length; lia).
    rewrite hex_fixed_length.
    replace (w - w)%nat with 0%nat by lia.
    replace (S w - 1 - w)%nat with 0%nat by lia.
    reflexivity.
  - rewrite app_nth1 by (rewrite hex_fixed_length; lia).
    rewrite IH by lia. rewrite N.shiftr_shiftr.
    do 3 f_equal. lia.
Qed.

(** The version nibble of a version-5 identifier is 5 and the two high
    bits of its variant nibble are 1 and 0. *)
Lemma set_version5_nibbles (n : N) :
  N.land (N.shiftr (set_version5 n) 76) 15 = 5
  /\ N.land (N.shiftr (set_version5 n) 62) 3 = 2.
Proof.
  unfold set_version5. split; apply N.bits_inj; intros k.
  - rewrite N.land_spec, N.shiftr_spec by apply N.le_0_l.
    rewrite N.lor_spec, !N.land_spec, N.lor_spec, N.land_spec.
    destruct (N.lt_ge_cases k 4) as [Hk|Hk].
    + assert (Hcases : k = 0 \/ k = 1 \/ k = 2 \/ k = 3) by lia.
      destruct Hcases as [-> | [-> | [-> | ->]]]; vm_compute N.add;
        match goal with
        | |- context [N.testbit (N.lxor (N.shiftl 61440 64) (N.ones 128)) ?p] =>
            replace (N.testbit (N.lxor (N.shiftl 61440 64) (N.ones 128)) p)
              with false by (vm_compute; reflexivity)
        end;
        rewrite andb_false_r; vm_compute; reflexivity.
    + replace (N.testbit 15 k) with false; [|symmetry].
      * rewrite andb_false_r. symmetry.
        apply (N.bits_above_log2 5 k). vm_compute N.log2. lia.
      * apply (N.bits_above_log2 15 k). vm_compute N.log2. lia.
  - rewrite N.land_spec, N.shiftr_spec by apply N.le_0_l.
    rewrite N.lor_spec, !N.land_spec, N.lor_spec, N.land_spec.
    destruct (N.lt_ge_cases k 2) as [Hk|Hk].
    + assert (Hcases : k = 0 \/ k = 1) by lia.
      destruct Hcases as [-> | ->]; vm_compute N.add.
      * replace (N.testbit (N.lxor (N.shiftl 49152 48) (N.ones 128)) 62)
          with false by (vm_compute; reflexivity).
        rewrite andb_false_r. vm_compute. reflexivity.
      * replace (N.testbit (N.shiftl 32768 48) 63)
          with true by (vm_compute; reflexivity).
        rewrite orb_true_r. vm_compute. reflexivity.
    + replace (N.testbit 3 k) with false; [|symmetry].
      * rewrite andb_false_r. symmetry.
        apply (N.bits_above_log2 2 k). vm_compute N.log2. lia.
      * apply (N.bits_above_log2 3 k). vm_compute N.log2. lia.
Qed.

(** A lower-case hexadecimal digit. *)
Definition hex_char (c : char) : bool :=
  ((48 <=? c) && (c <=? 57)) || ((97 <=? c) && (c <=? 102)).

(** The characters of an identifier: digits and dashes. *)
Definition uuid_char (c : char) : bool := (c =? 45) || hex_char c.

Lemma hex_digit_hex (d : N) : d < 16 -> hex_char (hex_digit d) = true.
Proof.
  intros Hd. unfold hex_char, hex_digit.
  destruct (d <? 10) eqn:Hlt.
  - apply N.ltb_lt in Hlt.
    replace ((48 <=? 48 + d) && (48 + d <=? 57)) with true; [reflexivity|].
    symmetry. apply andb_true_iff. split; apply N.leb_le; lia.
  - apply N.ltb_ge in Hlt.
    replace ((97 <=? 87 + d) && (87 + d <=? 102)) with true;
      [now rewrite orb_true_r|].
    symmetry. apply andb_true_iff. split; apply N.leb_le; lia.
Qed.

Lemma hex_digit_char (d : N) : d < 16 -> uuid_char (hex_digit d) = true.
Proof.
  intros Hd. unfold uuid_char. rewrite (hex_digit_hex Hd).
  apply orb_true_r.
Qed.

Lemma nibble_bound (n : N) : N.land n 15 < 16.
Proof.
  change 15 with (N.ones 4). rewrite N.land_ones.
  apply N.mod_lt. discriminate.
Qed.

Lemma hex_fixed_chars (w : nat) (n : N) :
  forallb uuid_char (hex_fixed w n) = true.
Proof.
  revert n. induction w as [|w IH]; intros n; [reflexivity|].
  cbn [hex_fixed]. rewrite forallb_app, IH. cbn [forallb].
  now rewrite hex_digit_char by apply nibble_bound.
Qed.

Lemma hex_fixed_hex (w : nat) (n : N) :
  forallb hex_char (hex_fixed w n) = true.
Proof.
  revert n. induction w as [|w IH]; intros n; [reflexivity|].
  cbn [hex_fixed]. rewrite forallb_app, IH. cbn [forallb].
  now rewrite hex_digit_hex by apply nibble_bound.
Qed.

(** [str(u)] from the 32 digits of [u]. *)
Definition dashed (h : str) : str :=
  firstn 8 h ++ lit "-" ++ firstn 4 (skipn 8 h) ++ lit "-"
    ++ firstn 4 (skipn 12 h) ++ lit "-" ++ firstn 4 (skipn 16 h)
    ++ lit "-" ++ skipn 20 h.

Lemma dashed_shape (h : str) :
  length h = 32%nat ->
  length (dashed h) = 36%nat
  /\ nth 8 (dashed h) 0 = 45 /\ nth 13 (dashed h) 0 = 45
  /\ nth 18 (dashed h) 0 = 45 /\ nth 23 (dashed h) 0 = 45
  /\ nth 14 (dashed h) 0 = nth 12 h 0
  /\ nth 19 (dashed h) 0 = nth 16 h 0
  /\ forallb uuid_char (dashed h) = forallb uuid_char h.
Proof.
  intros Hlen.
  do 32 (destruct h as [|? h]; [discriminate|]).
  destruct h; [|discriminate].
  repeat split.
Qed.

Lemma uuid5_is_versioned (namespace : uuid) (name : str) (u : uuid) :
  uuid5 namespace name = Ok u -> exists n, u = set_version5 n.
Proof.
  unfold uuid5. destruct (encode name) as [bytes|e]; cbn [rbind];
    intros H; [|discriminate].
  eexists. symmetry. exact (f_equal (fun r => match r with
                                              | Ok x => x
                                              | Raise _ => u
                                              end) H).
Qed.

(** X11.  An identifier that [_generate_deterministic_id] returns is a
    version-5 UUID in the canonical form: 32 lower-case hexadecimal
    digits, and nothing but digits, written in groups of 8, 4, 4, 4 and 12
    with a dash between the groups, hence 36 characters with the dashes at
    positions 8, 13, 18 and 23; the first digit of the third group, the
    version, is 5, and the first digit of the fourth group, the variant,
    is one of 8, 9, a and b. *)
Theorem generated_id_is_a_uuid5 (source : str) (chunk_index : Z)
  (text_hash id : str) :
  _generate_deterministic_id source chunk_index text_hash = Ok id ->
  (exists digits,
      length digits = 32%nat
      /\ forallb hex_char digits = true
      /\ nth 12 digits 0 = 53
      /\ In (nth 16 digits 0) [56; 57; 97; 98]
      /\ id = firstn 8 digits ++ lit "-" ++ firstn 4 (skipn 8 digits)
                ++ lit "-" ++ firstn 4 (skipn 12 digits) ++ lit "-"
                ++ firstn 4 (skipn 16 digits) ++ lit "-" ++ skipn 20 digits)
  /\ length id = 36%nat
  /\ forallb uuid_char id = true
  /\ nth 8 id 0 = 45 /\ nth 13 id 0 = 45
  /\ nth 18 id 0 = 45 /\ nth 23 id 0 = 45
  /\ nth 14 id 0 = 53
  /\ In (nth 19 id 0) [56; 57; 97; 98].
Proof.
  unfold _generate_deterministic_id. intros H.
  apply rbind_Ok in H as (ns & _ & H).
  apply rbind_Ok in H as (u & Hu & H).
  apply uuid5_is_versioned in Hu as [n ->].
  assert (Hid : id = dashed (hex_fixed 32 (set_version5 n))).
  { symmetry.
    exact (f_equal (fun r => match r with Ok x => x | Raise _ => id end) H). }
  clear H. subst id.
  destruct (dashed_shape (hex_fixed 32 (set_version5 n))
              (hex_fixed_length 32 (set_version5 n)))
    as (Hlen & H8 & H13 & H18 & H23 & H14 & H19 & Hchars).
  destruct (set_version5_nibbles n) as [Hversion Hvariant].
  assert (Hv : nth 12 (hex_fixed 32 (set_version5 n)) 0 = 53).
  { rewrite hex_fixed_nth by lia.
    change (4 * N.of_nat (32 - 1 - 12)) with 76. now rewrite Hversion. }
  assert (Hr : In (nth 16 (hex_fixed 32 (set_version5 n)) 0)
                 [56; 57; 97; 98]).
  { rewrite hex_fixed_nth by lia.
    change (4 * N.of_nat (32 - 1 - 16)) with 60.
    set (a := N.shiftr (set_version5 n) 60).
    assert (Ha : (a / 4) mod 4 = 2).
    { unfold a. rewrite <- (N.shiftr_div_pow2 _ 2), N.shiftr_shiftr.
      change 3 with (N.ones 2) in Hvariant.
      rewrite N.land_ones in Hvariant. exact Hvariant. }
    change 15 with (N.ones 4). rewrite N.land_ones.
    change (2 ^ 4) with 16.
    assert (Hcases : a mod 16 = 8 \/ a mod 16 = 9 \/ a mod 16 = 10
                     \/ a mod 16 = 11).
    { zify. Z.to_euclidean_division_equations. lia. }
    destruct Hcases as [-> | [-> | [-> | ->]]]; simpl; auto. }
  split.
  - exists (hex_fixed 32 (set_version5 n)).
    refine (conj (hex_fixed_length 32 _) (conj (hex_fixed_hex 32 _)
              (conj Hv (conj Hr _)))).
    reflexivity.
  - refine (conj Hlen (conj _ (conj H8 (conj H13 (conj H18 (conj H23
              (conj _ _))))))).
    + rewrite Hchars. apply hex_fixed_chars.
    + now rewrite H14.
    + now rewrite H19.
Qed.

End UuidShape.

Lemma generated_id_is_a_uuid5_witness :
  exists digits,
    length digits = 32%nat
    /\ forallb hex_char digits = true
    /\ PyStr.lit "1f7f1373-c7fd-5c03-8074-33f6c268a486"
       = firstn 8 digits ++ PyStr.lit "-" ++ firstn 4 (skipn 8 digits)
           ++ PyStr.lit "-" ++ firstn 4 (skipn 12 digits) ++ PyStr.lit "-"
           ++ firstn 4 (skipn 16 digits) ++ PyStr.lit "-" ++ skipn 20 digits.
Proof.
  destruct (@generated_id_is_a_uuid5 (PyStr.lit "f.pdf") 0
              (PyStr.lit "12b9782a639f56ed")
              (PyStr.lit "1f7f1373-c7fd-5c03-8074-33f6c268a486"))
    as ((digits & Hlen & Hhex & _ & _ & Hid) & _);
    [vm_compute; reflexivity|].
  exists digits. split; [exact Hlen|]. split; [exact Hhex|exact Hid].
Defined.

(** * More about the ingestion pipeline *)

Section PipelineRuns.
Import PyStr Py Json Services Ingestion.
Local Open Scope Z_scope.

Variable World : Type.
Variable vector : Type.
Variable svc : services World vector.
Variable cfg : config.
Variable debug_mode : bool.

Local Abbreviation machine := (machine World vector).

(** The payload built for a chunk. *)
Definition payload_of (c : chunk) : payload :=
  let md := chunk_metadata c in
  mkPayload (md_source md) (md_page md) (md_heading md) (md_chunk_index md)
    (chunk_text c).

(** The points of the chunks, each with its embedding. *)
Definition points_of (chunks : list chunk) (embeddings : list vector)
  : list (PointStruct vector) :=
  map (fun cv => mkPoint (chunk_id (fst cv)) (snd cv) (payload_of (fst cv)))
    (combine chunks embeddings).

Lemma points_loop (embeddings : list vector) (chunks : list chunk) :
  forall (points : list (PointStruct vector)) (i : nat) (m : machine),
    (i + length chunks <= length embeddings)%nat ->
    for_each chunks (point_step embeddings) (points, i) m
    = (Ok (points ++ points_of chunks (skipn i embeddings),
           (i + length chunks)%nat), m).
Proof.
  induction chunks as [|c chunks IH]; intros points i m Hlen.
  - simpl. now rewrite app_nil_r, Nat.add_0_r.
  - cbn [for_each]. rewrite bind_step.
    unfold point_step at 1. rewrite bind_step. unfold embedding_at.
    simpl length in Hlen.
    destruct (nth_error embeddings i) as [v|] eqn:Hv.
    + cbn [ret]. rewrite IH by lia.
      assert (Hskip : skipn i embeddings = v :: skipn (S i) embeddings).
      { clear - Hv. revert i Hv.
        induction embeddings as [|x l IHl]; intros [|i] Hv;
          try discriminate.
        - now injection Hv as ->.
        - simpl. now apply IHl. }
      rewrite Hskip. unfold points_of. cbn [combine map fst snd].
      rewrite <- app_assoc. cbn [app length].
      replace (S i + length chunks)%nat with (i + S (length chunks))%nat
        by lia.
      reflexivity.
    + apply nth_error_None in Hv. lia.
Qed.

Lemma points_loop_short (embeddings : list vector) (chunks : list chunk) :
  forall (points : list (PointStruct vector)) (i : nat) (m : machine),
    (i <= length embeddings < i + length chunks)%nat ->
    exists e,
      for_each chunks (point_step embeddings) (points, i) m = (Raise e, m)
      /\ exn_class e = "IndexError".
Proof.
  induction chunks as [|c chunks IH]; intros points i m Hlen.
  - simpl in Hlen. lia.
  - cbn [for_each]. rewrite bind_step.
    unfold point_step at 1. rewrite bind_step. unfold embedding_at.
    simpl length in Hlen.
    destruct (nth_error embeddings i) as [v|] eqn:Hv.
    + cbn [ret]. apply IH.
      assert (i < length embeddings)%nat
        by (apply nth_error_Some; congruence).
      lia.
    + eexists. split; reflexivity.
Qed.

Lemma points_loop_all (embeddings : list vector) (chunks : list chunk)
  (m : machine) :
  (length chunks <= length embeddings)%nat ->
  for_each chunks (point_step embeddings) ([], 0%nat) m
  = (Ok (points_of chunks embeddings, length chunks), m).
Proof.
  intros Hlen. now rewrite points_loop by (simpl; lia).
Qed.

Lemma snoc3 (A : Type) (l : list A) (a b c : A) :
  ((l ++ [a]) ++ [b]) ++ [c] = l ++ [a; b; c].
Proof.
  now rewrite <- !app_assoc.
Qed.

(** The line printed when processing fails with [e]. *)
Definition error_line (filename : str) (e : exn) : str :=
  [LF; 10060%N] ++ lit " Error processing '" ++ filename ++ lit "': "
    ++ exn_text e.

(** X12.  No exception leaves [process_document] unreported: whenever
    it raises, the last line it printed is the error line, which names the
    file and carries the text of the exception raised. *)
Theorem process_document_reports_what_it_raises (filepath : str)
  (w : World) (e : exn) :
  fst (run (process_document svc cfg debug_mode filepath) w) = Raise e ->
  last (trace (snd (run (process_document svc cfg debug_mode filepath) w)))
    (EvPrint [])
  = EvPrint (error_line (basename filepath) e).
Proof.
  unfold run, process_document.
  rewrite bind_call. cbn [world trace].
  destruct (path_exists svc filepath w) as [found w1]. cbn [fst snd].
  destruct found; cbn [negb]; [|discriminate].
  rewrite !bind_print. unfold try_except.
  match goal with
  | |- context [match ?body ?m with _ => _ end] =>
      destruct (body m) as [[[]|e'] m']
  end.
  - discriminate.
  - rewrite bind_print. unfold raise. cbn [fst snd trace].
    intros H. injection H as ->. now rewrite last_last.
Qed.

(** X13.  [process_document] writes all or nothing: in every world its
    trace holds no delete, and either no upsert or one upsert, of one
    point per chunk of the document the converter returned, chunked under
    the base name of the file, each point with the id, the metadata and
    the text of its chunk. *)
Theorem process_document_all_or_nothing (filepath : str) (w : World) :
  let t := trace (snd (run (process_document svc cfg debug_mode filepath) w)) in
  mutations t = []
  \/ exists doc chunks embeddings,
       fst (convert svc filepath (snd (path_exists svc filepath w))) = Ok doc
       /\ create_semantic_chunks_from_docs cfg doc (basename filepath)
          = Ok chunks
       /\ chunks <> []
       /\ (length chunks <= length embeddings)%nat
       /\ mutations t
          = [EvUpsert COLLECTION_NAME (points_of chunks embeddings) true]
       /\ map (@point_id vector) (points_of chunks embeddings)
          = map chunk_id chunks
       /\ map (@point_payload vector) (points_of chunks embeddings)
          = map payload_of chunks.
Proof.
  intros t. subst t. unfold run, process_document.
  rewrite bind_call. cbn [world trace].
  destruct (path_exists svc filepath w) as [found w1]. cbn [fst snd].
  destruct found; cbn [negb]; [|left; reflexivity].
  rewrite !bind_print. unfold try_except.
  rewrite bind_print, bind_call. cbn [world trace app].
  destruct (convert svc filepath w1) as [[doc|e] w2]; cbn [fst snd];
    [|left; reflexivity].
  rewrite bind_step.
  assert (Hsave : exists r w3 extra,
             _save_raw_doc_to_file svc debug_mode doc
               (lit "doc_structure.txt")
               (mkMachine w2
                  [EvPathExists filepath; EvPrint (LF :: rule);
                   EvPrint (lit "Processing document: " ++ basename filepath);
                   EvPrint rule; EvPrint (lit "1. Converting document...");
                   EvConvert filepath])
             = (r, mkMachine w3
                     ([EvPathExists filepath; EvPrint (LF :: rule);
                       EvPrint (lit "Processing document: "
                                  ++ basename filepath);
                       EvPrint rule;
                       EvPrint (lit "1. Converting document...");
                       EvConvert filepath] ++ extra))
             /\ mutations extra = []).
  { unfold _save_raw_doc_to_file. destruct debug_mode; cbn [negb].
    - rewrite bind_print, call_run. cbn [world trace].
      eexists _, _, [_; _]. split; reflexivity.
    - eexists _, _, []. split; reflexivity. }
  destruct Hsave as (r & w3 & extra & -> & Hextra).
  assert (Hmut : mutations
               ([EvPathExists filepath; EvPrint (LF :: rule);
                 EvPrint (lit "Processing document: " ++ basename filepath);
                 EvPrint rule; EvPrint (lit "1. Converting document...");
                 EvConvert filepath] ++ extra) = []).
  { unfold mutations in *. cbn [app filter is_mutation]. exact Hextra. }
  unfold mutations in *.
  set (before := [EvPathExists filepath; EvPrint (LF :: rule);
                  EvPrint (lit "Processing document: " ++ basename filepath);
                  EvPrint rule; EvPrint (lit "1. Converting document...");
                  EvConvert filepath] ++ extra) in *.
  clearbody before.
  destruct r as [[]|e]; [|left].
  2: { rewrite bind_print. cbn [snd trace world raise].
       now rewrite !filter_app, Hmut. }
  rewrite bind_print, bind_lift. cbn [world trace].
  destruct (create_semantic_chunks_from_docs cfg doc (basename filepath))
    as [chunks|e] eqn:Hchunks; [|left].
  2: { rewrite bind_print. cbn [snd trace world raise].
       now rewrite !filter_app, Hmut. }
  destruct chunks as [|c chunks'] eqn:Hcs.
  { left. unfold print. cbn [snd trace world].
    now rewrite !filter_app, Hmut. }
  rewrite <- Hcs in *. rewrite !bind_print, bind_call. cbn [world trace].
  destruct (embedding_encode svc (map chunk_text chunks) (BATCH_SIZE cfg) w3)
    as [[embeddings|e] w4]; cbn [fst snd]; [|left].
  2: { rewrite bind_print. cbn [snd trace world raise].
       now rewrite !filter_app, Hmut. }
  rewrite bind_print, bind_step.
  destruct (le_lt_dec (length chunks) (length embeddings)) as [Hlen|Hlen].
  - rewrite points_loop_all by assumption. cbn [fst snd].
    rewrite bind_print, bind_call. cbn [world trace].
    right. exists doc, chunks, embeddings.
    split; [reflexivity|].
    split; [assumption|]. split; [rewrite Hcs; discriminate|].
    split; [assumption|].
    assert (Hids : map (@point_id vector) (points_of chunks embeddings)
                   = map chunk_id chunks
                   /\ map (@point_payload vector)
                        (points_of chunks embeddings)
                      = map payload_of chunks).
    { clear - Hlen. unfold points_of. revert embeddings Hlen.
      induction chunks as [|c chunks IH]; intros [|v embeddings] Hlen;
        simpl in *; try lia; try (split; reflexivity).
      destruct (IH embeddings) as [H1 H2]; [lia|].
      now rewrite H1, H2. }
    split; [|exact Hids].
    destruct (upsert svc COLLECTION_NAME (points_of chunks embeddings) true w4)
      as [[[]|e] w5]; cbn [fst snd].
    + rewrite !bind_print, bind_call. cbn [world trace].
      destruct (get_collection svc COLLECTION_NAME w5) as [[info|e] w6];
        cbn [fst snd].
      * rewrite bind_print. unfold print. cbn [snd trace world].
        now rewrite !filter_app, Hmut.
      * rewrite bind_print. cbn [snd trace world raise].
        now rewrite !filter_app, Hmut.
    + rewrite bind_print. cbn [snd trace world raise].
      now rewrite !filter_app, Hmut.
  - left.
    match goal with
    | |- context [for_each chunks (point_step embeddings) ?st ?m] =>
        destruct (@points_loop_short embeddings chunks (fst st) (snd st) m)
          as (e & Hloop & _); [simpl; lia|]; cbn [fst snd] in Hloop;
        rewrite Hloop
    end.
    rewrite bind_print. cbn [snd trace world raise].
    now rewrite !filter_app, Hmut.
Qed.

(** X14.  The successful run.  When the file exists, conversion, the
    debug dump (if enabled), chunking, embedding, the upsert and the final
    reading of the collection all succeed, and the embedding model returns
    at least one embedding per chunk, [process_document] returns; it embeds
    the chunk texts once, in chunk order and with the configured batch
    size, then upserts once, waiting, one point per chunk pairing chunk k
    with embedding k; its last lines report the points count of the
    collection. *)
Theorem process_document_embeds_then_upserts (filepath : str)
  (w w1 w2 w3 w4 w5 w6 : World) (doc : document) (chunks : list chunk)
  (embeddings : list vector) (info : collection_info) :
  path_exists svc filepath w = (true, w1) ->
  convert svc filepath w1 = (Ok doc, w2) ->
  (if debug_mode
   then write_file svc (lit "doc_structure.txt") (doc_str doc) w2 = (Ok tt, w3)
   else w3 = w2) ->
  create_semantic_chunks_from_docs cfg doc (basename filepath) = Ok chunks ->
  chunks <> [] ->
  embedding_encode svc (map chunk_text chunks) (BATCH_SIZE cfg) w3
  = (Ok embeddings, w4) ->
  (length chunks <= length embeddings)%nat ->
  upsert svc COLLECTION_NAME (points_of chunks embeddings) true w4
  = (Ok tt, w5) ->
  get_collection svc COLLECTION_NAME w5 = (Ok info, w6) ->
  fst (run (process_document svc cfg debug_mode filepath) w) = Ok tt
  /\ world (snd (run (process_document svc cfg debug_mode filepath) w)) = w6
  /\ List.filter (@embeds_or_mutates vector)
       (trace (snd (run (process_document svc cfg debug_mode filepath) w)))
     = [EvEncode (map chunk_text chunks) (BATCH_SIZE cfg);
        EvUpsert COLLECTION_NAME (points_of chunks embeddings) true]
  /\ exists before,
       trace (snd (run (process_document svc cfg debug_mode filepath) w))
       = before
           ++ [EvGetCollection COLLECTION_NAME;
               EvPrint (lit "Total points in collection: "
                          ++ str_of_count (points_count info));
               EvPrint (rule ++ [LF])].
Proof.
  intros Hfound Hconvert Hsave Hchunks Hne Hencode Hlen Hupsert Hinfo.
  unfold run, process_document.
  rewrite bind_call. cbn [world trace]. rewrite Hfound. cbn [fst snd negb].
  rewrite !bind_print. unfold try_except.
  rewrite bind_print, bind_call. cbn [world trace]. rewrite Hconvert.
  cbn [fst snd]. rewrite bind_step.
  match goal with
  | |- context [_save_raw_doc_to_file svc debug_mode doc ?p ?m] =>
      assert (Hdump : exists extra,
                 _save_raw_doc_to_file svc debug_mode doc p m
                 = (Ok tt, mkMachine w3 (trace m ++ extra))
                 /\ List.filter (@embeds_or_mutates vector)
                      (trace m ++ extra) = [])
  end.
  { unfold _save_raw_doc_to_file. destruct debug_mode; cbn [negb].
    - rewrite bind_print, call_run. cbn [world trace]. rewrite Hsave.
      cbn [fst snd]. eexists [_; _]. rewrite <- app_assoc.
      split; reflexivity.
    - subst w3. exists []. rewrite app_nil_r. split; reflexivity. }
  destruct Hdump as (extra & -> & Hquiet). cbn [trace] in Hquiet |- *.
  match type of Hquiet with
  | List.filter _ ?t = [] => set (before := t) in *
  end.
  clearbody before.
  rewrite bind_print, bind_lift, Hchunks. cbn [world trace].
  destruct chunks as [|c chunks'] eqn:Hcs; [contradiction|].
  rewrite <- Hcs in *. clear Hcs c chunks'.
  rewrite !bind_print, bind_call. cbn [world trace]. rewrite Hencode.
  cbn [fst snd]. rewrite bind_print, bind_step.
  rewrite points_loop_all by assumption. cbn [fst snd].
  rewrite bind_print, bind_call. cbn [world trace]. rewrite Hupsert.
  cbn [fst snd]. rewrite !bind_print, bind_call. cbn [world trace].
  rewrite Hinfo. cbn [fst snd]. rewrite bind_print. unfold print.
  cbn [fst snd world trace].
  split; [reflexivity|]. split; [reflexivity|]. split.
  - rewrite !filter_app, Hquiet. reflexivity.
  - eexists. apply snoc3.
Qed.

(** X15.  When the embedding model returns fewer embeddings than there
    are chunks, building the points fails with an [IndexError] before
    anything is written: [process_document] raises it and its trace holds
    no upsert. *)
Theorem process_document_too_few_embeddings (filepath : str)
  (w w1 w2 w3 w4 : World) (doc : document) (chunks : list chunk)
  (embeddings : list vector) :
  path_exists svc filepath w = (true, w1) ->
  convert svc filepath w1 = (Ok doc, w2) ->
  (if debug_mode
   then write_file svc (lit "doc_structure.txt") (doc_str doc) w2 = (Ok tt, w3)
   else w3 = w2) ->
  create_semantic_chunks_from_docs cfg doc (basename filepath) = Ok chunks ->
  embedding_encode svc (map chunk_text chunks) (BATCH_SIZE cfg) w3
  = (Ok embeddings, w4) ->
  (length embeddings < length chunks)%nat ->
  (exists e,
      fst (run (process_document svc cfg debug_mode filepath) w) = Raise e
      /\ exn_class e = "IndexError")
  /\ world (snd (run (process_document svc cfg debug_mode filepath) w)) = w4
  /\ mutations
       (trace (snd (run (process_document svc cfg debug_mode filepath) w)))
     = [].
Proof.
  intros Hfound Hconvert Hsave Hchunks Hencode Hlen.
  unfold run, process_document.
  rewrite bind_call. cbn [world trace]. rewrite Hfound. cbn [fst snd negb].
  rewrite !bind_print. unfold try_except.
  rewrite bind_print, bind_call. cbn [world trace]. rewrite Hconvert.
  cbn [fst snd]. rewrite bind_step.
  match goal with
  | |- context [_save_raw_doc_to_file svc debug_mode doc ?p ?m] =>
      assert (Hdump : exists extra,
                 _save_raw_doc_to_file svc debug_mode doc p m
                 = (Ok tt, mkMachine w3 (trace m ++ extra))
                 /\ mutations (trace m ++ extra) = [])
  end.
  { unfold _save_raw_doc_to_file. destruct debug_mode; cbn [negb].
    - rewrite bind_print, call_run. cbn [world trace]. rewrite Hsave.
      cbn [fst snd]. eexists [_; _]. rewrite <- app_assoc.
      split; reflexivity.
    - subst w3. exists []. rewrite app_nil_r. split; reflexivity. }
  destruct Hdump as (extra & -> & Hquiet). cbn [trace] in Hquiet |- *.
  unfold mutations in *.
  match type of Hquiet with
  | List.filter _ ?t = [] => set (before := t) in *
  end.
  clearbody before.
  rewrite bind_print, bind_lift, Hchunks. cbn [world trace].
  destruct chunks as [|c chunks'] eqn:Hcs; [simpl in Hlen; lia|].
  rewrite <- Hcs in *. clear Hcs c chunks'.
  rewrite !bind_print, bind_call. cbn [world trace]. rewrite Hencode.
  cbn [fst snd]. rewrite bind_print, bind_step.
  match goal with
  | |- context [for_each chunks (point_step embeddings) ?st ?m] =>
      destruct (@points_loop_short embeddings chunks (fst st) (snd st) m)
        as (e & Hloop & Hclass); [simpl; lia|]; cbn [fst snd] in Hloop;
      rewrite Hloop
  end.
  rewrite bind_print. cbn [fst snd trace world raise].
  split; [now exists e|]. split; [reflexivity|].
  now rewrite !filter_app, Hquiet.
Qed.

(** The line printed after a delete that returned. *)
Definition DELETED (source : str) : str :=
  lit "--- Successfully deleted points for '" ++ source ++ lit "' ---".

(** X16.  In every world, [delete_document] prints the success line
    exactly when it returned after issuing its one delete; in particular
    not when the probe or the delete raised, and not when the probe found
    nothing.  It never issues more than that one delete and never an
    upsert, and an exception it raises is the one of the probe or of the
    delete. *)
Theorem delete_document_success_line (source : str) (w : World) :
  (In (EvPrint (DELETED source))
      (trace (snd (run (delete_document svc source) w)))
   <-> fst (run (delete_document svc source) w) = Ok tt
       /\ mutations (trace (snd (run (delete_document svc source) w)))
          = [EvDelete COLLECTION_NAME (source_filter source)])
  /\ (mutations (trace (snd (run (delete_document svc source) w))) = []
      \/ mutations (trace (snd (run (delete_document svc source) w)))
         = [EvDelete COLLECTION_NAME (source_filter source)])
  /\ (forall e,
        fst (run (delete_document svc source) w) = Raise e ->
        fst (scroll svc COLLECTION_NAME (source_filter source) 1 w) = Raise e
        \/ exists found w1,
             scroll svc COLLECTION_NAME (source_filter source) 1 w
             = (Ok found, w1)
             /\ fst (delete svc COLLECTION_NAME (source_filter source) w1)
                = Raise e).
Proof.
  unfold run, delete_document, DELETED.
  rewrite bind_print, bind_call. cbn [world trace].
  destruct (scroll svc COLLECTION_NAME (source_filter source) 1 w)
    as [[[points next_offset]|e] w1] eqn:Hprobe; cbn [fst snd app].
  - destruct points as [|p points].
    + cbn [print raise ret fst snd trace world app]. split; [|split].
      * split.
        -- intros [H|[H|[H|[]]]]; discriminate H.
        -- intros [_ H]. discriminate H.
      * now left.
      * discriminate.
    + rewrite bind_call. cbn [world trace].
      destruct (delete svc COLLECTION_NAME (source_filter source) w1)
        as [[[]|e] w2] eqn:Hdelete; cbn [print raise ret fst snd trace world app].
      * split; [|split].
        -- split; [intros _; split; reflexivity|]. intros _.
           right. right. right. now left.
        -- now right.
        -- discriminate.
      * split; [|split].
        -- split.
           ++ intros [H|[H|[H|[]]]]; discriminate H.
           ++ intros [H _]. discriminate H.
        -- now right.
        -- intros e' H. injection H as ->. right.
           exists (p :: points, next_offset), w1.
           split; [reflexivity|]. now rewrite Hdelete.
  - cbn [raise fst snd trace world]. split; [|split].
    + split.
      * intros [H|[H|[]]]; discriminate H.
      * intros [H _]. discriminate H.
    + now left.
    + intros e' H. injection H as ->. left. reflexivity.
Qed.

End PipelineRuns.

(** * More about the query path *)

Section Retrieval.
Import PyStr Py Json Template Services RagService.
Local Open Scope Z_scope.

(** The block a hit contributes to the context. *)
Definition block (h : hit) : str :=
  match hit_source h, hit_text h with
  | Some source_file, Some text =>
      (lit "[Source: " ++ source_file ++ lit "]" ++ [LF])
        ++ text ++ [LF] ++ lit "---" ++ [LF]
  | _, _ => []
  end.







Variable World : Type.
Variable vector : Type.
Variable svc : services World vector.
Variable self : RAGService.

Local Abbreviation machine := (machine World vector).


(** The calls that only read: a call to a language model, the embedding
    of a query, the reading of the collection, a search. *)
Definition reads (ev : event vector) : Prop :=
  match ev with
  | EvGenerateContent _ _ _ | EvEncodeQuery _ | EvGetCollection _
  | EvSearch _ _ _ _ => True
  | _ => False
  end.

(** The calls [rewrite_query] adds: at most the one to the model. *)
Lemma rewrite_query_calls (query : str) (m : machine) :
  exists calls,
    trace (snd (rewrite_query svc self query m)) = trace m ++ calls
    /\ Forall reads calls /\ (length calls <= 1)%nat.
Proof.
  unfold rewrite_query. rewrite bind_lift.
  destruct (format (query_rewrite_template self) [(lit "query", query)])
    as [formatted|e].
  - unfold try_except. rewrite bind_call.
    destruct (generate_content svc REWRITE_MODEL (formatted ++ REWRITE_SUFFIX)
                (Some JSON_MIME) (world m)) as [[text|e] w1]; cbn [fst snd].
    + rewrite bind_lift.
      destruct (loads_text (json_loads svc) text) as [v|e];
        [destruct (get v (lit "rewritten_query") (JStr query)) as [a|e];
         [rewrite !bind_lift; destruct (print_rewritten_query a)|]|];
        cbn [lift ret raise fst snd trace];
        (eexists [_]; split; [reflexivity|];
         split; [repeat constructor|simpl; lia]).
    + cbn [ret raise fst snd trace].
      eexists [_]; split; [reflexivity|].
      split; [repeat constructor|simpl; lia].
  - exists []. cbn [raise snd]. rewrite app_nil_r.
    split; [reflexivity|]. split; [constructor|simpl; lia].
Qed.

(** The calls [retrieve_context] adds: the embedding of the query, the
    reading of the collection and the search, each only after the one
    before returned. *)
Lemma retrieve_context_calls (query : json) (top_k : Z) (m : machine) :
  exists calls,
    trace (snd (retrieve_context svc self query top_k m)) = trace m ++ calls
    /\ Forall reads calls /\ (length calls <= 3)%nat.
Proof.
  unfold retrieve_context. rewrite bind_call.
  destruct (embedding_encode_query svc query (world m)) as [[v|e] w1];
    cbn [fst snd].
  - rewrite bind_call. cbn [world trace].
    destruct (get_collection svc (collection_name self) w1)
      as [[info|e] w2]; cbn [fst snd].
    + rewrite bind_call. cbn [world trace].
      destruct (search svc (collection_name self) v top_k true w2)
        as [[hits|e] w3]; cbn [fst snd].
      * rewrite bind_lift.
        destruct (fold_result hit_step hits ([], [])) as [st|e];
          cbn [ret raise snd trace]; rewrite <- !app_assoc;
          (eexists; split; [reflexivity|];
           split; [repeat constructor|simpl; lia]).
      * cbn [raise snd trace]. rewrite <- !app_assoc.
        eexists; split; [reflexivity|].
        split; [repeat constructor|simpl; lia].
    + cbn [raise snd trace]. rewrite <- !app_assoc.
      eexists; split; [reflexivity|].
      split; [repeat constructor|simpl; lia].
  - cbn [raise snd trace].
    eexists; split; [reflexivity|].
    split; [repeat constructor|simpl; lia].
Qed.

(** The calls [generate_answer] adds: at most the one to the model. *)
Lemma generate_answer_calls (query context : str) (m : machine) :
  exists calls,
    trace (snd (generate_answer svc self query context m)) = trace m ++ calls
    /\ Forall reads calls /\ (length calls <= 1)%nat.
Proof.
  unfold generate_answer. rewrite bind_lift.
  destruct (format (answer_synthesis_template self)
              [(lit "context", context); (lit "query", query)])
    as [prompt|e].
  - destruct (negb (nonempty context)).
    + exists []. cbn [ret snd]. rewrite app_nil_r.
      split; [reflexivity|]. split; [constructor|simpl; lia].
    + unfold try_except. rewrite bind_call.
      destruct (generate_content svc (generative_model self) prompt None
                  (world m)) as [[text|e] w1]; cbn [fst snd].
      * destruct (parse_response text) as [g|e];
          cbn [lift ret raise fst snd trace];
          (eexists [_]; split; [reflexivity|];
           split; [repeat constructor|simpl; lia]).
      * cbn [ret raise fst snd trace].
        eexists [_]; split; [reflexivity|].
        split; [repeat constructor|simpl; lia].
  - exists []. cbn [raise snd]. rewrite app_nil_r.
    split; [reflexivity|]. split; [constructor|simpl; lia].
Qed.

(** X18.  Answering a question only reads: in every world and for every
    template, [ask] adds at most five calls to the trace, each a call to a
    language model, the embedding of the query, the reading of the
    collection or the search; none upserts, deletes, embeds documents,
    converts or writes a file. *)
Theorem ask_only_reads (query : str) (m : machine) :
  exists calls,
    trace (snd (ask svc self query m)) = trace m ++ calls
    /\ Forall reads calls /\ (length calls <= 5)%nat.
Proof.
  unfold ask. rewrite bind_step.
  destruct (rewrite_query_calls query m) as (c1 & H1 & Hr1 & Hl1).
  destruct (rewrite_query svc self query m) as [[rq|e] m1];
    cbn [fst snd] in *.
  - rewrite bind_step.
    destruct (retrieve_context_calls rq 7 m1) as (c2 & H2 & Hr2 & Hl2).
    destruct (retrieve_context svc self rq 7 m1) as [[r|e] m2];
      cbn [fst snd] in *.
    + rewrite bind_step.
      destruct (generate_answer_calls query (ret_context r) m2)
        as (c3 & H3 & Hr3 & Hl3).
      assert (Hall : trace (snd (generate_answer svc self query
                                   (ret_context r) m2))
                     = trace m ++ c1 ++ c2 ++ c3
                     /\ Forall reads (c1 ++ c2 ++ c3)
                     /\ (length (c1 ++ c2 ++ c3) <= 5)%nat).
      { rewrite H3, H2, H1, <- !app_assoc. split; [reflexivity|].
        split; [|rewrite !length_app; lia].
        apply Forall_app. split; [assumption|]. now apply Forall_app. }
      exists (c1 ++ c2 ++ c3).
      destruct (generate_answer svc self query (ret_context r) m2)
        as [[g|e] m3]; exact Hall.
    + cbn [raise snd]. exists (c1 ++ c2). rewrite H2, H1, <- !app_assoc.
      split; [reflexivity|].
      split; [apply Forall_app; now split|rewrite !length_app; lia].
  - cbn [raise snd]. exists c1. split; [assumption|]. split; [assumption|lia].
Qed.

End Retrieval.

(** * The replies of the models *)

Section Replies.
Import PyStr Py Json Template Services RagService LlmJudge.
Local Open Scope Z_scope.

Variable World : Type.
Variable vector : Type.
Variable svc : services World vector.
Variable self : RAGService.

Local Abbreviation machine := (machine World vector).

(** What the reply of the synthesis model fails with: the exception of
    the call, or the one raised on a response without text. *)
Definition reply_failure (reply : result (option str)) : option exn :=
  match reply with
  | Raise e => Some e
  | Ok None =>
      match parse_response None with
      | Raise e => Some e
      | Ok _ => None
      end
  | Ok (Some _) => None
  end.

(** X19.  When the synthesis call raises, or its response carries no
    text, [generate_answer] does not raise: it returns the text of the
    exception behind a fixed prefix as the answer, with no citation, after
    the one call. *)
Theorem generate_answer_reports_failure (query context prompt : str)
  (m : machine) (reply : result (option str)) (w1 : World) (e : exn) :
  context <> [] ->
  format (answer_synthesis_template self)
    [(lit "context", context); (lit "query", query)] = Ok prompt ->
  generate_content svc (generative_model self) prompt None (world m)
  = (reply, w1) ->
  reply_failure reply = Some e ->
  generate_answer svc self query context m
  = (Ok (mkGeneration
           (lit "An error occurred while generating the answer: "
              ++ exn_text e) []),
     mkMachine w1
       (trace m ++ [EvGenerateContent (generative_model self) prompt None])).
Proof.
  intros Hctx Hformat Hcall Hfail. unfold generate_answer.
  rewrite bind_lift, Hformat.
  destruct context as [|c context]; [contradiction|]. cbn [nonempty negb].
  unfold try_except. rewrite bind_call, Hcall. cbn [fst snd].
  destruct reply as [[text|]|e']; cbn [reply_failure] in Hfail.
  - discriminate.
  - cbn [lift parse_response] in *. injection Hfail as <-. reflexivity.
  - injection Hfail as ->. reflexivity.
Qed.

(** What [judge_answer] makes of the reply of the judge model. *)
Definition verdict_of (reply : result (option str)) : json :=
  match reply with
  | Raise e => failure_evaluation e
  | Ok text =>
      match loads_text (json_loads svc) text with
      | Ok evaluation => evaluation
      | Raise e => failure_evaluation e
      end
  end.

(** One run of [judge_answer]. *)
Lemma judge_answer_run
  (original_query rewritten_query context answer : str) (m : machine) :
  judge_answer svc original_query rewritten_query context answer m
  = (Ok (verdict_of
           (fst (generate_content svc judge_model
                   (_create_judge_prompt original_query rewritten_query
                      context answer) (Some JSON_MIME) (world m)))),
     mkMachine
       (snd (generate_content svc judge_model
               (_create_judge_prompt original_query rewritten_query
                  context answer) (Some JSON_MIME) (world m)))
       (trace m
          ++ [EvGenerateContent judge_model
                (_create_judge_prompt original_query rewritten_query
                   context answer) (Some JSON_MIME)])).
Proof.
  unfold judge_answer, try_except. rewrite bind_call.
  destruct (generate_content svc judge_model _ (Some JSON_MIME) (world m))
    as [[text|e] w1]; cbn [fst snd verdict_of]; [|reflexivity].
  now destruct (loads_text (json_loads svc) text).
Qed.

(** X20.  [judge_answer] returns in every world, after exactly one call,
    to the judge model with the judge prompt and the JSON response type.
    When the call raises, it returns the failure evaluation of that
    exception; when the call returns a response that [json.loads] rejects
    (or that carries no text), the failure evaluation of the exception of
    the parse; and when the response parses, the parsed value itself. *)
Theorem judge_answer_always_returns
  (original_query rewritten_query context answer : str) (m : machine) :
  let prompt :=
    _create_judge_prompt original_query rewritten_query context answer in
  let judged :=
    judge_answer svc original_query rewritten_query context answer m in
  let after w1 :=
    mkMachine w1
      (trace m ++ [EvGenerateContent judge_model prompt (Some JSON_MIME)]) in
  match generate_content svc judge_model prompt (Some JSON_MIME) (world m)
  with
  | (Raise e, w1) => judged = (Ok (failure_evaluation e), after w1)
  | (Ok text, w1) =>
      match loads_text (json_loads svc) text with
      | Ok evaluation => judged = (Ok evaluation, after w1)
      | Raise e => judged = (Ok (failure_evaluation e), after w1)
      end
  end.
Proof.
  intros prompt judged after. subst prompt judged after.
  rewrite judge_answer_run.
  destruct (generate_content svc judge_model _ (Some JSON_MIME) (world m))
    as [[text|e] w1]; cbn [fst snd verdict_of]; [|reflexivity].
  now destruct (loads_text (json_loads svc) text).
Qed.

(** The line that shows the value can be written: the value is not a
    string that holds a surrogate. *)
Definition printable (v : json) : bool :=
  match v with
  | JStr s => encodable s
  | _ => true
  end.

Lemma print_rewritten_query_cases (v : json) :
  if printable v
  then print_rewritten_query v = Ok tt
  else exists e,
      print_rewritten_query v = Raise e
      /\ exn_class e = "UnicodeEncodeError".
Proof.
  destruct v as [| | | |s| |]; try reflexivity.
  cbn [printable print_rewritten_query].
  assert (Hline : encodable (lit "   ...Rewritten query: '" ++ s ++ lit "'")
                  = encodable s).
  { rewrite !encodable_app, !encodable_lit. cbn [andb].
    now rewrite andb_true_r. }
  destruct (encodable s) eqn:Hs.
  - now rewrite (encode_encodable _ Hline).
  - destruct (encode_not_encodable _ Hline) as (e & -> & He).
    now exists e.
Qed.

(** X21.  When the response of the rewriting model parses to an object
    with the key [rewritten_query], [rewrite_query] returns the value
    bound to it, of whatever JSON type, unless the line that shows the
    value cannot be written: a string value that holds a surrogate makes
    the print inside the [try] raise, and then the original query is
    returned.  [ask] retrieves with what [rewrite_query] returned. *)
Theorem rewrite_query_returns_model_value (query formatted text : str)
  (m : machine) (w1 : World) (items : list (str * json)) (value : json) :
  format (query_rewrite_template self) [(lit "query", query)] = Ok formatted ->
  generate_content svc REWRITE_MODEL (formatted ++ REWRITE_SUFFIX)
    (Some JSON_MIME) (world m) = (Ok (Some text), w1) ->
  json_loads svc text = Ok (JDict items) ->
  lookup (lit "rewritten_query") items = Some value ->
  let returned := if printable value then value else JStr query in
  let m1 :=
    mkMachine w1
      (trace m ++ [EvGenerateContent REWRITE_MODEL
                     (formatted ++ REWRITE_SUFFIX) (Some JSON_MIME)]) in
  rewrite_query svc self query m = (Ok returned, m1)
  /\ ask svc self query m
     = bind (retrieve_context svc self returned 7)
         (fun r =>
            bind (generate_answer svc self query (ret_context r))
              (fun g =>
                 ret (mkInteraction query returned (ret_context r)
                        (gen_answer g) (gen_cited_docs g) (ret_sources r))))
         m1.
Proof.
  intros Hformat Hcall Hloads Hvalue returned m1.
  assert (Hrewrite : rewrite_query svc self query m = (Ok returned, m1)).
  { unfold rewrite_query. rewrite bind_lift, Hformat.
    unfold try_except. rewrite bind_call, Hcall. cbn [fst snd].
    rewrite bind_lift. cbn [loads_text]. rewrite Hloads.
    cbn [get]. rewrite Hvalue, !bind_lift. subst returned.
    pose proof (print_rewritten_query_cases value) as Hprint.
    destruct (printable value).
    - now rewrite Hprint.
    - destruct Hprint as (e & -> & _). reflexivity. }
  split; [assumption|].
  unfold ask. rewrite bind_step, Hrewrite. reflexivity.
Qed.

End Replies.

(** * Parsing the response of the synthesis model *)

Section Parse.
Import PyStr Py RagService.

Lemma startswith_split (p s : str) :
  startswith p s = true -> exists rest, s = p ++ rest.
Proof.
  revert s. induction p as [|a p IH]; intros s H; [now exists s|].
  destruct s as [|b s]; [discriminate|]. cbn [startswith] in H.
  apply andb_true_iff in H as [Hab H]. apply N.eqb_eq in Hab. subst b.
  destruct (IH s H) as [rest ->]. now exists rest.
Qed.

(** The text before the first occurrence of a non-empty [sub]. *)
Lemma first_occurrence (a : char) (sub s : str) :
  contains (a :: sub) s = true ->
  exists before rest,
    s = before ++ (a :: sub) ++ rest /\ contains (a :: sub) before = false.
Proof.
  induction s as [|c s IH]; intros H; [discriminate|].
  cbn [contains] in H. destruct (startswith (a :: sub) (c :: s)) eqn:Hs.
  - destruct (startswith_split _ _ Hs) as [rest Hrest].
    exists [], rest. split; [exact Hrest|reflexivity].
  - cbn [orb] in H. destruct (IH H) as (before & rest & -> & Hfree).
    exists (c :: before), rest. split; [reflexivity|].
    cbn [contains]. rewrite Hfree, orb_false_r.
    destruct (startswith (a :: sub) (c :: before)) eqn:Hb; [|reflexivity].
    apply (startswith_app_r _ _ ((a :: sub) ++ rest)) in Hb.
    cbn [app] in Hb, Hs. congruence.
Qed.

(** A split has at least one piece. *)
Lemma split_sep_scan_head (sep s : str) :
  forall skip part, exists p ps, split_sep_scan sep s skip part = p :: ps.
Proof.
  induction s as [|c s IH]; intros skip part; [now exists part, []|].
  cbn [split_sep_scan]. destruct skip as [|k]; [|apply IH].
  destruct (startswith sep (c :: s)); [now eexists _, _|apply IH].
Qed.

(** X22.  The parse of a response that carries a text never fails, so
    the [IndexError] of [parts[1]] cannot occur: a text that contains the
    delimiter splits in at least two parts.  The answer is the text before
    the first delimiter, stripped, and contains no delimiter; without a
    delimiter it is the whole text, stripped, and nothing is cited. *)
Theorem parse_response_total (text : str) :
  exists g before rest,
    parse_response (Some text) = Ok g
    /\ gen_answer g = strip before
    /\ contains CITATIONS before = false
    /\ contains CITATIONS (gen_answer g) = false
    /\ (if contains CITATIONS text
        then text = before ++ CITATIONS ++ rest
        else text = before /\ gen_cited_docs g = []).
Proof.
  unfold parse_response. destruct (contains CITATIONS text) eqn:Hc.
  - destruct (@first_occurrence LF (lit "Citations:") text Hc)
      as (before & rest & Htext & Hfree).
    change (LF :: lit "Citations:") with CITATIONS in *.
    subst text. unfold split_sep.
    rewrite (@split_at_first_delimiter before rest Hfree []).
    destruct (split_sep_scan_head CITATIONS rest 0 []) as (p & ps & ->).
    cbn [app index nth_error rbind].
    eexists _, before, rest. split; [reflexivity|]. cbn [gen_answer].
    split; [reflexivity|]. split; [assumption|]. split; [|reflexivity].
    destruct (contains CITATIONS (strip before)) eqn:Hs; [|reflexivity].
    apply contains_strip in Hs. congruence.
  - eexists _, text, []. split; [reflexivity|]. cbn [gen_answer gen_cited_docs].
    split; [reflexivity|]. split; [assumption|]. split; [|now split].
    destruct (contains CITATIONS (strip text)) eqn:Hs; [|reflexivity].
    apply contains_strip in Hs. congruence.
Qed.

(** A document name that survives the parse of its bullet: not empty, on
    one line, with no white space at either end and no dash or blank in
    front. *)
Definition clean (name : str) : bool :=
  match name with
  | [] => false
  | c :: _ =>
      negb (isspace c) && negb (c =? 45)%N
      && negb (isspace (last name 0%N))
      && forallb (fun x => negb (x =? 10)%N) name
  end.

(** The citation block for [names]: one bullet per line. *)
Definition bullets (names : list str) : str :=
  flat_map (fun name => [LF] ++ lit "- " ++ name) names.

Definition one_line (s : str) : bool := forallb (fun x => negb (x =? 10)%N) s.

Lemma clean_cases (name : str) :
  clean name = true ->
  exists c rest,
    name = c :: rest /\ isspace c = false /\ (c =? 45)%N = false
    /\ isspace (last name 0%N) = false /\ one_line name = true.
Proof.
  unfold clean. destruct name as [|c rest]; [discriminate|]. intros H.
  apply andb_true_iff in H as [H Hline].
  apply andb_true_iff in H as [H Hlast].
  apply andb_true_iff in H as [Hspace Hdash].
  exists c, rest. rewrite negb_true_iff in *. now repeat split.
Qed.

Lemma one_line_no_delimiter (x y : str) :
  one_line x = true ->
  contains CITATIONS y = false -> contains CITATIONS (x ++ y) = false.
Proof.
  intros Hx Hy. induction x as [|c x IH]; [assumption|].
  cbn [one_line forallb] in Hx. apply andb_true_iff in Hx as [Hc Hx].
  cbn [app contains]. rewrite (IH Hx), orb_false_r.
  change CITATIONS with (LF :: lit "Citations:"). cbn [startswith].
  apply negb_true_iff in Hc. rewrite N.eqb_sym in Hc.
  change LF with 10%N. now rewrite Hc.
Qed.

Lemma bullets_no_delimiter (names : list str) :
  forallb clean names = true -> contains CITATIONS (bullets names) = false.
Proof.
  induction names as [|name names IH]; intros H; [reflexivity|].
  cbn [forallb] in H. apply andb_true_iff in H as [Hname H].
  destruct (clean_cases _ Hname) as (c & rest & _ & _ & _ & _ & Hline).
  cbn [bullets flat_map].
  change (([LF] ++ lit "- " ++ name) ++ flat_map _ names)
    with (LF :: (45 :: 32 :: name ++ bullets names))%N.
  cbn [contains].
  replace (startswith CITATIONS (LF :: 45 :: 32 :: name ++ bullets names)%N)
    with false by reflexivity.
  cbn [orb].
  apply (@one_line_no_delimiter (45 :: 32 :: name)%N (bullets names));
    [exact Hline|now apply IH].
Qed.

(** A text without the separator is one piece. *)
Lemma split_sep_scan_free (sep s : str) :
  forall part,
    contains sep s = false -> split_sep_scan sep s 0 part = [part ++ s].
Proof.
  induction s as [|c s IH]; intros part H.
  - now rewrite app_nil_r.
  - cbn [contains] in H. apply orb_false_iff in H as [Hhere Hlater].
    cbn [split_sep_scan]. rewrite Hhere, (IH _ Hlater).
    now rewrite <- app_assoc.
Qed.

Lemma one_line_free (s : str) :
  one_line s = true -> contains [LF] s = false.
Proof.
  induction s as [|c s IH]; intros H; [reflexivity|].
  cbn [one_line forallb] in H. apply andb_true_iff in H as [Hc H].
  cbn [contains startswith]. rewrite (IH H), orb_false_r.
  apply negb_true_iff in Hc. rewrite N.eqb_sym in Hc.
  change LF with 10%N. now rewrite Hc.
Qed.

(** Splitting lines: the piece up to the first line feed. *)
Lemma split_lines_first (l rest : str) :
  forall part,
    one_line l = true ->
    split_sep_scan [LF] (l ++ LF :: rest) 0 part
    = (part ++ l) :: split_sep_scan [LF] rest 0 [].
Proof.
  induction l as [|c l IH]; intros part H.
  - rewrite app_nil_r. cbn [app split_sep_scan startswith].
    rewrite N.eqb_refl. reflexivity.
  - cbn [one_line forallb] in H. apply andb_true_iff in H as [Hc H].
    cbn [app split_sep_scan startswith].
    apply negb_true_iff in Hc. rewrite N.eqb_sym in Hc.
    change LF with 10%N in *. rewrite Hc. cbn [andb].
    rewrite (IH _ H). now rewrite <- app_assoc.
Qed.

Definition bullet (name : str) : str := lit "- " ++ name.

Lemma split_lines_bullets (names : list str) :
  forall (l part : str),
    one_line l = true ->
    forallb clean names = true ->
    split_sep_scan [LF] (l ++ bullets names) 0 part
    = (part ++ l) :: map bullet names.
Proof.
  induction names as [|name names IH]; intros l part Hl H.
  - cbn [bullets flat_map map]. rewrite app_nil_r.
    apply split_sep_scan_free. now apply one_line_free.
  - cbn [forallb] in H. apply andb_true_iff in H as [Hname H].
    destruct (clean_cases _ Hname) as (c & rest & _ & _ & _ & _ & Hline).
    cbn [bullets flat_map map].
    change (([LF] ++ lit "- " ++ name) ++ flat_map _ names)
      with (LF :: (bullet name ++ bullets names)).
    rewrite (@split_lines_first l (bullet name ++ bullets names) part Hl).
    f_equal. apply (IH (bullet name) []); assumption.
Qed.

Lemma rstrip_clean (s : str) :
  s <> [] -> isspace (last s 0%N) = false -> rstrip s = s.
Proof.
  intros Hne Hlast. unfold rstrip.
  assert (exists body z, s = body ++ [z] /\ isspace z = false)
    as (body & z & -> & Hz).
  { exists (removelast s), (last s 0%N).
    split; [now apply app_removelast_last|assumption]. }
  rewrite rev_app_distr. cbn [rev app dropwhile]. rewrite Hz.
  cbn [rev]. now rewrite rev_involutive.
Qed.

Lemma strip_clean (c : char) (s : str) :
  isspace c = false -> isspace (last (c :: s) 0%N) = false ->
  strip (c :: s) = c :: s.
Proof.
  intros Hc Hlast. unfold strip, lstrip. cbn [dropwhile]. rewrite Hc.
  now apply rstrip_clean.
Qed.

Lemma last_app_nonempty (x y : str) :
  y <> [] -> last (x ++ y) 0%N = last y 0%N.
Proof.
  intros Hy. induction x as [|a x IH]; [reflexivity|].
  cbn [app]. destruct (x ++ y) eqn:Hxy.
  - apply app_eq_nil in Hxy as [_ ->]. contradiction.
  - rewrite <- IH. reflexivity.
Qed.

Lemma bullets_last (names : list str) :
  forall (x name : str),
    clean name = true -> forallb clean names = true ->
    isspace (last (x ++ name ++ bullets names) 0%N) = false.
Proof.
  induction names as [|next names IH]; intros x name Hname H.
  - destruct (clean_cases _ Hname) as (c & rest & -> & _ & _ & Hlast & _).
    cbn [bullets flat_map]. rewrite app_nil_r.
    rewrite last_app_nonempty; [assumption|discriminate].
  - cbn [forallb] in H. apply andb_true_iff in H as [Hnext H].
    cbn [bullets flat_map].
    change (([LF] ++ lit "- " ++ next) ++ flat_map _ names)
      with (([LF] ++ lit "- ") ++ next ++ bullets names).
    rewrite !app_assoc. rewrite <- (app_assoc _ next).
    now apply IH.
Qed.

Lemma strip_bullets (name : str) (names : list str) :
  clean name = true -> forallb clean names = true ->
  strip (bullets (name :: names)) = bullet name ++ bullets names.
Proof.
  intros Hname H. cbn [bullets flat_map].
  change (([LF] ++ lit "- " ++ name) ++ flat_map _ names)
    with (LF :: (45 :: (32 :: name ++ bullets names)))%N.
  unfold strip, lstrip.
  replace (dropwhile isspace (LF :: 45 :: 32 :: name ++ bullets names)%N)
    with (45 :: (32 :: name ++ bullets names))%N by reflexivity.
  apply rstrip_clean; [discriminate|].
  exact (@bullets_last names [45; 32]%N name Hname H).
Qed.

Lemma bullet_parsed (name : str) :
  clean name = true ->
  nonempty (strip (bullet name)) = true
  /\ strip (lstrip_chars (lit "- ") (strip (bullet name))) = name.
Proof.
  intros Hname.
  destruct (clean_cases _ Hname) as (c & rest & -> & Hc & Hdash & Hlast & _).
  assert (Hstrip : strip (bullet (c :: rest)) = bullet (c :: rest)).
  { change (bullet (c :: rest)) with (45 :: ([32] ++ c :: rest))%N.
    apply strip_clean; [reflexivity|].
    change (45 :: [32] ++ c :: rest)%N with ([45; 32] ++ c :: rest)%N.
    rewrite last_app_nonempty; [assumption|discriminate]. }
  rewrite Hstrip. split; [reflexivity|].
  change (bullet (c :: rest)) with (45 :: 32 :: c :: rest)%N.
  unfold lstrip_chars.
  change (lit "- ") with [45; 32]%N. cbn [dropwhile existsb].
  rewrite !N.eqb_refl. cbn [orb]. rewrite Hdash.
  assert (H32 : (c =? 32)%N = false).
  { destruct (N.eqb_spec c 32) as [->|]; [discriminate Hc|reflexivity]. }
  rewrite H32. cbn [orb]. now apply strip_clean.
Qed.

Lemma bullets_parsed (names : list str) :
  forallb clean names = true ->
  map (fun line => strip (lstrip_chars (lit "- ") (strip line)))
    (List.filter (fun line => nonempty (strip line)) (map bullet names))
  = names.
Proof.
  induction names as [|name names IH]; intros H; [reflexivity|].
  cbn [forallb] in H. apply andb_true_iff in H as [Hname H].
  destruct (@bullet_parsed name Hname) as [Hkeep Hback].
  cbn [map List.filter]. rewrite Hkeep. cbn [map].
  now rewrite Hback, (IH H).
Qed.

(** X23.  Citations round trip.  A response made of an answer part free
    of the delimiter, the delimiter, and one bullet line per document
    name parses to that answer, stripped, and to exactly these names, in
    order, for any number of clean names. *)
Theorem citations_round_trip (A : str) (names : list str) :
  contains CITATIONS A = false ->
  forallb clean names = true ->
  parse_response (Some (A ++ CITATIONS ++ bullets names))
  = Ok (mkGeneration (strip A) names).
Proof.
  intros Hfree Hclean. unfold parse_response.
  rewrite (contains_app_l CITATIONS A (CITATIONS ++ bullets names))
    by (apply contains_app_r; reflexivity).
  unfold split_sep.
  rewrite (@split_at_first_delimiter A (bullets names) Hfree []).
  rewrite (@split_sep_scan_free CITATIONS (bullets names) []
             (bullets_no_delimiter names Hclean)).
  cbn [app index nth_error rbind]. f_equal. f_equal.
  destruct names as [|name names]; [reflexivity|].
  cbn [forallb] in Hclean. apply andb_true_iff in Hclean as [Hname Hnames].
  rewrite (@strip_bullets name names Hname Hnames).
  unfold split_sep.
  assert (Hline : one_line (bullet name) = true).
  { destruct (clean_cases _ Hname) as (c & rest & _ & _ & _ & _ & Hline).
    exact Hline. }
  rewrite (@split_lines_bullets names (bullet name) [] Hline Hnames).
  cbn [app].
  change (bullet name :: map bullet names) with (map bullet (name :: names)).
  apply bullets_parsed. cbn [forallb]. now rewrite Hname, Hnames.
Qed.

End Parse.

(** * The application *)

Section UploadPath.
Import PyStr Py Ingestion App.

Lemma basename_scan_after_slash (x y tail : str) :
  basename_scan (x ++ lit "/" ++ y) tail = basename_scan y [].
Proof.
  revert tail. induction x as [|c x IH]; intros tail; [reflexivity|].
  cbn [app basename_scan]. destruct (c =? 47)%N; apply IH.
Qed.

Lemma ends_with_slash (a : str) (c : char) (rest : list char) :
  rev a = c :: rest -> (c =? 47)%N = true ->
  exists x, a = x ++ lit "/".
Proof.
  intros Hrev Hc. apply N.eqb_eq in Hc. subst c.
  exists (rev rest). rewrite <- (rev_involutive a), Hrev. reflexivity.
Qed.

(** X24.  The source recorded for an upload does not depend on the
    temporary directory: the base name of the path the upload is written
    to is the base name of the uploaded file name.  A file name that
    starts with a slash is written to that absolute path, not into the
    temporary directory.  Any other file name is put behind the name of
    the temporary directory as it is, after a slash when the directory
    name is not empty and does not end with one; nothing is resolved or
    removed, so a file name with [..] segments is kept with them. *)
Theorem upload_path_base_name (temp_dir filename : str) :
  basename (path_join temp_dir filename) = basename filename
  /\ (startswith (lit "/") filename = true ->
      path_join temp_dir filename = filename)
  /\ (startswith (lit "/") filename = false ->
      path_join temp_dir filename
      = temp_dir
          ++ (if match rev temp_dir with
                 | [] => true
                 | c :: _ => (c =? 47)%N
                 end
              then []
              else lit "/")
          ++ filename).
Proof.
  unfold path_join. destruct (startswith (lit "/") filename) eqn:Habs.
  - split; [reflexivity|]. split; [reflexivity|discriminate].
  - split; [|split; [discriminate|intros _]].
    + destruct (rev temp_dir) as [|c rest] eqn:Hrev.
      * apply (f_equal (@rev char)) in Hrev. rewrite rev_involutive in Hrev.
        now rewrite Hrev.
      * destruct (c =? 47)%N eqn:Hc.
        -- destruct (ends_with_slash _ Hrev Hc) as [x ->].
           rewrite <- app_assoc. apply basename_scan_after_slash.
        -- apply basename_scan_after_slash.
    + destruct (rev temp_dir) as [|c rest]; [|destruct (c =? 47)%N];
        reflexivity.
Qed.

End UploadPath.

Section AppSteps.
Import Py App.
Variable World : Type.
Variable vector : Type.

Local Abbreviation IO := (IO World vector).
Local Abbreviation process := (process World vector).

Lemma io_bind_step {A B} (c : IO A) (k : A -> IO B) (p : process) :
  bind c k p
  = match c p with
    | (Ok a, p') => k a p'
    | (Raise e, p') => (Raise e, p')
    end.
Proof. reflexivity. Qed.

Lemma io_bind_print {B} (line : PyStr.str) (k : unit -> IO B) (p : process) :
  bind (print line) k p
  = k tt (mkProcess (outside p)
            (calls p ++ [OpService (Services.EvPrint line)]) (judge p)).
Proof. reflexivity. Qed.

Lemma io_bind_lift {A B} (r : result A) (k : A -> IO B) (p : process) :
  bind (lift r) k p
  = match r with Ok a => k a p | Raise e => (Raise e, p) end.
Proof. unfold bind, lift. now destruct r. Qed.

Lemma io_call_run {A} (o : op vector) (f : Services.reply World A)
  (p : process) :
  call o f p
  = (fst (f (outside p)),
     mkProcess (snd (f (outside p))) (calls p ++ [o]) (judge p)).
Proof. unfold call. now destruct (f (outside p)). Qed.

Lemma io_bind_call {A B} (o : op vector) (f : Services.reply World A)
  (k : A -> IO B) (p : process) :
  bind (call o f) k p
  = match fst (f (outside p)) with
    | Ok a => k a (mkProcess (snd (f (outside p))) (calls p ++ [o]) (judge p))
    | Raise e =>
        (Raise e, mkProcess (snd (f (outside p))) (calls p ++ [o]) (judge p))
    end.
Proof. unfold bind. rewrite io_call_run. now destruct (fst (f (outside p))). Qed.

Lemma io_base_run {A} (c : Services.M World vector A) (p : process) :
  base c p
  = (fst (Services.run c (outside p)),
     mkProcess (Services.world (snd (Services.run c (outside p))))
       (calls p
          ++ map (@OpService vector)
               (Services.trace (snd (Services.run c (outside p)))))
       (judge p)).
Proof. unfold base. now destruct (Services.run c (outside p)). Qed.

End AppSteps.

Section Tasks.
Import PyStr Py Json App.
Local Open Scope app_scope.
Variable World : Type.
Variable vector : Type.
Variable sys : system World.
Variable svc : Services.services World vector.

Local Abbreviation process := (process World vector).

(** X25.  The judge is built once.  With a judge in the global,
    [get_judge] returns it without any call; a [get_judge] that returns
    leaves its judge in the global, so the next one returns the same judge
    without any call; a [get_judge] that raises, because the constructor
    did, leaves the global empty, so the next one builds again. *)
Theorem get_judge_builds_once (p : process) :
  (forall j, judge p = Some j -> get_judge sys p = (Ok j, p))
  /\ (forall j p1,
        get_judge sys p = (Ok j, p1) ->
        judge p1 = Some j /\ get_judge sys p1 = (Ok j, p1))
  /\ (forall e p1,
        get_judge sys p = (Raise e, p1) ->
        judge p = None /\ judge p1 = None).
Proof.
  assert (Hcached : forall (q : process) j,
             judge q = Some j -> get_judge sys q = (Ok j, q)).
  { intros q j Hj. unfold get_judge, read_judge.
    rewrite io_bind_step, Hj. reflexivity. }
  split; [apply Hcached|].
  unfold get_judge at 1 3. unfold read_judge. rewrite io_bind_step.
  destruct (judge p) as [j0|] eqn:Hj.
  - split.
    + intros j p1 H. injection H as <- <-. split; [assumption|].
      now apply Hcached.
    + discriminate.
  - rewrite io_bind_step. unfold LLMJudge_init.
    rewrite io_bind_call.
    destruct (load_dotenv sys (outside p)) as [[[]|e0] w1]; cbn [fst snd].
    2: { split; [discriminate|]. intros e p1 H. injection H as <- <-.
         now split. }
    rewrite io_bind_call. cbn [outside calls judge].
    destruct (getenv sys GOOGLE_API_KEY w1) as [[key|e0] w2]; cbn [fst snd].
    2: { split; [discriminate|]. intros e p1 H. injection H as <- <-.
         now split. }
    destruct (truthy key); cbn [negb].
    2: { split; [discriminate|]. intros e p1 H. injection H as <- <-.
         now split. }
    rewrite io_bind_call. cbn [outside calls judge].
    destruct (new_client sys w2) as [[[]|e0] w3]; cbn [fst snd].
    2: { split; [discriminate|]. intros e p1 H. injection H as <- <-.
         now split. }
    rewrite io_bind_print. cbn [ret assign_judge bind outside calls judge].
    split; [|discriminate].
    intros j p1 H. injection H as <- <-. cbn [judge].
    split; [reflexivity|]. now apply Hcached.
Qed.

(** The entry [judge_and_log_task] logs, with its time stamp. *)
Definition log_line (original_query : str) (rewritten_query : json)
  (context : str) (generation_results : list (str * json))
  (evaluation : json) (stamp : str) : str :=
  dumps sys
    (JDict
       [(lit "original_query", JStr original_query);
        (lit "rewritten_query", rewritten_query);
        (lit "retrieved_context", JStr context);
        (lit "generated_answer", JDict generation_results);
        (lit "evaluation", evaluation);
        (lit "timestamp", JStr stamp)])
    ++ [LF].

(** X26.  A failed judgement is logged like any other.  With the judge
    built, an answer among the generation results, and the clock and the
    log file working, [judge_and_log_task] returns after one call to the
    judge model and one line appended to the log, whatever the judge
    model replied: the entry carries the parsed evaluation, or the failure
    evaluation when the call raised or its response did not parse. *)
Theorem judge_and_log_task_logs_every_verdict
  (original_query answer : str) (rewritten_query : json) (context : str)
  (generation_results : list (str * json)) (p : process) (j : LLMJudge)
  (reply : result (option str)) (w1 w2 w3 w4 : World) (stamp : str) :
  judge p = Some j ->
  lookup (lit "answer") generation_results = Some (JStr answer) ->
  let prompt :=
    LlmJudge._create_judge_prompt original_query
      (format_value sys rewritten_query) context answer in
  let line :=
    log_line original_query rewritten_query context generation_results
      (verdict_of svc reply) stamp in
  Services.generate_content svc LlmJudge.judge_model prompt
    (Some RagService.JSON_MIME) (outside p) = (reply, w1) ->
  now_isoformat sys w1 = (Ok stamp, w2) ->
  open_file sys LOG_FILE (lit "a") w2 = (Ok tt, w3) ->
  write sys LOG_FILE line w3 = (Ok tt, w4) ->
  judge_and_log_task sys svc original_query rewritten_query context
    generation_results p
  = (Ok tt,
     mkProcess w4
       (calls p
          ++ [OpService
                (Services.EvGenerateContent LlmJudge.judge_model prompt
                   (Some RagService.JSON_MIME));
              OpNow; OpOpen LOG_FILE (lit "a"); OpWrite LOG_FILE line;
              OpService
                (Services.EvPrint
                   (lit "Successfully logged evaluation for query."))])
       (Some j)).
Proof.
  intros Hjudge Hanswer prompt line Hreply Hnow Hopen Hwrite.
  unfold judge_and_log_task.
  rewrite io_bind_step.
  unfold get_judge, read_judge. rewrite io_bind_step, Hjudge.
  cbn [ret]. rewrite io_bind_lift. unfold getitem_dict. rewrite Hanswer.
  rewrite io_bind_step, io_base_run. cbn [format_value].
  unfold Services.run.
  pose proof (@judge_answer_run World vector svc original_query
                (format_value sys rewritten_query) context answer
                (Services.mkMachine (outside p) [])) as Hrun.
  cbn [Services.world Services.trace] in Hrun.
  fold prompt in Hrun. rewrite Hreply in Hrun. cbn [fst snd] in Hrun.
  rewrite Hrun. cbn [fst snd Services.world Services.trace app map].
  unfold _log_evaluation. rewrite io_bind_call. cbn [outside calls judge].
  rewrite Hnow. cbn [fst snd].
  replace (setitem (lit "timestamp") (JStr stamp) _)
    with [(lit "original_query", JStr original_query);
          (lit "rewritten_query", rewritten_query);
          (lit "retrieved_context", JStr context);
          (lit "generated_answer", JDict generation_results);
          (lit "evaluation", verdict_of svc reply);
          (lit "timestamp", JStr stamp)] by reflexivity.
  rewrite io_bind_call. cbn [outside calls judge]. rewrite Hopen.
  cbn [fst snd]. rewrite io_bind_call. cbn [outside calls judge].
  fold (log_line original_query rewritten_query context generation_results
          (verdict_of svc reply) stamp).
  fold line. rewrite Hwrite. cbn [fst snd]. unfold print.
  cbn [outside calls judge]. rewrite Hjudge.
  now rewrite <- !app_assoc.
Qed.

End Tasks.

Section Api.
Import PyStr Py Json App.
Local Open Scope app_scope.
Variable World : Type.
Variable vector : Type.
Variable sys : system World.
Variable svc : Services.services World vector.
Variable rag_service : RagService.RAGService.

Local Abbreviation process := (process World vector).

(** The result of [ask] carries the query it was asked. *)
Lemma ask_keeps_query (query : str) (m m' : Services.machine World vector)
  (i : RagService.interaction) :
  RagService.ask svc rag_service query m = (Ok i, m') ->
  RagService.original_query i = query.
Proof.
  unfold RagService.ask. rewrite bind_step.
  destruct (RagService.rewrite_query svc rag_service query m)
    as [[rq|e] m1]; [|discriminate].
  rewrite bind_step.
  destruct (RagService.retrieve_context svc rag_service rq 7 m1)
    as [[r|e] m2]; [|discriminate].
  rewrite bind_step.
  destruct (RagService.generate_answer svc rag_service query
              (RagService.ret_context r) m2) as [[g|e] m3]; [|discriminate].
  cbn [Services.ret]. intros H. injection H as <- _. reflexivity.
Qed.

(** What [ask_question] hands to the task queue and what it answers. *)
Definition judged (i : RagService.interaction) : list (str * json) :=
  [(lit "answer", JStr (RagService.answer i));
   (lit "cited_docs", strings (RagService.cited_docs i))].

Definition answered (i : RagService.interaction) : json :=
  JDict
    [(lit "answer", JStr (RagService.answer i));
     (lit "cited_docs", strings (RagService.cited_docs i));
     (lit "referenced_docs", strings (RagService.referenced_docs i))].

(** X27.  [ask_question] in every world.  When [ask] raises, the
    exception reaches the caller and no task is queued.  When [ask]
    returns, one task is queued, after the calls of [ask], with the query
    as asked, the rewritten query, the context, and the answer with its
    citations; the response then has the answer, the cited and the
    referenced documents, and neither the rewritten query nor the context;
    when queueing raises, that exception reaches the caller instead of
    the answer. *)
Theorem ask_question_queues_after_answer (query : str) (p : process) :
  match Services.run (RagService.ask svc rag_service query) (outside p) with
  | (Raise e, m) =>
      ask_question sys svc rag_service query p
      = (Raise e,
         mkProcess (Services.world m)
           (calls p ++ map (@OpService vector) (Services.trace m)) (judge p))
  | (Ok i, m) =>
      let queued :=
        delay sys query (RagService.rewritten_query i) (RagService.context i)
          (judged i) (Services.world m) in
      RagService.original_query i = query
      /\ ask_question sys svc rag_service query p
         = (match fst queued with
            | Ok _ => Ok (answered i)
            | Raise e => Raise e
            end,
            mkProcess (snd queued)
              (calls p ++ map (@OpService vector) (Services.trace m)
                 ++ [OpDelay query (RagService.rewritten_query i)
                       (RagService.context i) (judged i)])
              (judge p))
  end.
Proof.
  unfold ask_question. rewrite io_bind_step, io_base_run.
  destruct (Services.run (RagService.ask svc rag_service query) (outside p))
    as [[i|e] m] eqn:Hask; cbn [fst snd]; [|reflexivity].
  pose proof (ask_keeps_query _ _ Hask) as Hquery.
  split; [assumption|]. rewrite Hquery.
  rewrite io_bind_call. cbn [outside calls judge].
  fold (judged i). fold (answered i).
  destruct (delay sys query (RagService.rewritten_query i)
              (RagService.context i) (judged i) (Services.world m))
    as [[[]|e] w1]; cbn [fst snd ret]; now rewrite <- app_assoc.
Qed.

Definition is_cleanup (o : op vector) : bool :=
  match o with
  | OpCleanup _ => true
  | _ => false
  end.

Lemma services_no_cleanup (t : list (Services.event vector)) :
  List.filter is_cleanup (map (@OpService vector) t) = [].
Proof. induction t as [|ev t IH]; [reflexivity|exact IH]. Qed.

(** One run of a block with a temporary directory. *)
Lemma with_temporary_directory_run {A} (body : str -> IO World vector A)
  (p : process) :
  with_temporary_directory sys body p
  = match temporary_directory sys (outside p) with
    | (Raise e, w1) =>
        (Raise e, mkProcess w1 (calls p ++ [OpTemporaryDirectory]) (judge p))
    | (Ok temp_dir, w1) =>
        let inner :=
          body temp_dir
            (mkProcess w1 (calls p ++ [OpTemporaryDirectory]) (judge p)) in
        let cleaned := cleanup sys temp_dir (outside (snd inner)) in
        (match fst cleaned with
         | Ok _ => fst inner
         | Raise e => Raise e
         end,
         mkProcess (snd cleaned) (calls (snd inner) ++ [OpCleanup temp_dir])
           (judge (snd inner)))
    end.
Proof.
  unfold with_temporary_directory. rewrite io_bind_call.
  destruct (temporary_directory sys (outside p)) as [[temp_dir|e] w1];
    cbn [fst snd]; [|reflexivity].
  destruct (body temp_dir _) as [r p1]. rewrite io_call_run.
  cbn [fst snd].
  now destruct (cleanup sys temp_dir (outside p1)) as [[[]|e] w2].
Qed.

(** The block of [ingest_document] inside the temporary directory. *)
Definition ingest_block (filename temp_dir : str) : IO World vector unit :=
  let temp_filepath := path_join temp_dir filename in
  call (OpOpen temp_filepath (lit "wb"))
    (open_file sys temp_filepath (lit "wb")) ;;;
  content <- call OpRead (read_upload sys) ;;
  call (OpWriteBytes temp_filepath content)
    (write_bytes sys temp_filepath content) ;;;
  print (lit "API: Ingesting document: " ++ filename) ;;;
  base (Ingestion.process_document svc Ingestion.default_config false
          temp_filepath).

Lemma ingest_block_no_cleanup (filename temp_dir : str) (p : process) :
  exists extra,
    calls (snd (ingest_block filename temp_dir p)) = calls p ++ extra
    /\ List.filter is_cleanup extra = [].
Proof.
  unfold ingest_block. rewrite io_bind_call.
  destruct (open_file sys _ (lit "wb") (outside p)) as [[[]|e] w1];
    cbn [fst snd]; [|eexists [_]; split; reflexivity].
  rewrite io_bind_call. cbn [outside calls judge].
  destruct (read_upload sys w1) as [[content|e] w2]; cbn [fst snd].
  2: { eexists [_; _]. rewrite <- app_assoc. split; reflexivity. }
  rewrite io_bind_call. cbn [outside calls judge].
  destruct (write_bytes sys _ content w2) as [[[]|e] w3]; cbn [fst snd].
  2: { eexists [_; _; _]. rewrite <- !app_assoc. split; reflexivity. }
  rewrite io_bind_print, io_base_run. cbn [outside calls judge snd].
  eexists ([_; _; _; _] ++ map (@OpService vector) _).
  rewrite <- !app_assoc. split; [reflexivity|].
  rewrite filter_app, services_no_cleanup. reflexivity.
Qed.

Definition NO_FILE_NAME : json :=
  JDict [(lit "error", JStr (lit "No file name provided"))].

Definition ingested (filename : str) : json :=
  JDict
    [(lit "message",
      JStr (lit "Successfully ingested and processed " ++ filename))].

Definition not_ingested (e : exn) : json :=
  JDict
    [(lit "error",
      JStr (lit "Failed to ingest document. Error: " ++ exn_text e))].

Lemma ingest_document_run (name : str) (p : process) :
  name <> [] ->
  ingest_document sys svc (Some name) p
  = match with_temporary_directory sys (ingest_block name) p with
    | (Ok _, p1) =>
        (Ok (ingested name),
         mkProcess (outside p1)
           (calls p1
              ++ [OpService
                    (Services.EvPrint
                       (lit "API: Successfully ingested " ++ name))])
           (judge p1))
    | (Raise e, p1) =>
        (Ok (not_ingested e),
         mkProcess (outside p1)
           (calls p1
              ++ [OpService
                    (Services.EvPrint
                       (lit "API Error during ingestion: " ++ exn_text e))])
           (judge p1))
    end.
Proof.
  intros Hname. unfold ingest_document.
  destruct name as [|c name]; [contradiction|]. cbn [truthy negb].
  unfold try_except. rewrite io_bind_step.
  fold (ingest_block (c :: name)).
  destruct (with_temporary_directory sys (ingest_block (c :: name)) p)
    as [[[]|e] p1]; reflexivity.
Qed.

(** X28.  [ingest_document] never raises: in every world it answers
    with the fixed error when there is no file name, making no call.
    With a file name it answers with the error that carries the text of
    the exception raised: the one of making the temporary directory; else
    the one of the clean-up, which replaces what the block inside did;
    else the one the block inside raised, from opening, reading, writing
    or [process_document]; and with the success message when none of them
    raised.  When the temporary directory was made, it is cleaned up once,
    whether or not the block inside raised. *)
Theorem ingest_document_never_raises (filename : option str) (p : process) :
  (truthy filename = false ->
   ingest_document sys svc filename p = (Ok NO_FILE_NAME, p))
  /\ (forall name,
        filename = Some name -> name <> [] ->
        fst (ingest_document sys svc filename p)
        = Ok (match temporary_directory sys (outside p) with
              | (Raise e, _) => not_ingested e
              | (Ok temp_dir, w1) =>
                  let inner :=
                    ingest_block name temp_dir
                      (mkProcess w1 (calls p ++ [OpTemporaryDirectory])
                         (judge p)) in
                  match fst (cleanup sys temp_dir (outside (snd inner))),
                        fst inner
                  with
                  | Raise e, _ => not_ingested e
                  | Ok _, Raise e => not_ingested e
                  | Ok _, Ok _ => ingested name
                  end
              end)
        /\ List.filter is_cleanup
             (calls (snd (ingest_document sys svc filename p)))
           = List.filter is_cleanup (calls p)
               ++ match fst (temporary_directory sys (outside p)) with
                  | Ok temp_dir => [OpCleanup temp_dir]
                  | Raise _ => []
                  end).
Proof.
  split.
  - intros Hnone. unfold ingest_document. now rewrite Hnone.
  - intros name -> Hname. rewrite (ingest_document_run p Hname).
    rewrite with_temporary_directory_run.
    destruct (temporary_directory sys (outside p)) as [[temp_dir|e] w1];
      cbn [fst snd].
    + destruct (ingest_block_no_cleanup name temp_dir
                  (mkProcess w1 (calls p ++ [OpTemporaryDirectory])
                     (judge p))) as (extra & Hcalls & Hextra).
      cbn zeta.
      destruct (ingest_block name temp_dir _) as [r p1].
      cbn [fst snd calls] in *. rewrite Hcalls.
      destruct (cleanup sys temp_dir (outside p1)) as [[[]|e] w2];
        cbn [fst snd]; [destruct r as [[]|e]|]; cbn [fst snd calls];
        (split; [reflexivity|]);
        rewrite !filter_app, Hextra; cbn [List.filter is_cleanup app];
        now rewrite !app_nil_r.
    + split; [reflexivity|]. cbn [fst snd calls].
      rewrite !filter_app. cbn [List.filter is_cleanup app].
      now rewrite !app_nil_r.
Qed.

(** X29.  [ingest_document] reports success whenever [process_document]
    returns, whatever was stored.  With a file name, when the temporary
    directory, the writing of the upload and the clean-up work and
    [process_document] returns on the written path, the answer is the
    success message; the upload is written to the file name joined to the
    temporary directory, and that path is the one processed. *)
Theorem ingest_document_reports_success (name temp_dir : str) (p : process)
  (w1 w2 w3 w4 w5 : World) (content : list N)
  (m : Services.machine World vector) :
  name <> [] ->
  let temp_filepath := path_join temp_dir name in
  temporary_directory sys (outside p) = (Ok temp_dir, w1) ->
  open_file sys temp_filepath (lit "wb") w1 = (Ok tt, w2) ->
  read_upload sys w2 = (Ok content, w3) ->
  write_bytes sys temp_filepath content w3 = (Ok tt, w4) ->
  Services.run
    (Ingestion.process_document svc Ingestion.default_config false
       temp_filepath) w4 = (Ok tt, m) ->
  cleanup sys temp_dir (Services.world m) = (Ok tt, w5) ->
  ingest_document sys svc (Some name) p
  = (Ok (ingested name),
     mkProcess w5
       (calls p
          ++ [OpTemporaryDirectory; OpOpen temp_filepath (lit "wb"); OpRead;
              OpWriteBytes temp_filepath content;
              OpService
                (Services.EvPrint (lit "API: Ingesting document: " ++ name))]
          ++ map (@OpService vector) (Services.trace m)
          ++ [OpCleanup temp_dir;
              OpService
                (Services.EvPrint
                   (lit "API: Successfully ingested " ++ name))])
       (judge p)).
Proof.
  intros Hname temp_filepath Htemp Hopen Hread Hwrite Hrun Hclean.
  rewrite (ingest_document_run p Hname), with_temporary_directory_run, Htemp.
  cbn zeta. unfold ingest_block. fold temp_filepath.
  rewrite io_bind_call. cbn [outside calls judge]. rewrite Hopen.
  cbn [fst snd]. rewrite io_bind_call. cbn [outside calls judge].
  rewrite Hread. cbn [fst snd]. rewrite io_bind_call.
  cbn [outside calls judge]. rewrite Hwrite. cbn [fst snd].
  rewrite io_bind_print, io_base_run. cbn [outside calls judge].
  rewrite Hrun. cbn [fst snd outside calls judge]. rewrite Hclean.
  cbn [fst snd]. f_equal. f_equal. rewrite <- !app_assoc. reflexivity.
Qed.

(** The text of the exception says that the collection is missing. *)
Definition says_missing (e : exn) : bool :=
  contains (lit "Not found") (exn_text e)
  || contains (lit "doesn't exist") (lower sys (exn_text e)).

(** X30.  [setup_qdrant_collection] never recreates a collection it
    could read.  When reading the collection returns, nothing else is
    called.  When it raises an exception whose text does not say that the
    collection is missing, that exception reaches the caller and nothing
    else is called.  A collection is recreated only after the reading
    raised with such a text, and then under the collection name, with the
    dimension of the embedding model and the cosine distance. *)
Theorem setup_recreates_only_a_missing_collection (p : process) :
  let found :=
    Services.get_collection svc Ingestion.COLLECTION_NAME (outside p) in
  let probe :=
    OpService (Services.EvGetCollection Ingestion.COLLECTION_NAME) in
  (forall info,
      fst found = Ok info ->
      setup_qdrant_collection sys svc p
      = (Ok tt,
         mkProcess (snd found)
           (calls p
              ++ [probe;
                  OpService
                    (Services.EvPrint
                       (lit "Collection '" ++ Ingestion.COLLECTION_NAME
                          ++ lit "' already exists."))])
           (judge p)))
  /\ (forall e,
        fst found = Raise e -> says_missing e = false ->
        setup_qdrant_collection sys svc p
        = (Raise e, mkProcess (snd found) (calls p ++ [probe]) (judge p)))
  /\ (forall added name size d,
        calls (snd (setup_qdrant_collection sys svc p)) = calls p ++ added ->
        In (OpRecreateCollection name size d) added ->
        name = Ingestion.COLLECTION_NAME /\ d = COSINE
        /\ fst (get_sentence_embedding_dimension sys (snd found)) = Ok size
        /\ exists e, fst found = Raise e /\ says_missing e = true).
Proof.
  intros found probe. subst found probe.
  unfold setup_qdrant_collection, try_except.
  rewrite io_bind_step, io_base_run. unfold Services.run.
  rewrite call_run. cbn [Services.world Services.trace fst snd app map].
  destruct (Services.get_collection svc Ingestion.COLLECTION_NAME (outside p))
    as [[info|e] w1]; cbn [fst snd].
  - unfold print. cbn [outside calls judge].
    rewrite <- app_assoc. split; [|split].
    + intros info' _. reflexivity.
    + discriminate.
    + intros added name size d Hadded Hin. cbn [snd calls app] in Hadded.
      apply app_inv_head in Hadded. subst added.
      destruct Hin as [H|[H|[]]]; discriminate H.
  - fold (says_missing e). destruct (says_missing e) eqn:Hmissing.
    + rewrite io_bind_print, io_bind_call. cbn [outside calls judge].
      split; [discriminate|].
      split; [intros e0 H Hsays; injection H as <-; congruence|].
      destruct (get_sentence_embedding_dimension sys w1) as [[n|e'] w2];
        cbn [fst snd].
      * rewrite io_bind_call. cbn [outside calls judge].
        destruct (recreate_collection sys Ingestion.COLLECTION_NAME n COSINE
                    w2) as [[[]|e'] w3]; cbn [fst snd print calls];
          intros added name size d Hadded Hin;
          rewrite <- !app_assoc in Hadded; apply app_inv_head in Hadded;
          subst added; cbn [app In] in Hin;
          repeat (destruct Hin as [Hin|Hin]; try discriminate Hin);
          try contradiction;
          injection Hin as <- <- <-;
          (split; [reflexivity|]; split; [reflexivity|];
           split; [reflexivity|]; now exists e).
      * intros added name size d Hadded Hin. cbn [snd calls] in Hadded.
        rewrite <- !app_assoc in Hadded. apply app_inv_head in Hadded.
        subst added. cbn [app In] in Hin.
        repeat (destruct Hin as [Hin|Hin]; try discriminate Hin).
        contradiction.
    + cbn [raise]. split; [discriminate|]. split.
      * intros e' H _. injection H as <-. reflexivity.
      * intros added name size d Hadded Hin. cbn [snd calls] in Hadded.
        apply app_inv_head in Hadded. subst added.
        destruct Hin as [H|[]]; discriminate H.
Qed.

End Api.

(** * Runs of the further properties on the fixture *)

(** The second chunk of the small document. *)
Lemma chunk_indices_count_up_witness :
  exists chunks c,
    Ingestion.create_semantic_chunks_from_docs Ingestion.default_config
      Fixture.small_doc (PyStr.lit "pump.pdf") = Py.Ok chunks
    /\ nth_error chunks 1 = Some c
    /\ Ingestion.md_chunk_index (Ingestion.chunk_metadata c) = 1%Z
    /\ Ingestion.md_source (Ingestion.chunk_metadata c) = PyStr.lit "pump.pdf".
Proof.
  eexists _, _. split; [vm_compute; reflexivity|].
  split; [reflexivity|].
  eapply (@chunk_indices_count_up Ingestion.default_config Fixture.small_doc
            (PyStr.lit "pump.pdf") _ 1 _); [vm_compute; reflexivity|].
  reflexivity.
Defined.

Lemma chunk_id_rederivable_witness :
  exists chunks,
    Ingestion.create_semantic_chunks_from_docs Ingestion.default_config
      Fixture.small_doc (PyStr.lit "pump.pdf") = Py.Ok chunks
    /\ Forall (fun c =>
                 Ingestion.chunk_identity
                   (Ingestion.md_source (Ingestion.chunk_metadata c))
                   (Ingestion.md_chunk_index (Ingestion.chunk_metadata c))
                   (Ingestion.chunk_text c)
                 = Py.Ok (Ingestion.chunk_id c)) chunks.
Proof.
  eexists. split; [vm_compute; reflexivity|].
  apply (@chunk_id_rederivable Ingestion.default_config Fixture.small_doc
           (PyStr.lit "pump.pdf")); [reflexivity|vm_compute; reflexivity].
Defined.

(** The small document up to its first paragraph. *)
Definition small_doc_start : Services.document :=
  Services.mkDocument (firstn 2 (Services.iterate_items Fixture.small_doc))
    (PyStr.lit "start").

Lemma chunks_of_a_prefix_witness :
  exists chunks a b,
    Ingestion.create_semantic_chunks_from_docs Ingestion.default_config
      Fixture.small_doc (PyStr.lit "pump.pdf") = Py.Ok chunks
    /\ Ingestion.create_semantic_chunks_from_docs Ingestion.default_config
         small_doc_start (PyStr.lit "pump.pdf") = Py.Ok a
    /\ chunks = a ++ b.
Proof.
  eexists. 
  destruct (@chunks_of_a_prefix Ingestion.default_config
              (PyStr.lit "pump.pdf") small_doc_start Fixture.small_doc
              (skipn 2 (Services.iterate_items Fixture.small_doc)) _
              eq_refl ltac:(vm_compute; reflexivity))
    as (a & b & Ha & Hb).
  exists a, b. split; [vm_compute; reflexivity|]. split; assumption.
Defined.

(** The small document up to its heading. *)
Definition small_doc_heading : Services.document :=
  Services.mkDocument (firstn 1 (Services.iterate_items Fixture.small_doc))
    (PyStr.lit "heading").

Lemma chunks_carry_the_last_heading_witness :
  exists chunks a b,
    Ingestion.create_semantic_chunks_from_docs Ingestion.default_config
      Fixture.small_doc (PyStr.lit "pump.pdf") = Py.Ok chunks
    /\ chunks = a ++ b
    /\ Forall (fun c =>
                 Ingestion.md_heading (Ingestion.chunk_metadata c)
                 = PyStr.lit "Results") b.
Proof.
  eexists.
  destruct (@chunks_carry_the_last_heading Ingestion.default_config
              (PyStr.lit "pump.pdf") small_doc_heading Fixture.small_doc
              (skipn 1 (Services.iterate_items Fixture.small_doc)) _
              eq_refl eq_refl ltac:(vm_compute; reflexivity))
    as (a & b & Ha & Hb & Hheading).
  exists a, b. split; [vm_compute; reflexivity|].
  split; [assumption|exact Hheading].
Defined.

Lemma no_chunks_iff_nothing_qualifies_witness :
  Ingestion.create_semantic_chunks_from_docs Ingestion.default_config
    Fixture.empty_doc (PyStr.lit "empty.pdf") = Py.Ok []
  /\ none_qualifies Ingestion.default_config
       (Services.iterate_items Fixture.empty_doc).
Proof.
  assert (H : Ingestion.create_semantic_chunks_from_docs
                Ingestion.default_config Fixture.empty_doc
                (PyStr.lit "empty.pdf") = Py.Ok [])
    by (vm_compute; reflexivity).
  split; [exact H|].
  exact (proj1 (@no_chunks_iff_nothing_qualifies Ingestion.default_config
                  Fixture.empty_doc (PyStr.lit "empty.pdf") [] H) eq_refl).
Defined.

Lemma prefix_only_adds_the_header_witness :
  exists on off,
    Ingestion.create_semantic_chunks_from_docs
      (with_prefix true Ingestion.default_config) Fixture.small_doc
      (PyStr.lit "pump.pdf") = Py.Ok on
    /\ Ingestion.create_semantic_chunks_from_docs
         (with_prefix false Ingestion.default_config) Fixture.small_doc
         (PyStr.lit "pump.pdf") = Py.Ok off
    /\ map Ingestion.chunk_text on = map with_header off
    /\ map Ingestion.chunk_metadata on = map Ingestion.chunk_metadata off.
Proof.
  eexists _, _. split; [vm_compute; reflexivity|].
  split; [vm_compute; reflexivity|].
  apply (@prefix_only_adds_the_header Ingestion.default_config
           Fixture.small_doc (PyStr.lit "pump.pdf"));
    vm_compute; reflexivity.
Defined.

(** The converter is down. *)
Lemma process_document_reports_what_it_raises_witness :
  last (Services.trace
          (snd (Services.run
                  (Ingestion.process_document
                     (Fixture.services_of AppFixture.converter_down)
                     Ingestion.default_config false
                     (PyStr.lit "/data/pump.pdf")) Fixture.seeded)))
    (Services.EvPrint [])
  = Services.EvPrint (error_line (PyStr.lit "pump.pdf") Fixture.unavailable).
Proof.
  apply (@process_document_reports_what_it_raises _ _
           (Fixture.services_of AppFixture.converter_down)
           Ingestion.default_config false (PyStr.lit "/data/pump.pdf")
           Fixture.seeded Fixture.unavailable).
  reflexivity.
Defined.

(** The small document is stored in two points. *)
Lemma process_document_embeds_then_upserts_witness :
  exists chunks,
    Ingestion.create_semantic_chunks_from_docs Ingestion.default_config
      Fixture.small_doc (PyStr.lit "pump.pdf") = Py.Ok chunks
    /\ length chunks = 2%nat
    /\ fst (Services.run
              (Ingestion.process_document
                 (Fixture.services_of Fixture.healthy)
                 Ingestion.default_config false (PyStr.lit "/data/pump.pdf"))
              Fixture.seeded) = Py.Ok tt
    /\ List.filter (@embeds_or_mutates unit)
         (Services.trace
            (snd (Services.run
                    (Ingestion.process_document
                       (Fixture.services_of Fixture.healthy)
                       Ingestion.default_config false
                       (PyStr.lit "/data/pump.pdf")) Fixture.seeded)))
       = [Services.EvEncode (map Ingestion.chunk_text chunks) 128;
          Services.EvUpsert Ingestion.COLLECTION_NAME
            (points_of chunks [tt; tt]) true].
Proof.
  eexists. split; [vm_compute; reflexivity|]. split; [reflexivity|].
  match goal with
  | |- context [points_of ?chunks _] =>
      destruct (@process_document_embeds_then_upserts _ _
                  (Fixture.services_of Fixture.healthy)
                  Ingestion.default_config false (PyStr.lit "/data/pump.pdf")
                  Fixture.seeded Fixture.seeded Fixture.seeded Fixture.seeded
                  Fixture.seeded _ _ Fixture.small_doc chunks [tt; tt] _
                  eq_refl eq_refl eq_refl
                  ltac:(vm_compute; reflexivity) ltac:(discriminate)
                  eq_refl ltac:(simpl; lia) eq_refl eq_refl)
        as (Hreturns & _ & Hcalls & _)
  end.
  split; [exact Hreturns|exact Hcalls].
Defined.

(** The embedding model returns nothing for the two chunks. *)
Lemma process_document_too_few_embeddings_witness :
  (exists e,
      fst (Services.run
             (Ingestion.process_document AppFixture.short_embedder
                Ingestion.default_config false (PyStr.lit "/data/pump.pdf"))
             Fixture.seeded) = Py.Raise e
      /\ Py.exn_class e = "IndexError")
  /\ mutations
       (Services.trace
          (snd (Services.run
                  (Ingestion.process_document AppFixture.short_embedder
                     Ingestion.default_config false
                     (PyStr.lit "/data/pump.pdf")) Fixture.seeded)))
     = [].
Proof.
  destruct (@process_document_too_few_embeddings _ _
              AppFixture.short_embedder Ingestion.default_config false
              (PyStr.lit "/data/pump.pdf") Fixture.seeded Fixture.seeded
              Fixture.seeded Fixture.seeded Fixture.seeded Fixture.small_doc
              _ [] eq_refl eq_refl eq_refl
              ltac:(vm_compute; reflexivity) eq_refl ltac:(simpl; lia))
    as (Hraises & _ & Hquiet).
  split; assumption.
Defined.


(** The synthesis model is down. *)
Lemma generate_answer_reports_failure_witness :
  fst (RagService.generate_answer (Fixture.services_of Fixture.models_down)
         Fixture.service Fixture.question (PyStr.lit "context")
         (Services.mkMachine Fixture.seeded []))
  = Py.Ok (RagService.mkGeneration
             (PyStr.lit "An error occurred while generating the answer: "
                ++ PyStr.lit "service unavailable") []).
Proof.
  exact (f_equal fst
           (@generate_answer_reports_failure _ _
              (Fixture.services_of Fixture.models_down) Fixture.service
              Fixture.question (PyStr.lit "context") _
              (Services.mkMachine Fixture.seeded [])
              (Py.Raise Fixture.unavailable) Fixture.seeded
              Fixture.unavailable ltac:(discriminate) eq_refl eq_refl
              eq_refl)).
Defined.

(** The rewriting model answers. *)
Lemma rewrite_query_returns_model_value_witness :
  fst (RagService.rewrite_query (Fixture.services_of Fixture.healthy)
         Fixture.service Fixture.question
         (Services.mkMachine Fixture.seeded []))
  = Py.Ok (Json.JStr (PyStr.lit "pump start pressure threshold")).
Proof.
  exact (f_equal fst
           (proj1
              (@rewrite_query_returns_model_value _ _
                 (Fixture.services_of Fixture.healthy) Fixture.service
                 Fixture.question _ Fixture.rewritten_reply
                 (Services.mkMachine Fixture.seeded []) Fixture.seeded
                 [(PyStr.lit "rewritten_query",
                   Json.JStr (PyStr.lit "pump start pressure threshold"))]
                 (Json.JStr (PyStr.lit "pump start pressure threshold"))
                 eq_refl eq_refl eq_refl eq_refl))).
Defined.

(** A rewritten query that holds a lone surrogate cannot be shown: the
    print raises inside the [try] and the original query is returned. *)
Example rewrite_drops_a_value_it_cannot_print :
  fst (RagService.rewrite_query
         (Fixture.services_of
            (Fixture.mkScript true (Py.Ok Fixture.small_doc)
               (fun _ => Py.Ok (Some (PyStr.lit "reply")))
               (fun _ =>
                  Py.Ok (Json.JDict
                           [(PyStr.lit "rewritten_query",
                             Json.JStr [55357%N])]))
               (Py.Ok tt)))
         Fixture.service Fixture.question
         (Services.mkMachine Fixture.seeded []))
  = Py.Ok (Json.JStr Fixture.question).
Proof. vm_compute. reflexivity. Qed.

(** Three cited documents, one with a blank in its name. *)
Lemma citations_round_trip_witness :
  RagService.parse_response
    (Some (PyStr.lit "The pump starts at 2 bar." ++ RagService.CITATIONS
             ++ bullets [PyStr.lit "doc_a.pdf"; PyStr.lit "notes 2024.txt";
                         PyStr.lit "doc_b.pdf"]))
  = Py.Ok (RagService.mkGeneration (PyStr.lit "The pump starts at 2 bar.")
             [PyStr.lit "doc_a.pdf"; PyStr.lit "notes 2024.txt";
              PyStr.lit "doc_b.pdf"]).
Proof.
  exact (@citations_round_trip (PyStr.lit "The pump starts at 2 bar.")
           [PyStr.lit "doc_a.pdf"; PyStr.lit "notes 2024.txt";
            PyStr.lit "doc_b.pdf"] eq_refl eq_refl).
Defined.

(** The judge model is down: the failure evaluation is logged. *)
Lemma judge_and_log_task_logs_every_verdict_witness :
  exists prompt,
    App.judge_and_log_task AppFixture.system_of
      (Fixture.services_of Fixture.models_down) Fixture.question
      (Json.JStr (PyStr.lit "pump start pressure threshold"))
      (PyStr.lit "context")
      [(PyStr.lit "answer", Json.JStr (PyStr.lit "At 2 bar."));
       (PyStr.lit "cited_docs", Json.JList [])]
      (App.mkProcess Fixture.seeded []
         (Some (App.mkLLMJudge LlmJudge.judge_model)))
    = (Py.Ok tt,
       App.mkProcess Fixture.seeded
         [App.OpService
            (Services.EvGenerateContent LlmJudge.judge_model prompt
               (Some RagService.JSON_MIME));
          App.OpNow; App.OpOpen App.LOG_FILE (PyStr.lit "a");
          App.OpWrite App.LOG_FILE
            (log_line AppFixture.system_of Fixture.question
               (Json.JStr (PyStr.lit "pump start pressure threshold"))
               (PyStr.lit "context")
               [(PyStr.lit "answer", Json.JStr (PyStr.lit "At 2 bar."));
                (PyStr.lit "cited_docs", Json.JList [])]
               (LlmJudge.failure_evaluation Fixture.unavailable)
               AppFixture.STAMP);
          App.OpService
            (Services.EvPrint
               (PyStr.lit "Successfully logged evaluation for query."))]
         (Some (App.mkLLMJudge LlmJudge.judge_model))).
Proof.
  eexists.
  exact (@judge_and_log_task_logs_every_verdict _ _ AppFixture.system_of
           (Fixture.services_of Fixture.models_down) Fixture.question
           (PyStr.lit "At 2 bar.")
           (Json.JStr (PyStr.lit "pump start pressure threshold"))
           (PyStr.lit "context")
           [(PyStr.lit "answer", Json.JStr (PyStr.lit "At 2 bar."));
            (PyStr.lit "cited_docs", Json.JList [])]
           (App.mkProcess Fixture.seeded []
              (Some (App.mkLLMJudge LlmJudge.judge_model)))
           (App.mkLLMJudge LlmJudge.judge_model)
           (Py.Raise Fixture.unavailable) Fixture.seeded Fixture.seeded
           Fixture.seeded Fixture.seeded AppFixture.STAMP
           eq_refl eq_refl eq_refl eq_refl eq_refl eq_refl).
Defined.

(** An upload without text to chunk is reported as ingested. *)
Lemma ingest_document_reports_success_witness :
  fst (App.ingest_document AppFixture.system_of
         (Fixture.services_of Fixture.nothing_to_chunk)
         (Some (PyStr.lit "empty.pdf"))
         (App.mkProcess Fixture.seeded [] None))
  = Py.Ok (ingested (PyStr.lit "empty.pdf"))
  /\ App.outside
       (snd (App.ingest_document AppFixture.system_of
               (Fixture.services_of Fixture.nothing_to_chunk)
               (Some (PyStr.lit "empty.pdf"))
               (App.mkProcess Fixture.seeded [] None)))
     = Fixture.seeded.
Proof.
  pose proof (@ingest_document_reports_success _ _ AppFixture.system_of
                (Fixture.services_of Fixture.nothing_to_chunk)
                (PyStr.lit "empty.pdf") AppFixture.TEMP_DIR
                (App.mkProcess Fixture.seeded [] None)
                Fixture.seeded Fixture.seeded Fixture.seeded Fixture.seeded
                Fixture.seeded [37; 80; 68; 70]%N _
                ltac:(discriminate) eq_refl eq_refl eq_refl eq_refl
                ltac:(vm_compute; reflexivity) eq_refl) as Hrun.
  split; [exact (f_equal fst Hrun)|].
  exact (f_equal (fun r => App.outside (snd r)) Hrun).
Defined.
